(** * capa/rules.py: rule parsing, subscope extraction and rule sets

    A shallow embedding of [capa/rules.py] and the properties of its
    literal grammars, statement builder, subscope extraction and
    [RuleSet] assembly.

    Conventions of the embedding:
    - Python [str] values are [string]s (ASCII text);
    - a raised exception is the [Raise] case of [result];
    - rule objects live in a store (a list indexed by object reference),
      so that in-place mutation and the caller's view of it are explicit;
    - [uuid.uuid4().hex] is an oracle [nat -> string] giving the value of
      the n-th call. *)

From Stdlib Require Import ZArith String Ascii List Lia Bool DecimalString.
From Stdlib.Strings Require Import Byte.
From stdpp Require Import base list strings sorting.
Import ListNotations.

Set Warnings "-register-all,-notation-incompatible-prefix".

Local Open Scope string_scope.
Local Open Scope Z_scope.

(** ** Exceptions and results *)

Inductive Exception :=
| InvalidRule (msg : string)
| InvalidRuleSet (msg : string)
| ValueError
| KeyError
| TypeError
| AttributeError
| RecursionError
| OutOfModel.

Inductive result (A : Type) :=
| Ok (a : A)
| Raise (e : Exception).
Arguments Ok {A} a.
Arguments Raise {A} e.

Definition bind {A B} (m : result A) (k : A -> result B) : result B :=
  match m with
  | Ok a => k a
  | Raise e => Raise e
  end.

Notation "x <- m ;; k" := (bind m (fun x => k))
  (at level 100, m at next level, right associativity).

(** [InvalidRule] is the rule-definition error, [InvalidRuleSet] the
    ruleset-integrity error; both derive from [ValueError] in the source
    but neither derives from the other. *)
Definition is_InvalidRule {A} (r : result A) : bool :=
  match r with Raise (InvalidRule _) => true | _ => false end.

Definition is_InvalidRuleSet {A} (r : result A) : bool :=
  match r with Raise (InvalidRuleSet _) => true | _ => false end.

Definition raises {A} (r : result A) : bool :=
  match r with Raise _ => true | Ok _ => false end.

(** ** Python [str] operations used by the parsers *)

Module Py.

Fixpoint startswith (p s : string) : bool :=
  match p, s with
  | EmptyString, _ => true
  | String a p', String b s' => Ascii.eqb a b && startswith p' s'
  | String _ _, EmptyString => false
  end.

Fixpoint drop (n : nat) (s : string) : string :=
  match n, s with
  | O, _ => s
  | S n', String _ s' => drop n' s'
  | S _, EmptyString => EmptyString
  end.

Definition endswith (p s : string) : bool :=
  (String.length p <=? String.length s)%nat
  && String.eqb (drop (String.length s - String.length p) s) p.

(** [s[start : -neg_stop]] for [0 <= start] and [0 < neg_stop]. *)
Definition slice (start neg_stop : nat) (s : string) : string :=
  substring start (String.length s - neg_stop - start) s.

(** ASCII members of the whitespace class of [str.strip]. *)
Definition isspace (c : ascii) : bool :=
  let n := nat_of_ascii c in
  ((9 <=? n) && (n <=? 13) || (28 <=? n) && (n <=? 32))%nat.

Fixpoint lstrip (s : string) : string :=
  match s with
  | String c s' => if isspace c then lstrip s' else s
  | EmptyString => EmptyString
  end.

Fixpoint rstrip (s : string) : string :=
  match s with
  | String c s' =>
      match rstrip s' with
      | EmptyString => if isspace c then EmptyString else String c EmptyString
      | t => String c t
      end
  | EmptyString => EmptyString
  end.

Definition strip (s : string) : string := rstrip (lstrip s).

(** [contains sub s] is [sub in s]. *)
Fixpoint contains (sub s : string) : bool :=
  startswith sub s
  || match s with
     | String _ s' => contains sub s'
     | EmptyString => false
     end.

(** [s.partition(sep)] for a one-character separator: the text before
    the first occurrence, whether it occurs, and the text after it. *)
Fixpoint partition (sep : ascii) (s : string) : string * bool * string :=
  match s with
  | EmptyString => (EmptyString, false, EmptyString)
  | String c s' =>
      if Ascii.eqb c sep then (EmptyString, true, s')
      else let '(a, found, b) := partition sep s' in (String c a, found, b)
  end.

(** [s.replace(c, '')]. *)
Fixpoint remove (c : ascii) (s : string) : string :=
  match s with
  | EmptyString => EmptyString
  | String a s' => if Ascii.eqb a c then remove c s' else String a (remove c s')
  end.

Definition digit_value (c : ascii) : option Z :=
  let n := Z.of_nat (nat_of_ascii c) in
  if (48 <=? n) && (n <=? 57) then Some (n - 48)
  else if (97 <=? n) && (n <=? 122) then Some (n - 87)
  else if (65 <=? n) && (n <=? 90) then Some (n - 55)
  else None.

Definition digit (base : Z) (c : ascii) : option Z :=
  match digit_value c with
  | Some v => if v <? base then Some v else None
  | None => None
  end.

(** Digits after the first one; an underscore must stand between two
    digits. *)
Fixpoint more_digits (base acc : Z) (s : string) : option Z :=
  match s with
  | EmptyString => Some acc
  | String c s' =>
      if Ascii.eqb c "_" then
        match s' with
        | String d s'' =>
            match digit base d with
            | Some v => more_digits base (acc * base + v) s''
            | None => None
            end
        | EmptyString => None
        end
      else
        match digit base c with
        | Some v => more_digits base (acc * base + v) s'
        | None => None
        end
  end.

Definition digits (base : Z) (s : string) : option Z :=
  match s with
  | String c s' =>
      match digit base c with
      | Some v => more_digits base v s'
      | None => None
      end
  | EmptyString => None
  end.

(** The white space that [int] skips around the number in ASCII text:
    tab to carriage return and the space. The separators 28 to 31, which
    [str.strip] removes, are not among them. *)
Definition int_isspace (c : ascii) : bool :=
  let n := nat_of_ascii c in
  ((9 <=? n) && (n <=? 13) || (n =? 32))%nat.

Fixpoint int_lstrip (s : string) : string :=
  match s with
  | String c s' => if int_isspace c then int_lstrip s' else s
  | EmptyString => EmptyString
  end.

Fixpoint int_rstrip (s : string) : string :=
  match s with
  | String c s' =>
      match int_rstrip s' with
      | EmptyString => if int_isspace c then EmptyString
                       else String c EmptyString
      | t => String c t
      end
  | EmptyString => EmptyString
  end.

Definition int_strip (s : string) : string := int_rstrip (int_lstrip s).

(** [int(s, base)] for base 10 or 16: the white space of [int_isspace]
    around the number, an optional sign, for base 16 an optional
    [0x]/[0X] prefix (after which one underscore is allowed), then the
    digits. [None] is [ValueError]. *)
Definition int (s : string) (base : Z) : option Z :=
  let t := int_strip s in
  let '(neg, t) :=
    match t with
    | String "-" t' => (true, t')
    | String "+" t' => (false, t')
    | _ => (false, t)
    end in
  let t :=
    if (base =? 16) && (startswith "0x" t || startswith "0X" t) then
      match drop 2 t with
      | String "_" t' => t'
      | t' => t'
      end
    else t in
  match digits base t with
  | Some v => Some (if neg then - v else v)
  | None => None
  end.

Definition hex_pair (a b : ascii) : option byte :=
  match digit 16 a, digit 16 b with
  | Some h, Some l => Some (byte_of_ascii (ascii_of_N (Z.to_N (16 * h + l))))
  | _, _ => None
  end.

(** [codecs.decode(s, 'hex')]: [None] is [binascii.Error] (odd length
    or a character that is not a hexadecimal digit). *)
Fixpoint unhexlify (s : string) : option (list byte) :=
  match s with
  | EmptyString => Some []
  | String a (String b s') =>
      match hex_pair a b, unhexlify s' with
      | Some x, Some xs => Some (x :: xs)
      | _, _ => None
      end
  | String _ EmptyString => None
  end.

(** ['%s' % n] for an integer. *)
Definition str_of_Z (z : Z) : string :=
  DecimalString.NilZero.string_of_int (Z.to_int z).

End Py.

(** ** Literal grammars *)

Definition parse_int (s : string) : result Z :=
  if Py.startswith "0x" s then
    match Py.int s 16 with Some v => Ok v | None => Raise ValueError end
  else
    match Py.int s 10 with Some v => Ok v | None => Raise ValueError end.

Definition parse_range (s : string) : result (option Z * option Z) :=
  if negb (Py.startswith "(" s) then
    Raise (InvalidRule ("invalid range: " ++ s))
  else if negb (Py.endswith ")" s) then
    Raise (InvalidRule ("invalid range: " ++ s))
  else
    let s := Py.slice 1 1 s in
    let '(min, _, max) := Py.partition "," s in
    let min := Py.strip min in
    let max := Py.strip max in
    min <-
      (if String.eqb min "" then Ok None
       else
         min <- parse_int (Py.strip min) ;;
         if min <? 0 then Raise (InvalidRule "range min less than zero")
         else Ok (Some min)) ;;
    max <-
      (if String.eqb max "" then Ok None
       else
         max <- parse_int (Py.strip max) ;;
         if max <? 0 then Raise (InvalidRule "range max less than zero")
         else Ok (Some max)) ;;
    match min, max with
    | Some mn, Some mx =>
        if mx <? mn then Raise (InvalidRule "range max less than min")
        else Ok (min, max)
    | _, _ => Ok (min, max)
    end.

(** ** Values of a loaded rule document *)

(** What the YAML loader hands to [Rule.from_dict], and what the feature
    constructors receive: mappings keep their keys in document order. *)
Inductive Value :=
| VNone
| VBool (b : bool)
| VInt (z : Z)
| VStr (s : string)
| VBytes (b : list byte)
| VList (l : list Value)
| VDict (d : list (string * Value)).

(** [len(v)]. *)
Definition py_len (v : Value) : result nat :=
  match v with
  | VStr s => Ok (String.length s)
  | VBytes b => Ok (List.length b)
  | VList l => Ok (List.length l)
  | VDict d => Ok (List.length d)
  | VNone | VBool _ | VInt _ => Raise TypeError
  end.

(** Truth value of [v] in a condition. *)
Definition truthy (v : Value) : bool :=
  match v with
  | VNone => false
  | VBool b => b
  | VInt z => negb (z =? 0)
  | VStr s => negb (String.eqb s "")
  | VBytes b => negb (Nat.eqb (List.length b) 0)
  | VList l => negb (Nat.eqb (List.length l) 0)
  | VDict d => negb (Nat.eqb (List.length d) 0)
  end.

(** [d[key]] and [d.get(key, default)] on a mapping. *)
Fixpoint dict_get {A} (d : list (string * A)) (key : string) : option A :=
  match d with
  | [] => None
  | (k, v) :: d' => if String.eqb k key then Some v else dict_get d' key
  end.

Definition dquote : string := String "034"%char EmptyString.

(** ** Features and statements *)

(** Modelled from the spec: the feature classes of [capa.features]
    (the package is not part of the source), a closed set of kinds, each
    instance holding the arguments it was constructed with. A
    characteristic is identified by its name. *)
Inductive FeatureClass :=
| API
| String_
| Bytes
| Number
| Offset
| Mnemonic
| BasicBlock
| Characteristic (name : string)
| Export
| Import
| Section_
| MatchedRule.

#[global] Instance FeatureClass_eq_dec : EqDecision FeatureClass.
Proof. solve_decision. Defined.

Record Feature := mkFeature { cls : FeatureClass; args : list Value }.

(** Modelled from the spec: the node types of [capa.engine] (the module
    is not part of the source). [Range] records the arguments
    [build_statements] passes to its constructor; [Leaf] is a feature
    used as a node, which is not a [Statement] instance. *)
Inductive Statement :=
| And (children : list Statement)
| Or (children : list Statement)
| Not (child : Statement)
| Some_ (count : Z) (children : list Statement)
| Range (child : Feature) (min max : option Z)
| Regex (pattern : string)
| Subscope (scope : string) (child : Statement)
| Leaf (feature : Feature).

Definition FILE_SCOPE := "file".
Definition FUNCTION_SCOPE := "function".
Definition BASIC_BLOCK_SCOPE := "basic block".

Definition SUPPORTED_FEATURES (scope : string) : option (list FeatureClass) :=
  if String.eqb scope FILE_SCOPE then
    Some [ MatchedRule; Export; Import; Section_;
           Characteristic "embedded pe"; String_ ]
  else if String.eqb scope FUNCTION_SCOPE then
    Some [ MatchedRule; API; Number; String_; Bytes; Offset; Mnemonic;
           BasicBlock;
           Characteristic "switch"; Characteristic "nzxor";
           Characteristic "peb access"; Characteristic "fs access";
           Characteristic "gs access"; Characteristic "cross section flow";
           Characteristic "stack string"; Characteristic "calls from";
           Characteristic "calls to"; Characteristic "indirect call";
           Characteristic "loop"; Characteristic "recursive call" ]
  else if String.eqb scope BASIC_BLOCK_SCOPE then
    Some [ MatchedRule; API; Number; String_; Bytes; Offset; Mnemonic;
           Characteristic "nzxor"; Characteristic "peb access";
           Characteristic "fs access"; Characteristic "gs access";
           Characteristic "cross section flow"; Characteristic "tight loop";
           Characteristic "stack string"; Characteristic "indirect call" ]
  else None.

(** The table entries that are types (feature classes), as opposed to
    [Characteristic] instances. *)
Definition is_type (c : FeatureClass) : bool :=
  match c with Characteristic _ => false | _ => true end.

Definition class_in (c : FeatureClass) (l : list FeatureClass) : bool :=
  existsb (fun c' => bool_decide (c = c')) l.

(** What [parse_feature] returns: a feature class, or the closure that
    builds the named characteristic from its value. *)
Inductive FeatureCtor :=
| Class (c : FeatureClass)
| CharacteristicOf (characteristic : string).

Definition parse_feature (key : string) : result FeatureCtor :=
  if String.eqb key "api" then Ok (Class API)
  else if String.eqb key "string" then Ok (Class String_)
  else if String.eqb key "bytes" then Ok (Class Bytes)
  else if String.eqb key "number" then Ok (Class Number)
  else if String.eqb key "offset" then Ok (Class Offset)
  else if String.eqb key "mnemonic" then Ok (Class Mnemonic)
  else if String.eqb key "basic blocks" then Ok (Class BasicBlock)
  else if Py.startswith "characteristic(" key && Py.endswith ")" key then
    Ok (CharacteristicOf (Py.slice 15 1 key))
  else if String.eqb key "export" then Ok (Class Export)
  else if String.eqb key "import" then Ok (Class Import)
  else if String.eqb key "section" then Ok (Class Section_)
  else if String.eqb key "match" then Ok (Class MatchedRule)
  else Raise (InvalidRule ("unexpected statement: " ++ key)).

(** Modelled from the spec: calling a feature constructor. The basic
    block feature takes no argument; number, offset and bytes take a
    value and an optional symbol; every other feature takes its value.
    A call with another number of arguments is a [TypeError]. Rule
    names are strings in this model: a match reference to anything else
    is outside it. *)
Definition construct (F : FeatureCtor) (a : list Value) : result Feature :=
  match F, a with
  | Class BasicBlock, [] => Ok (mkFeature BasicBlock [])
  | Class BasicBlock, _ => Raise TypeError
  | Class (Characteristic _), _ => Raise TypeError
  | Class Number, [_; _] | Class Offset, [_; _] | Class Bytes, [_; _] =>
      Ok (mkFeature match F with Class c => c | _ => Number end a)
  | Class MatchedRule, [VStr _] => Ok (mkFeature MatchedRule a)
  | Class MatchedRule, [_] => Raise OutOfModel
  | Class c, [_] => Ok (mkFeature c a)
  | Class _, _ => Raise TypeError
  | CharacteristicOf n, [_] => Ok (mkFeature (Characteristic n) a)
  | CharacteristicOf _, _ => Raise TypeError
  end.

Section Parser.

(** The constants and collaborators that [capa.features] and
    [capa.engine] provide. *)
Variable MAX_BYTES_FEATURE_SIZE : Z.
(** [str(feature)], as it appears in error messages. *)
Variable feature_str : Feature -> string.
(** Whether [Regex(pattern)] accepts the pattern ([re.error] otherwise). *)
Variable regex_compiles : string -> bool.

Definition ensure_feature_valid_for_scope (scope : string) (feature : Feature)
  : result unit :=
  match SUPPORTED_FEATURES scope with
  | None => Raise KeyError
  | Some supported =>
      let unsupported :=
        Raise (InvalidRule ("feature " ++ feature_str feature
                            ++ " not support for scope " ++ scope)) in
      match cls feature with
      | Characteristic n =>
          if negb (class_in (Characteristic n) supported) then unsupported
          else Ok tt
      | c =>
          if negb (class_in c (List.filter (fun t => is_type t) supported))
          then unsupported
          else Ok tt
      end
  end.

(** [s] can be an int or a string. *)
Definition parse_symbol (s : Value) (value_type : string)
  : result (Value * Value) :=
  vs <-
    match s with
    | VStr t =>
        if Py.contains "=" t then
          let '(value, _, symbol) := Py.partition "=" t in
          let symbol := Py.strip symbol in
          if String.eqb symbol "" then
            Raise (InvalidRule ("unexpected value: " ++ dquote ++ t ++ dquote
                                ++ ", symbol name cannot be empty"))
          else Ok (VStr value, VStr symbol)
        else Ok (s, VNone)
    | _ => Ok (s, VNone)
    end ;;
  let '(value, symbol) := vs in
  value <-
    match value with
    | VStr t =>
        if String.eqb value_type "bytes" then
          match Py.unhexlify (Py.remove " " t) with
          | None =>
              Raise (InvalidRule ("unexpected bytes value: " ++ dquote ++ t
                                  ++ dquote
                                  ++ ", must be a valid hex sequence"))
          | Some b =>
              if Z.of_nat (List.length b) >? MAX_BYTES_FEATURE_SIZE then
                Raise (InvalidRule
                         ("unexpected bytes value: byte sequences must be no larger than "
                          ++ Py.str_of_Z MAX_BYTES_FEATURE_SIZE ++ " bytes"))
              else Ok (VBytes b)
          end
        else
          match parse_int t with
          | Ok v => Ok (VInt v)
          | Raise _ =>
              Raise (InvalidRule ("unexpected value: " ++ dquote ++ t ++ dquote
                                  ++ ", must begin with numerical value"))
          end
    | _ => Ok value
    end ;;
  Ok (value, symbol).

(** The elements [dd] that [for dd in v] hands to the recursive call
    when [v] is not a list: iterating a mapping, a string or a byte
    string yields keys, characters or integers, on which
    [build_statements] fails at [d.keys()]. *)
Definition iterate_other (v : Value) : result (list Statement) :=
  match v with
  | VDict [] | VStr EmptyString | VBytes [] | VList _ => Ok []
  | VDict _ | VStr _ | VBytes _ => Raise AttributeError
  | VNone | VBool _ | VInt _ => Raise TypeError
  end.

(** The interpretation of the value attached to a [count(...)] key
    (the tail of the [count] branch of [build_statements]). A boolean
    is an [int] instance. *)
Definition count_range (feature : Feature) (count : Value)
  : result Statement :=
  match count with
  | VInt n => Ok (Range feature (Some n) (Some n))
  | VBool b => Ok (Range feature (Some (Z.b2z b)) (Some (Z.b2z b)))
  | VStr count =>
      if Py.endswith " or more" count then
        min <- parse_int (Py.slice 0 8 count) ;;
        Ok (Range feature (Some min) None)
      else if Py.endswith " or fewer" count then
        max <- parse_int (Py.slice 0 9 count) ;;
        Ok (Range feature None (Some max))
      else if Py.startswith "(" count then
        mm <- parse_range count ;;
        Ok (Range feature (fst mm) (snd mm))
      else Raise (InvalidRule ("unexpected range: " ++ count))
  | VBytes _ => Raise TypeError
  | VNone | VList _ | VDict _ => Raise AttributeError
  end.

(** The feature named by the term of a [count(<term>)] key. *)
Definition count_feature (term scope : string) : result Feature :=
  if Py.startswith "characteristic(" term then
    F <- parse_feature term ;;
    feature <- construct F [VBool true] ;;
    _ <- ensure_feature_valid_for_scope scope feature ;;
    Ok feature
  else
    let '(term, _, arg) := Py.partition "(" term in
    F <- parse_feature term ;;
    feature <-
      (if negb (String.eqb arg "") then
         let arg := Py.slice 0 1 arg in
         if String.eqb term "number" || String.eqb term "offset"
            || String.eqb term "bytes" then
           vs <- parse_symbol (VStr arg) term ;;
           construct F [fst vs; snd vs]
         else construct F [VStr arg]
       else construct F []) ;;
    _ <- ensure_feature_valid_for_scope scope feature ;;
    Ok feature.

Fixpoint build_statements (d : Value) (scope : string) {struct d}
  : result Statement :=
  match d with
  | VDict [(key, v)] =>
      let children (scope : string) : result (list Statement) :=
        match v with
        | VList l =>
            (fix each (l : list Value) : result (list Statement) :=
               match l with
               | [] => Ok []
               | dd :: l' =>
                   s <- build_statements dd scope ;;
                   ss <- each l' ;;
                   Ok (s :: ss)
               end) l
        | _ => iterate_other v
        end in
      if String.eqb key "and" then
        cs <- children scope ;; Ok (And cs)
      else if String.eqb key "or" then
        cs <- children scope ;; Ok (Or cs)
      else if String.eqb key "not" then
        n <- py_len v ;;
        if negb (Nat.eqb n 1) then
          Raise (InvalidRule
                   "not statement must have exactly one child statement")
        else
          cs <- children scope ;;
          match cs with
          | [c] => Ok (Not c)
          | _ => Raise TypeError
          end
      else if Py.endswith " or more" key then
        match Py.int (Py.slice 0 7 key) 10 with
        | None => Raise ValueError
        | Some count => cs <- children scope ;; Ok (Some_ count cs)
        end
      else if String.eqb key "optional" then
        cs <- children scope ;; Ok (Some_ 0 cs)
      else if String.eqb key "function" then
        if negb (String.eqb scope FILE_SCOPE) then
          Raise (InvalidRule
                   "function subscope supported only for file scope")
        else
          n <- py_len v ;;
          if negb (Nat.eqb n 1) then
            Raise (InvalidRule
                     "subscope must have exactly one child statement")
          else
            cs <- children FUNCTION_SCOPE ;;
            match cs with
            | [c] => Ok (Subscope FUNCTION_SCOPE c)
            | _ => Raise TypeError
            end
      else if String.eqb key "basic block" then
        if negb (String.eqb scope FUNCTION_SCOPE) then
          Raise (InvalidRule
                   "basic block subscope supported only for function scope")
        else
          n <- py_len v ;;
          if negb (Nat.eqb n 1) then
            Raise (InvalidRule
                     "subscope must have exactly one child statement")
          else
            cs <- children BASIC_BLOCK_SCOPE ;;
            match cs with
            | [c] => Ok (Subscope BASIC_BLOCK_SCOPE c)
            | _ => Raise TypeError
            end
      else if Py.startswith "count(" key && Py.endswith ")" key then
        feature <- count_feature (Py.slice 6 1 key) scope ;;
        count_range feature v
      else
        let plain :=
          F <- parse_feature key ;;
          feature <-
            (if String.eqb key "number" || String.eqb key "offset"
                || String.eqb key "bytes" then
               vs <- parse_symbol v key ;;
               construct F [fst vs; snd vs]
             else construct F [v]) ;;
          _ <- ensure_feature_valid_for_scope scope feature ;;
          Ok (Leaf feature) in
        if String.eqb key "string" then
          match v with
          | VStr t =>
              if Py.startswith "/" t
                 && (Py.endswith "/" t || Py.endswith "/i" t) then
                if regex_compiles t then Ok (Regex t)
                else
                  let t := if Py.endswith "/i" t then Py.slice 0 1 t else t in
                  Raise (InvalidRule
                           ("invalid regular expression: " ++ t
                            ++ " it should use Python syntax, try it at https://pythex.org"))
              else plain
          | VBytes _ => Raise TypeError
          | _ => Raise AttributeError
          end
        else plain
  | VDict _ => Raise (InvalidRule "too many statements")
  | _ => Raise AttributeError
  end.

(** ** Rules *)

Record Rule := mkRule {
name : string;
scope : string;
statement : Statement;
meta : list (string * Value);
definition : string
}.

(** A value loaded from a document is never an instance of the engine's
  [Subscope] class. *)
Definition isinstance_Subscope (v : Value) : bool := false.

(** [v[key]] on a loaded value. *)
Definition getitem (v : Value) (key : string) : result Value :=
match v with
| VDict d =>
    match dict_get d key with Some x => Ok x | None => Raise KeyError end
| _ => Raise TypeError
end.

(** A name or scope has to be a string for the rest of the model. *)
Definition as_str (v : Value) : result string :=
match v with VStr s => Ok s | _ => Raise OutOfModel end.

Definition from_dict (d : Value) (s : string) : result Rule :=
  rule <- getitem d "rule" ;;
  meta <- getitem rule "meta" ;;
  name <- getitem meta "name" ;;
  scope <-
    match meta with
    | VDict m =>
        match dict_get m "scope" with
        | Some x => Ok x
        | None => Ok (VStr FUNCTION_SCOPE)
        end
    | _ => Raise AttributeError
    end ;;
  statements <- getitem rule "features" ;;
  n <- py_len statements ;;
  if negb (Nat.eqb n 1) then
    Raise (InvalidRule "rule must begin with a single top level statement")
  else
    first <-
      match statements with
      | VList (x :: _) => Ok x
      | VStr c => Ok (VStr c)
      | VBytes (b :: _) => Ok (VInt (Z.of_N (Byte.to_N b)))
      | VDict _ => Raise KeyError
      | _ => Raise TypeError
      end ;;
    if isinstance_Subscope first then
      Raise (InvalidRule "top level statement may not be a subscope")
    else
      scope <- as_str scope ;;
      statement <- build_statements first scope ;;
      name <- as_str name ;;
      match meta with
      | VDict m => Ok (mkRule name scope statement m s)
      | _ => Raise AttributeError
      end.

End Parser.

(** ** Dependencies *)

(** Modelled from the spec: [Statement.get_children] of [capa.engine],
    the accessor that enumerates the child nodes of a node. *)
Definition get_children (s : Statement) : list Statement :=
  match s with
  | And cs | Or cs | Some_ _ cs => cs
  | Not c | Subscope _ c => [c]
  | Range f _ _ => [Leaf f]
  | Regex _ | Leaf _ => []
  end.

Definition isinstance_Statement (s : Statement) : bool :=
  match s with Leaf _ => false | _ => true end.

Definition is_Subscope (s : Statement) : bool :=
  match s with Subscope _ _ => true | _ => false end.

(** [rule_name] of a match-reference feature. *)
Definition rule_name (f : Feature) : option string :=
  match cls f, args f with
  | MatchedRule, [VStr n] => Some n
  | _, _ => None
  end.

Definition MatchedRule_ (name : string) : Feature :=
  mkFeature MatchedRule [VStr name].

(** A [set] of strings, in insertion order. *)
Definition set_add (x : string) (s : list string) : list string :=
  if existsb (String.eqb x) s then s else s ++ [x].

Definition set_mem (x : string) (s : list string) : bool :=
  existsb (String.eqb x) s.

Definition deps_of_feature (f : Feature) (deps : list string) : list string :=
  match rule_name f with
  | Some n => set_add n deps
  | None => deps
  end.

(** The inner [rec] of [Rule.get_dependencies], adding to [deps]. *)
Fixpoint get_dependencies_rec (st : Statement) (deps : list string)
  : list string :=
  match st with
  | Leaf f => deps_of_feature f deps
  | And cs | Or cs | Some_ _ cs =>
      fold_left (fun deps child => get_dependencies_rec child deps) cs deps
  | Not c | Subscope _ c => get_dependencies_rec c deps
  | Range f _ _ => deps_of_feature f deps
  | Regex _ => deps
  end.

Definition get_dependencies (self : Rule) : list string :=
  get_dependencies_rec (statement self) [].

(** ** Subscope extraction *)

Definition set_statement (r : Rule) (st : Statement) : Rule :=
  mkRule (name r) (scope r) st (meta r) (definition r).

(** Modelled from the spec: [Statement.replace_child] of [capa.engine],
    seen from the node whose children are rewritten: the node with the
    children [cs] in place of its own. *)
Definition set_children (s : Statement) (cs : list Statement) : Statement :=
  match s, cs with
  | And _, _ => And cs
  | Or _, _ => Or cs
  | Some_ n _, _ => Some_ n cs
  | Not _, [c] => Not c
  | Subscope sc _, [c] => Subscope sc c
  | _, _ => s
  end.

(** Rule objects are referred to by their index in the store. *)
Abbreviation ref := nat.

Section Extraction.

(** [uuid4_hex k] is the value of the k-th call of [uuid.uuid4().hex]. *)
Variable uuid4_hex : nat -> string.

(** The rule created for a subscope node by the k-th generated name. *)
Definition subscope_rule_name (self_name : string) (k : nat) : string :=
  self_name ++ "/" ++ uuid4_hex k.

Definition subscope_rule (self_name : string) (k : nat)
    (subscope_scope : string) (subscope_child : Statement) : Rule :=
  let name := subscope_rule_name self_name k in
  mkRule name subscope_scope subscope_child
    [ ("name", VStr name);
      ("scope", VStr subscope_scope);
      ("lib", VBool true);
      ("capa/subscope-rule", VBool true);
      ("capa/parent", VStr self_name) ]
    "".

(** The first loop of [_extract_subscope_rules_rec]: every child that
    is a subscope is replaced by a match reference to a new rule. The
    result is the children after replacement, the rules yielded, and
    the number of names generated so far. *)
Fixpoint replace_subscopes (self_name : string) (cs : list Statement)
    (k : nat) : list Statement * list Rule * nat :=
  match cs with
  | [] => ([], [], k)
  | Subscope sc child :: cs' =>
      let new_rule := subscope_rule self_name k sc child in
      let new_node := Leaf (MatchedRule_ (name new_rule)) in
      let '(cs'', new_rules, k') := replace_subscopes self_name cs' (S k) in
      (new_node :: cs'', new_rule :: new_rules, k')
  | c :: cs' =>
      let '(cs'', new_rules, k') := replace_subscopes self_name cs' k in
      (c :: cs'', new_rules, k')
  end.

(** The second loop of [_extract_subscope_rules_rec], which recurses
    (by [rec]) into the children after replacement. A replaced child is
    a match-reference leaf, on which the recursive call yields nothing,
    and any other child is the original one; the loop therefore runs on
    the original children [orig] next to the replaced ones [repl] and
    skips the replaced ones ([extract_children_source] states the
    equation in the shape of the source). *)
Fixpoint recurse_children
    (rec : Statement -> nat -> Statement * list Rule * nat)
    (orig repl : list Statement) (k : nat)
  : list Statement * list Rule * nat :=
  match orig, repl with
  | c :: orig', c1 :: repl' =>
      let '(c2, new1, k1) := if is_Subscope c then (c1, [], k) else rec c k in
      let '(cs2, new2, k2) := recurse_children rec orig' repl' k1 in
      (c2 :: cs2, (new1 ++ new2)%list, k2)
  | _, _ => ([], [], k)
  end.

(** Both loops of [_extract_subscope_rules_rec] on the children [cs] of
    a node. *)
Definition extract_children
    (rec : Statement -> nat -> Statement * list Rule * nat)
    (self_name : string) (cs : list Statement) (k : nat)
  : list Statement * list Rule * nat :=
  let '(cs1, new1, k1) := replace_subscopes self_name cs k in
  let '(cs2, new2, k2) := recurse_children rec cs cs1 k1 in
  (cs2, (new1 ++ new2)%list, k2).

(** The same for a node with the single child [c]. *)
Definition extract_child
    (rec : Statement -> nat -> Statement * list Rule * nat)
    (self_name : string) (c : Statement) (k : nat)
  : Statement * list Rule * nat :=
  match c with
  | Subscope sc c' =>
      let new_rule := subscope_rule self_name k sc c' in
      (Leaf (MatchedRule_ (name new_rule)), [new_rule], S k)
  | _ => rec c k
  end.

(** [Rule._extract_subscope_rules_rec]: the statement after the
    rewrite, the rules yielded in order, and the name counter. *)
Fixpoint _extract_subscope_rules_rec (self_name : string) (st : Statement)
    (k : nat) {struct st} : Statement * list Rule * nat :=
  let rec := _extract_subscope_rules_rec self_name in
  match st with
  | And cs =>
      let '(cs', new, k') := extract_children rec self_name cs k in
      (And cs', new, k')
  | Or cs =>
      let '(cs', new, k') := extract_children rec self_name cs k in
      (Or cs', new, k')
  | Some_ n cs =>
      let '(cs', new, k') := extract_children rec self_name cs k in
      (Some_ n cs', new, k')
  | Not c =>
      let '(c', new, k') := extract_child rec self_name c k in
      (Not c', new, k')
  | Subscope sc c =>
      let '(c', new, k') := extract_child rec self_name c k in
      (Subscope sc c', new, k')
  | Range _ _ _ | Regex _ | Leaf _ => (st, [], k)
  end.

(** ** The object store *)

(** Number of subscope nodes of a statement, and the bound it gives on
    the iterations a rule causes in the worklist loop. *)
Fixpoint count_subscopes (st : Statement) : nat :=
  match st with
  | And cs | Or cs | Some_ _ cs => sum_list_with count_subscopes cs
  | Not c => count_subscopes c
  | Subscope _ c => S (count_subscopes c)
  | Range _ _ _ | Regex _ | Leaf _ => O
  end.

Definition weight (r : Rule) : nat := S (count_subscopes (statement r)).

(** The [while rules:] loop of [RuleSet._extract_subscope_rules] on
    the store: [rules] is the content of the caller's list object and
    [done] the local list. [None] when [fuel] iterations do not empty
    the worklist or a reference points outside the store. *)
Fixpoint extract_loop (fuel : nat) (store : list Rule) (k : nat)
    (rules done : list ref) : option (list Rule * nat * list ref * list ref) :=
  match rules with
  | [] => Some (store, k, rules, done)
  | r :: rest =>
      match fuel with
      | O => None
      | S fuel' =>
          match store !! r with
          | None => None
          | Some rule =>
              let '(st', new_rules, k') :=
                _extract_subscope_rules_rec (name rule) (statement rule) k in
              let store' := (<[r := set_statement rule st']> store ++ new_rules)%list in
              let rules' :=
                (rest ++ seq (List.length store) (List.length new_rules))%list in
              extract_loop fuel' store' k' rules' (done ++ [r])%list
          end
      end
  end.

Definition total_weight (rules : list Rule) : nat :=
  sum_list_with weight rules.

End Extraction.

(** ** Dependency and integrity checks *)

Definition get_rules_with_scope (rules : list Rule) (target : string)
  : list Rule :=
  List.filter (fun rule => String.eqb (scope rule) target) rules.

(** [d[key] = v] on a mapping that keeps insertion order. *)
Fixpoint dict_set {A} (d : list (string * A)) (key : string) (v : A)
  : list (string * A) :=
  match d with
  | [] => [(key, v)]
  | (k, x) :: d' =>
      if String.eqb k key then (k, v) :: d' else (k, x) :: dict_set d' key v
  end.

Definition dict_values {A} (d : list (string * A)) : list A := map snd d.

(** [{rule.name: rule for rule in rules}]. *)
Definition rules_by_name (rules : list Rule) : list (string * Rule) :=
  fold_left (fun d rule => dict_set d (name rule) rule) rules [].

(** A [for] loop whose body may raise. *)
Fixpoint for_each {A} (body : A -> result unit) (l : list A) : result unit :=
  match l with
  | [] => Ok tt
  | x :: l' => _ <- body x ;; for_each body l'
  end.

Fixpoint ensure_unique_from (seen : list string) (rules : list Rule)
  : result unit :=
  match rules with
  | [] => Ok tt
  | rule :: rules' =>
      if set_mem (name rule) seen then
        Raise (InvalidRule ("duplicate rule name: " ++ name rule))
      else ensure_unique_from (set_add (name rule) seen) rules'
  end.

Definition ensure_rules_are_unique (rules : list Rule) : result unit :=
  ensure_unique_from [] rules.

Definition ensure_rule_dependencies_are_met (rules : list Rule) : result unit :=
  let rules := rules_by_name rules in
  for_each
    (fun rule =>
       for_each
         (fun dep =>
            match dict_get rules dep with
            | None =>
                Raise (InvalidRule ("rule " ++ dquote ++ name rule ++ dquote
                                    ++ " depends on missing rule "
                                    ++ dquote ++ dep ++ dquote))
            | Some _ => Ok tt
            end)
         (get_dependencies rule))
    (dict_values rules).

(** A [set] of rule objects, in insertion order. The rules that reach
    such a set are values of one name-keyed mapping, so two of them are
    the same object exactly when they have the same name. *)
Definition rule_set_add (r : Rule) (s : list Rule) : list Rule :=
  if existsb (fun r' => String.eqb (name r') (name r)) s then s
  else (s ++ [r])%list.

Definition rule_set_update (s new : list Rule) : list Rule :=
  fold_left (fun s r => rule_set_add r s) new s.

(** [rule.meta.get('lib', False)] as a condition. *)
Definition is_lib (rule : Rule) : bool :=
  match dict_get (meta rule) "lib" with
  | Some v => truthy v
  | None => false
  end.

Record RuleSet := mkRuleSet {
  file_rules : list Rule;
  function_rules : list Rule;
  basic_block_rules : list Rule;
  rules : list (string * Rule)
}.

(** What a call of the [RuleSet] constructor leaves behind: the content
    of the list object the caller passed, the rule objects by reference
    (the caller's i-th rule is object [i]), and the value returned or
    the exception raised. *)
Record Outcome := mkOutcome {
  caller_list : list ref;
  objects : list Rule;
  returned : result RuleSet
}.

Section RuleSets.

Variable uuid4_hex : nat -> string.
(** [capa.engine.topologically_order_rules], applied to an enumeration
    of the set it is given. *)
Variable topologically_order_rules : list Rule -> list Rule.
(** The depth of nested calls the interpreter allows. *)
Variable recursion_limit : nat.

(** The loop [for dep in rule.get_dependencies(): rec(rules[dep])]. *)
Fixpoint each_dependency
    (rec : Rule -> list string -> result (list string))
    (rules : list (string * Rule)) (deps : list string)
    (wanted : list string) : result (list string) :=
  match deps with
  | [] => Ok wanted
  | dep :: deps' =>
      match dict_get rules dep with
      | None => Raise KeyError
      | Some r =>
          wanted <- rec r wanted ;;
          each_dependency rec rules deps' wanted
      end
  end.

(** The inner [rec] of [get_rules_and_dependencies]; [fuel] is the depth
    left before [RecursionError]. *)
Fixpoint get_rules_and_dependencies_rec (fuel : nat)
    (rules : list (string * Rule)) (rule : Rule) (wanted : list string)
    {struct fuel} : result (list string) :=
  match fuel with
  | O => Raise RecursionError
  | S fuel' =>
      let wanted := set_add (name rule) wanted in
      each_dependency (get_rules_and_dependencies_rec fuel' rules) rules
        (get_dependencies rule) wanted
  end.

Definition get_rules_and_dependencies (rules : list Rule) (rule_name : string)
  : result (list Rule) :=
  let rules := rules_by_name rules in
  let wanted := [rule_name] in
  match dict_get rules rule_name with
  | None => Raise KeyError
  | Some rule =>
      wanted <- get_rules_and_dependencies_rec recursion_limit rules rule wanted ;;
      Ok (List.filter (fun rule => set_mem (name rule) wanted)
            (dict_values rules))
  end.

(** The loop of [_get_rules_for_scope] that collects [scope_rules]. *)
Fixpoint collect_scope_rules (all rules : list Rule) (scope_rules : list Rule)
  : result (list Rule) :=
  match rules with
  | [] => Ok scope_rules
  | rule :: rules' =>
      if is_lib rule then collect_scope_rules all rules' scope_rules
      else
        deps <- get_rules_and_dependencies all (name rule) ;;
        collect_scope_rules all rules' (rule_set_update scope_rules deps)
  end.

Definition _get_rules_for_scope (rules : list Rule) (target : string)
  : result (list Rule) :=
  scope_rules <- collect_scope_rules rules rules [] ;;
  Ok (get_rules_with_scope (topologically_order_rules scope_rules) target).

(** [RuleSet._extract_subscope_rules] on the caller's list of [n] rule
    objects: the store, the final content of the caller's list and the
    [done] list. *)
Definition _extract_subscope_rules (rules : list Rule)
  : option (list Rule * list ref * list ref) :=
  match extract_loop uuid4_hex (total_weight rules) rules O
          (seq O (List.length rules)) [] with
  | Some (store, _, remaining, done) => Some (store, remaining, done)
  | None => None
  end.

(** The rule objects a list of references denotes. *)
Definition deref (store : list Rule) (refs : list ref) : list Rule :=
  omap (fun r : ref => store !! r) refs.

(** The stages of [RuleSet.__init__] after subscope extraction. *)
Definition assemble (rules : list Rule) : result RuleSet :=
  _ <- ensure_rule_dependencies_are_met rules ;;
  if Nat.eqb (List.length rules) 0 then
    Raise (InvalidRuleSet "no rules selected")
  else
    file_rules <- _get_rules_for_scope rules FILE_SCOPE ;;
    function_rules <- _get_rules_for_scope rules FUNCTION_SCOPE ;;
    basic_block_rules <- _get_rules_for_scope rules BASIC_BLOCK_SCOPE ;;
    Ok (mkRuleSet file_rules function_rules basic_block_rules
          (rules_by_name rules)).

(** [RuleSet.__init__(rules)], where the argument is a list object
    holding the rule objects [rules]. *)
Definition RuleSet_init (rules : list Rule) : Outcome :=
  match ensure_rules_are_unique rules with
  | Raise e => mkOutcome (seq O (List.length rules)) rules (Raise e)
  | Ok _ =>
      match _extract_subscope_rules rules with
      | None => mkOutcome (seq O (List.length rules)) rules (Raise OutOfModel)
      | Some (store, remaining, done) =>
          mkOutcome remaining store (assemble (deref store done))
      end
  end.

(** Whether some string-valued entry of the metadata contains the tag. *)
Definition meta_has_tag (tag : string) (rule : Rule) : bool :=
  existsb
    (fun kv => match snd kv with
               | VStr v => Py.contains tag v
               | _ => false
               end)
    (meta rule).

Fixpoint filter_loop (tag : string) (all rules : list Rule)
    (rules_filtered : list Rule) : result (list Rule) :=
  match rules with
  | [] => Ok rules_filtered
  | rule :: rules' =>
      if meta_has_tag tag rule then
        deps <- get_rules_and_dependencies all (name rule) ;;
        filter_loop tag all rules' (rule_set_update rules_filtered deps)
      else filter_loop tag all rules' rules_filtered
  end.

Definition filter_rules_by_meta (self : RuleSet) (tag : string)
  : result RuleSet :=
  let rules := dict_values (rules self) in
  rules_filtered <- filter_loop tag rules rules [] ;;
  returned (RuleSet_init rules_filtered).

End RuleSets.

(** ** Notions used by the properties *)

(** What the text of one bound of a range denotes: blank text is an open
    end, any other text a non-negative integer. *)
Definition range_bound (text : string) (b : option Z) : Prop :=
  if String.eqb (Py.strip text) "" then b = None
  else exists v, parse_int (Py.strip text) = Ok v /\ 0 <= v /\ b = Some v.

(** One bound of [parse_range], as the function computes it. *)
Definition parse_bound (msg text : string) : result (option Z) :=
  if String.eqb (Py.strip text) "" then Ok None
  else
    v <- parse_int (Py.strip text) ;;
    if v <? 0 then Raise (InvalidRule msg) else Ok (Some v).


(** ** Example documents and rules *)

Definition mnemonic_mov : Value := VDict [("mnemonic", VStr "mov")].

Definition mov : Statement := Leaf (mkFeature Mnemonic [VStr "mov"]).

Definition rule_doc (name scope : string) (features : list Value) : Value :=
  VDict [("rule",
          VDict [("meta", VDict [("name", VStr name); ("scope", VStr scope)]);
                 ("features", VList features)])].

(** A file-scope rule whose only top-level statement is a subscope. *)
Definition top_level_subscope_doc : Value :=
  rule_doc "r" "file" [VDict [("function", VList [mnemonic_mov])]].

(** A file-scope rule with a basic-block subscope directly inside a
    function subscope, under [and]. *)
Definition nested_subscope_doc : Value :=
  rule_doc "r" "file"
    [VDict [("and",
             VList [VDict [("function",
                            VList [VDict [("basic block",
                                           VList [mnemonic_mov])]])]])]].

Definition nested_subscope_rule : Rule :=
  mkRule "r" "file"
    (And [Subscope "function" (Subscope "basic block" mov)])
    [("name", VStr "r"); ("scope", VStr "file")] "".

(** Whether a subscope node occurs anywhere in a statement. *)
Fixpoint has_subscope (st : Statement) : bool :=
  match st with
  | And cs | Or cs | Some_ _ cs => existsb has_subscope cs
  | Not c => has_subscope c
  | Subscope _ _ => true
  | Range _ _ _ | Regex _ | Leaf _ => false
  end.

(** The invariants of a mapping built by [rules_by_name]: keys are
    distinct and every key is the name of its rule. *)
Definition keyed_by_name (d : list (string * Rule)) : Prop :=
  NoDup (map fst d) /\ forall k r, (k, r) ∈ d -> name r = k.

(** The iterations the rules of a worklist can still cause. *)
Definition store_weight (store : list Rule) (refs : list ref) : nat :=
  sum_list_with
    (fun r : ref => match store !! r with Some rule => weight rule | None => O end)
    refs.

(** The full rule collection after subscope extraction: the objects the
    [done] list of [RuleSet._extract_subscope_rules] refers to. *)
Definition extracted (uuid4_hex : nat -> string) (rules : list Rule)
  : list Rule :=
  match _extract_subscope_rules uuid4_hex rules with
  | Some (store, _, done) => deref store done
  | None => []
  end.

(** A rule that refers to a rule named "missing". *)
Definition dangling_rule : Rule :=
  mkRule "d" "function" (And [Leaf (MatchedRule_ "missing")])
    [("name", VStr "d")] "".

(** The transitive dependency closure: the names reached from a name by
    following direct dependencies through the name-keyed mapping. *)
Inductive reach (d : list (string * Rule)) : string -> string -> Prop :=
| reach_refl (n : string) : reach d n n
| reach_step (n : string) (rule : Rule) (dep m : string) :
    dict_get d n = Some rule -> dep ∈ get_dependencies rule ->
    reach d dep m -> reach d n m.

(** A file-scope rule that matches on a function-scope library rule. *)
Definition lib_rule : Rule :=
  mkRule "helper" "function" (And [mov])
    [("name", VStr "helper"); ("scope", VStr "function"); ("lib", VBool true)]
    "".

Definition file_rule : Rule :=
  mkRule "reported" "file" (And [Leaf (MatchedRule_ "helper")])
    [("name", VStr "reported"); ("scope", VStr "file")] "".

(** The second loop of [_extract_subscope_rules_rec] as the source has
    it: the recursive call on every child after replacement. *)
Fixpoint recurse_replaced
    (rec : Statement -> nat -> Statement * list Rule * nat)
    (cs : list Statement) (k : nat) : list Statement * list Rule * nat :=
  match cs with
  | [] => ([], [], k)
  | c :: cs' =>
      let '(c2, new1, k1) := rec c k in
      let '(cs2, new2, k2) := recurse_replaced rec cs' k1 in
      (c2 :: cs2, (new1 ++ new2)%list, k2)
  end.

(** ** Notions used by the further properties *)

(** Whether the table of a scope lists a feature class; an unknown
    scope lists nothing. *)
Definition supported (scope : string) (c : FeatureClass) : bool :=
  match SUPPORTED_FEATURES scope with
  | Some l => class_in c l
  | None => false
  end.

(** A statement is scoped for [scope] when every feature in it is
    listed for the scope it is evaluated in, a function subscope occurs
    only under file scope and a basic block subscope only under function
    scope. *)
Fixpoint scoped (scope : string) (st : Statement) : bool :=
  match st with
  | And cs | Or cs | Some_ _ cs => forallb (scoped scope) cs
  | Not c => scoped scope c
  | Range f _ _ | Leaf f => supported scope (cls f)
  | Regex _ => true
  | Subscope sc c =>
      (String.eqb scope FILE_SCOPE && String.eqb sc FUNCTION_SCOPE
       || String.eqb scope FUNCTION_SCOPE && String.eqb sc BASIC_BLOCK_SCOPE)
      && scoped sc c
  end.

(** The comprehension [[build(dd) for dd in l]] with the first error
    ending it. *)
Definition build_each (build : Value -> result Statement)
  : list Value -> result (list Statement) :=
  fix each (l : list Value) : result (list Statement) :=
    match l with
    | [] => Ok []
    | dd :: l' =>
        s <- build dd ;;
        ss <- each l' ;;
        Ok (s :: ss)
    end.

(** Whether a match reference to the rule named [n] occurs in a
    statement. *)
Fixpoint refers (n : string) (st : Statement) : bool :=
  match st with
  | Leaf f | Range f _ _ => bool_decide (rule_name f = Some n)
  | And cs | Or cs | Some_ _ cs => existsb (refers n) cs
  | Not c | Subscope _ c => refers n c
  | Regex _ => false
  end.

(** What the first loop of the extraction makes of a child [c]: a
    match reference to one of the rules [new], made of the scope and
    the child of [c], when [c] is a subscope, and [c] itself when not. *)
Definition replaced_child (uuid4_hex : nat -> string) (self_name : string)
    (new : list Rule) (c c1 : Statement) : Prop :=
  match c with
  | Subscope sc x =>
      exists j,
        c1 = Leaf (MatchedRule_ (subscope_rule_name uuid4_hex self_name j))
        /\ subscope_rule uuid4_hex self_name j sc x ∈ new
  | _ => c1 = c
  end.

(** What both loops make of a child [c]: as before for a subscope, and
    the statement that the recursive call [f] returns for any other
    child, the rules of that call being among [new]. *)
Definition child_result (uuid4_hex : nat -> string) (self_name : string)
    (f : Statement -> nat -> Statement * list Rule * nat) (new : list Rule)
    (c c' : Statement) : Prop :=
  match c with
  | Subscope sc x =>
      exists j,
        c' = Leaf (MatchedRule_ (subscope_rule_name uuid4_hex self_name j))
        /\ subscope_rule uuid4_hex self_name j sc x ∈ new
  | _ => exists k, c' = (f c k).1.1 /\ forall r, r ∈ (f c k).1.2 -> r ∈ new
  end.

(** Where a rule [r] yielded for the children [cs] of a node comes
    from: it is made of a subscope among [cs] and a match reference to
    it is among the new children [cs'], or a recursive call on one of
    [cs] yielded it and the statement of that call is among [cs']. *)
Definition yielded_from (uuid4_hex : nat -> string) (self_name : string)
    (f : Statement -> nat -> Statement * list Rule * nat)
    (cs cs' : list Statement) (r : Rule) : Prop :=
  (exists j sc x,
      Subscope sc x ∈ cs /\ r = subscope_rule uuid4_hex self_name j sc x
      /\ Leaf (MatchedRule_ (name r)) ∈ cs')
  \/ (exists c k,
         c ∈ cs /\ is_Subscope c = false /\ r ∈ (f c k).1.2
         /\ (f c k).1.1 ∈ cs').

(** The rules of a result carry the names generated from the [k]-th
    on, one after the other, and the counter has advanced by their
    number. *)
Definition numbered {X} (uuid4_hex : nat -> string) (self_name : string)
    (k : nat) (res : X * list Rule * nat) : Prop :=
  res.2 = (k + List.length res.1.2)%nat
  /\ forall i r, res.1.2 !! i = Some r ->
       exists sc x, r = subscope_rule uuid4_hex self_name (k + i) sc x.

(** What an extraction does to the rule names a statement refers to:
    every rule yielded is referred to afterwards, what the statement
    referred to is still referred to by it or by a rule yielded, and
    nothing but the names of the rules yielded has been added. *)
Definition refers_kept (st : Statement)
    (res : Statement * list Rule * nat) : Prop :=
  (forall r, r ∈ res.1.2 -> refers (name r) res.1.1 = true)
  /\ (forall n, refers n st = true ->
        refers n res.1.1 = true
        \/ exists r, r ∈ res.1.2 /\ refers n (statement r) = true)
  /\ (forall n, refers n res.1.1 = true ->
        refers n st = true \/ exists r, r ∈ res.1.2 /\ n = name r).

(** Whether a subscope node occurs directly inside a subscope node. *)
Fixpoint stacked (st : Statement) : bool :=
  match st with
  | And cs | Or cs | Some_ _ cs => existsb stacked cs
  | Not c => stacked c
  | Subscope _ c => is_Subscope c || stacked c
  | Range _ _ _ | Regex _ | Leaf _ => false
  end.

(** The depth of the dependencies below a name, through a name-keyed
    mapping: [height_le d n k] when [n] is a key and following
    dependencies from it ends, over keys only, within [k] steps. *)
Inductive height_le (d : list (string * Rule)) : string -> nat -> Prop :=
| height_le_intro (n : string) (rule : Rule) (k : nat) :
    dict_get d n = Some rule ->
    (forall dep, dep ∈ get_dependencies rule -> height_le d dep k) ->
    height_le d n (S k).

(** Every dependency of every rule of a mapping is a key of it. *)
Definition dependencies_met (d : list (string * Rule)) : Prop :=
  forall rule dep,
    rule ∈ dict_values d -> dep ∈ get_dependencies rule ->
    is_Some (dict_get d dep).

(** A rule that matches on itself. *)
Definition cyclic_rule : Rule :=
  mkRule "loop" "function" (And [Leaf (MatchedRule_ "loop")])
    [("name", VStr "loop")] "".

(** The rule set that the constructor builds from [lib_rule] and
    [file_rule] when the ordering function returns its argument. *)
Definition example_rule_set : RuleSet :=
  mkRuleSet [file_rule] [lib_rule] []
    [("helper", lib_rule); ("reported", file_rule)].

(** ** The common style of a rule document *)

(** [del d[key]] on a mapping that holds the key. *)
Definition dict_del {A} (d : list (string * A)) (key : string)
  : list (string * A) :=
  filter (fun kv => kv.1 <> key) d.

(** The local [move_to_end] of [Rule.to_yaml]: the entry of [k] is
    taken out and put back, which makes it the last one. *)
Definition move_to_end {A} (m : list (string * A)) (k : string)
  : result (list (string * A)) :=
  match dict_get m k with
  | None => Raise KeyError
  | Some v => Ok (dict_set (dict_del m k) k v)
  end.

Definition COMMON_KEYS : list string :=
  [ "name"; "namespace"; "rule-category"; "author"; "att&ck"; "mbc";
    "examples"; "scope" ].

(** [sorted(keys)] on strings. *)
Definition sorted (keys : list string) : list string :=
  merge_sort String.le keys.

(** A loop [for key in keys] that moves the entry of every key to the
    end, except where [skip] tells to go on with the next key. *)
Fixpoint move_each {A} (skip : string -> list (string * A) -> bool)
    (keys : list string) (meta : list (string * A))
  : result (list (string * A)) :=
  match keys with
  | [] => Ok meta
  | key :: keys' =>
      if skip key meta then move_each skip keys' meta
      else
        meta <- move_to_end meta key ;;
        move_each skip keys' meta
  end.

(** The two loops of [Rule.to_yaml] over the [meta] mapping: the common
    keys that the mapping holds, in the preferred order, then every
    other key in sorted order. *)
Definition order_meta {A} (meta : list (string * A))
  : result (list (string * A)) :=
  meta <-
    move_each (fun key meta => negb (bool_decide (key ∈ map fst meta)))
      COMMON_KEYS meta ;;
  move_each (fun key _ => bool_decide (key ∈ COMMON_KEYS))
    (sorted (map fst meta)) meta.

(** What [Rule.to_yaml] does to the loaded document before it is
    written out: in the [rule] mapping the entries [meta] and
    [features] are moved to the end, and the [meta] mapping, which the
    document refers to, is put in order in place. A [meta] entry that
    is no mapping is outside the model. *)
Definition restyle (definition : Value) : result Value :=
  rule <- getitem definition "rule" ;;
  meta <- getitem rule "meta" ;;
  match definition, rule, meta with
  | VDict top, VDict r, VDict m =>
      r <- move_to_end r "meta" ;;
      r <- move_to_end r "features" ;;
      m <- order_meta m ;;
      Ok (VDict (dict_set top "rule" (VDict (dict_set r "meta" (VDict m)))))
  | _, _, _ => Raise OutOfModel
  end.

(** [s.rstrip(c)] for a one-character [c]. *)
Fixpoint rstrip_char (c : ascii) (s : string) : string :=
  match s with
  | String a s' =>
      match rstrip_char c s' with
      | EmptyString => if Ascii.eqb a c then EmptyString
                       else String a EmptyString
      | t => String a t
      end
  | EmptyString => EmptyString
  end.

Section Yaml.

(** The round-trip loader and dumper of [ruamel.yaml], with the style
    settings that [Rule.to_yaml] gives them: the loader fails on text
    that is no document. *)
Variable yaml_load : string -> result Value.
Variable yaml_dump : Value -> string.

Definition to_yaml (self : Rule) : result string :=
  d <- yaml_load (definition self) ;;
  d <- restyle d ;;
  Ok (rstrip_char "010" (yaml_dump d)).

End Yaml.

(** Texts on which the digit parser fails whatever precedes: the empty
    text and the texts that end in the character [c]. *)
Definition ends_in (c : ascii) (t : string) : Prop :=
  t = "" \/ exists w, t = w ++ String c "".

(** * Properties *)

#[local] Arguments String.append !s1 s2 / : simpl nomatch.

(** ** Python strings *)

Lemma str_length_app (a b : string) :
  String.length (a ++ b) = (String.length a + String.length b)%nat.
Proof. induction a as [|c a IH]; simpl; [reflexivity | now rewrite IH]. Qed.

Lemma str_app_assoc (a b c : string) : (a ++ b) ++ c = a ++ (b ++ c).
Proof. induction a as [|x a IH]; simpl; [reflexivity | now rewrite IH]. Qed.

Lemma str_app_nil_r (a : string) : a ++ "" = a.
Proof. induction a as [|x a IH]; simpl; [reflexivity | now rewrite IH]. Qed.

Lemma startswith_app (p t : string) : Py.startswith p (p ++ t) = true.
Proof.
  induction p as [|c p IH]; simpl; [reflexivity |].
  now rewrite Ascii.eqb_refl, IH.
Qed.

Lemma startswith_spec (p s : string) :
  Py.startswith p s = true <-> exists t, s = p ++ t.
Proof.
  split.
  - revert s. induction p as [|c p IH]; intros s H.
    + now exists s.
    + destruct s as [|d s]; simpl in H; [discriminate |].
      apply andb_prop in H as [Hc Hp].
      apply Ascii.eqb_eq in Hc. subst d.
      destruct (IH _ Hp) as [t ->]. now exists t.
  - intros [t ->]. apply startswith_app.
Qed.

Lemma str_drop_app (a b : string) : Py.drop (String.length a) (a ++ b) = b.
Proof. induction a as [|c a IH]; simpl; [now destruct b | exact IH]. Qed.

Lemma str_take_drop (n : nat) (s : string) : substring 0 n s ++ Py.drop n s = s.
Proof.
  revert s. induction n as [|n IH]; intros s.
  - destruct s; reflexivity.
  - destruct s as [|c s]; simpl; [reflexivity | now rewrite IH].
Qed.

Lemma str_take_app (a b : string) : substring 0 (String.length a) (a ++ b) = a.
Proof.
  induction a as [|c a IH]; simpl; [now destruct b | now rewrite IH].
Qed.

Lemma endswith_app (t p : string) : Py.endswith p (t ++ p) = true.
Proof.
  unfold Py.endswith. rewrite str_length_app.
  apply andb_true_intro. split.
  - apply Nat.leb_le. lia.
  - replace (String.length t + String.length p - String.length p)%nat
      with (String.length t) by lia.
    rewrite str_drop_app. apply String.eqb_refl.
Qed.

Lemma endswith_spec (p s : string) :
  Py.endswith p s = true <-> exists t, s = t ++ p.
Proof.
  split.
  - unfold Py.endswith. intros H. apply andb_prop in H as [_ H].
    apply String.eqb_eq in H.
    exists (substring 0 (String.length s - String.length p) s).
    pose proof (str_take_drop (String.length s - String.length p) s) as T.
    rewrite H in T. now symmetry.
  - intros [t ->]. apply endswith_app.
Qed.




Lemma rstrip_idem (s : string) : Py.rstrip (Py.rstrip s) = Py.rstrip s.
Proof.
  induction s as [|c s IH]; simpl; [reflexivity |].
  destruct (Py.rstrip s) as [|d u] eqn:E.
  - destruct (Py.isspace c) eqn:Hc; simpl; [reflexivity | now rewrite Hc].
  - simpl. simpl in IH. now rewrite IH.
Qed.

Lemma lstrip_head (s : string) :
  Py.lstrip s = "" \/ exists c r, Py.lstrip s = String c r /\ Py.isspace c = false.
Proof.
  induction s as [|c s IH]; simpl; [now left |].
  destruct (Py.isspace c) eqn:Hc; [exact IH | right; now exists c, s].
Qed.

Lemma rstrip_head (c : ascii) (r : string) :
  Py.isspace c = false -> exists r', Py.rstrip (String c r) = String c r'.
Proof.
  intros Hc. simpl. destruct (Py.rstrip r); [rewrite Hc |]; eauto.
Qed.

Lemma strip_idem (s : string) : Py.strip (Py.strip s) = Py.strip s.
Proof.
  unfold Py.strip. destruct (lstrip_head s) as [E | (c & r & E & Hc)].
  - rewrite E. reflexivity.
  - rewrite E. destruct (rstrip_head c r Hc) as [r' E'].
    rewrite E'. simpl Py.lstrip. rewrite Hc, <- E'. apply rstrip_idem.
Qed.

Lemma wrapped_tests (inner : string) :
  Py.startswith "(" ("(" ++ inner ++ ")") = true
  /\ Py.endswith ")" ("(" ++ inner ++ ")") = true
  /\ Py.slice 1 1 ("(" ++ inner ++ ")") = inner.
Proof.
  split; [reflexivity |]. split.
  - rewrite <- (str_app_assoc "(" inner ")"). apply endswith_app.
  - unfold Py.slice. simpl. rewrite str_length_app. simpl.
    replace (String.length inner + 1 - 0 - 1)%nat with (String.length inner) by lia.
    apply str_take_app.
Qed.

Lemma wrapped_inv (s : string) :
  Py.startswith "(" s = true -> Py.endswith ")" s = true ->
  exists inner, s = "(" ++ inner ++ ")".
Proof.
  intros Hs He. apply startswith_spec in Hs as [t ->].
  apply endswith_spec in He as [u Hu].
  destruct u as [|c u]; simpl in Hu; [discriminate |].
  injection Hu as <- ->. now exists u.
Qed.

(** ** The range grammar *)

Lemma parse_range_wrapped (inner : string) :
  parse_range ("(" ++ inner ++ ")") =
    let '(a, _, b) := Py.partition "," inner in
    bind (parse_bound "range min less than zero" a) (fun lo =>
    bind (parse_bound "range max less than zero" b) (fun hi =>
      match lo, hi with
      | Some m, Some n =>
          if n <? m then Raise (InvalidRule "range max less than min")
          else Ok (lo, hi)
      | _, _ => Ok (lo, hi)
      end)).
Proof.
  unfold parse_range, parse_bound.
  destruct (wrapped_tests inner) as (Hs & He & Hi).
  rewrite Hs, He, Hi. simpl negb. cbv iota.
  destruct (Py.partition "," inner) as [[a f] b].
  now rewrite !strip_idem.
Qed.

Lemma parse_bound_ok (msg text : string) (b : option Z) :
  parse_bound msg text = Ok b <-> range_bound text b.
Proof.
  unfold range_bound, parse_bound. destruct (String.eqb (Py.strip text) "").
  - split; [now intros [= <-] | now intros ->].
  - split.
    + destruct (parse_int (Py.strip text)) as [v|e]; simpl; [| discriminate].
      destruct (Z.ltb_spec v 0); [discriminate |].
      intros [= <-]. now exists v.
    + intros (v & -> & Hv & ->). simpl.
      destruct (Z.ltb_spec v 0); [lia | reflexivity].
Qed.

Lemma parse_bound_negative (msg text : string) (v : Z) :
  Py.strip text <> "" -> parse_int (Py.strip text) = Ok v -> v < 0 ->
  parse_bound msg text = Raise (InvalidRule msg).
Proof.
  intros Hne Hp Hv. unfold parse_bound.
  destruct (String.eqb_spec (Py.strip text) ""); [contradiction |].
  rewrite Hp. simpl. destruct (Z.ltb_spec v 0); [reflexivity | lia].
Qed.

(** C6: [parse_range] accepts exactly the texts wrapped in parentheses;
    it splits the inside at the first comma into an optional minimum and
    an optional maximum ("(1,5)" gives (1,5), "(,5)" gives (None,5),
    "(1,)" gives (1,None)); it fails when the parentheses are missing,
    when a bound that is present is negative, and when both bounds are
    present and the maximum is below the minimum. *)
Theorem C6_parse_range :
  parse_range "(1,5)" = Ok (Some 1, Some 5)
  /\ parse_range "(,5)" = Ok (None, Some 5)
  /\ parse_range "(1,)" = Ok (Some 1, None)
  /\ parse_range "(5,1)" = Raise (InvalidRule "range max less than min")
  /\ parse_range "1,5" = Raise (InvalidRule "invalid range: 1,5")
  /\ (forall s, (forall inner, s <> "(" ++ inner ++ ")") ->
        parse_range s = Raise (InvalidRule ("invalid range: " ++ s)))
  /\ (forall inner a found b lo hi,
        Py.partition "," inner = (a, found, b) ->
        (parse_range ("(" ++ inner ++ ")") = Ok (lo, hi) <->
         range_bound a lo /\ range_bound b hi
         /\ (forall m n, lo = Some m -> hi = Some n -> m <= n)))
  /\ (forall inner a found b v,
        Py.partition "," inner = (a, found, b) ->
        Py.strip a <> "" -> parse_int (Py.strip a) = Ok v -> v < 0 ->
        parse_range ("(" ++ inner ++ ")")
        = Raise (InvalidRule "range min less than zero"))
  /\ (forall inner a found b v,
        Py.partition "," inner = (a, found, b) ->
        Py.strip b <> "" -> parse_int (Py.strip b) = Ok v -> v < 0 ->
        raises (parse_range ("(" ++ inner ++ ")")) = true
        /\ (forall lo, range_bound a lo ->
              parse_range ("(" ++ inner ++ ")")
              = Raise (InvalidRule "range max less than zero")))
  /\ (forall inner a found b m n,
        Py.partition "," inner = (a, found, b) ->
        range_bound a (Some m) -> range_bound b (Some n) -> n < m ->
        parse_range ("(" ++ inner ++ ")")
        = Raise (InvalidRule "range max less than min")).
Proof.
  do 5 (split; [vm_compute; reflexivity |]).
  repeat match goal with |- _ /\ _ => split end.
  - intros s Hs. unfold parse_range.
    destruct (Py.startswith "(" s) eqn:E1; [| reflexivity].
    destruct (Py.endswith ")" s) eqn:E2; [| reflexivity].
    destruct (wrapped_inv s E1 E2) as [inner ->]. now destruct (Hs inner).
  - intros inner a found b lo hi P. rewrite parse_range_wrapped, P.
    rewrite <- (parse_bound_ok "range min less than zero" a lo).
    rewrite <- (parse_bound_ok "range max less than zero" b hi).
    destruct (parse_bound _ a) as [lo'|e]; simpl.
    2:{ split; [discriminate | intros ([=] & _)]. }
    destruct (parse_bound _ b) as [hi'|e]; simpl.
    2:{ split; [discriminate | intros (_ & [=] & _)]. }
    destruct lo' as [m|], hi' as [n|];
      try (split; [intros [= <- <-]; repeat split; congruence
                  | intros ([= <-] & [= <-] & _); reflexivity]).
    destruct (Z.ltb_spec n m).
    + split; [discriminate |].
      intros ([= <-] & [= <-] & Hle). specialize (Hle m n eq_refl eq_refl). lia.
    + split.
      * intros [= <- <-]. repeat split. intros ? ? [= <-] [= <-]. lia.
      * now intros ([= <-] & [= <-] & _).
  - intros inner a found b v P Hne Hp Hv. rewrite parse_range_wrapped, P.
    now rewrite (parse_bound_negative _ a v).
  - intros inner a found b v P Hne Hp Hv. rewrite parse_range_wrapped, P.
    rewrite (parse_bound_negative "range max less than zero" b v) by assumption.
    split.
    + now destruct (parse_bound _ a).
    + intros lo Hlo.
      apply (parse_bound_ok "range min less than zero") in Hlo. now rewrite Hlo.
  - intros inner a found b m n P Ha Hb Hlt. rewrite parse_range_wrapped, P.
    apply (parse_bound_ok "range min less than zero") in Ha.
    apply (parse_bound_ok "range max less than zero") in Hb.
    rewrite Ha, Hb. simpl. destruct (Z.ltb_spec n m); [reflexivity | lia].
Qed.

Lemma C6_parse_range_witness :
  parse_range "(2,1)" = Raise (InvalidRule "range max less than min").
Proof.
  destruct C6_parse_range as (_ & _ & _ & _ & _ & _ & _ & _ & _ & H).
  apply (H "2,1" "2" true "1" 2 1).
  - reflexivity.
  - exists 2. repeat split. lia.
  - exists 1. repeat split. lia.
  - lia.
Defined.

(** ** The symbol grammar *)





(** ** The count branch of the statement builder *)

Lemma last_char_inj (t u : string) (c d : ascii) :
  t ++ String c "" = u ++ String d "" -> c = d.
Proof.
  revert u. induction t as [|x t IH]; intros [|y u]; simpl; intros H.
  - now injection H.
  - injection H as _ H. now destruct u.
  - injection H as _ H. now destruct t.
  - injection H as _ H. now apply (IH u).
Qed.


Lemma slice_suffix (t p : string) :
  Py.slice 0 (String.length p) (t ++ p) = t.
Proof.
  unfold Py.slice. rewrite str_length_app.
  replace (String.length t + String.length p - String.length p - 0)%nat
    with (String.length t) by lia.
  apply str_take_app.
Qed.







(** ** Top-level statements and subscope extraction *)

(** C1: a document whose single top-level statement is a bare subscope
    is not rejected: [from_dict] returns a rule whose statement is the
    subscope node (the test for it inspects the loaded value, which is
    never a subscope node). *)
Theorem C1_top_level_subscope_accepted (MAX_BYTES_FEATURE_SIZE : Z)
    (feature_str : Feature -> string) (regex_compiles : string -> bool)
    (s : string) :
  from_dict MAX_BYTES_FEATURE_SIZE feature_str regex_compiles
    top_level_subscope_doc s
  = Ok (mkRule "r" "file" (Subscope "function" mov)
          [("name", VStr "r"); ("scope", VStr "file")] s).
Proof. reflexivity. Qed.

(** A document whose [features] do not hold exactly one entry is
    rejected. *)
Lemma from_dict_single_statement (MAX : Z) (fs : Feature -> string)
    (rc : string -> bool) (d rule meta nm statements : Value) (s : string)
    (n : nat) :
  getitem d "rule" = Ok rule -> getitem rule "meta" = Ok meta ->
  getitem meta "name" = Ok nm -> getitem rule "features" = Ok statements ->
  py_len statements = Ok n -> n <> 1%nat ->
  from_dict MAX fs rc d s
  = Raise (InvalidRule "rule must begin with a single top level statement").
Proof.
  intros H1 H2 H3 H4 H5 Hn. unfold from_dict.
  rewrite H1. cbn [bind]. rewrite H2. cbn [bind]. rewrite H3. cbn [bind].
  destruct meta; try discriminate.
  destruct (dict_get d0 "scope"); cbn [bind]; rewrite H4; cbn [bind];
    rewrite H5; cbn [bind];
    destruct (Nat.eqb_spec n 1); (contradiction || reflexivity).
Qed.

(** C3: on the rule with [{function: [{basic block: [...]}]}] under
    [and], the worklist extraction creates one synthetic rule, not two:
    the function-scope rule, whose statement is the basic-block subscope
    node itself; as the root of that rule it is never extracted. *)
Theorem C3_nested_subscope_one_rule (MAX_BYTES_FEATURE_SIZE : Z)
    (feature_str : Feature -> string) (regex_compiles : string -> bool)
    (uuid4_hex : nat -> string) :
  from_dict MAX_BYTES_FEATURE_SIZE feature_str regex_compiles
    nested_subscope_doc ""
  = Ok nested_subscope_rule
  /\ _extract_subscope_rules uuid4_hex [nested_subscope_rule]
     = Some ([ set_statement nested_subscope_rule
                 (And [Leaf (MatchedRule_ ("r/" ++ uuid4_hex 0%nat))]);
               subscope_rule uuid4_hex "r" 0 "function"
                 (Subscope "basic block" mov) ],
             [], [0%nat; 1%nat]).
Proof. split; reflexivity. Qed.

(** C2: the rule set built from the rule of C3 is accepted, and one of
    its rules (the synthetic function-scope rule) still has a subscope
    node as its statement. *)
Theorem C2_subscope_survives (uuid4_hex : nat -> string)
    (topologically_order_rules : list Rule -> list Rule) (depth : nat) :
  exists rs rule,
    returned (RuleSet_init uuid4_hex topologically_order_rules
                (S (S depth)) [nested_subscope_rule]) = Ok rs
    /\ dict_get (rules rs) ("r/" ++ uuid4_hex 0%nat) = Some rule
    /\ has_subscope (statement rule) = true.
Proof.
  eexists. exists (subscope_rule uuid4_hex "r" 0 "function"
                     (Subscope "basic block" mov)).
  split; [| split].
  - unfold RuleSet_init. cbn.
    unfold assemble, ensure_rule_dependencies_are_met, _get_rules_for_scope,
      get_rules_and_dependencies, rules_by_name, get_dependencies.
    cbn. rewrite !String.eqb_refl. cbn.
    unfold get_rules_and_dependencies, rules_by_name, get_dependencies.
    cbn. rewrite !String.eqb_refl. cbn. reflexivity.
  - cbn. rewrite !String.eqb_refl. reflexivity.
  - reflexivity.
Qed.

(** ** Sets of names and name-keyed mappings *)

Lemma set_mem_spec (x : string) (s : list string) :
  set_mem x s = true <-> x ∈ s.
Proof.
  unfold set_mem. rewrite existsb_exists. split.
  - intros (y & Hy & E). apply String.eqb_eq in E. subst y.
    now apply list_elem_of_In.
  - intros H. exists x. split; [now apply list_elem_of_In |].
    apply String.eqb_refl.
Qed.

Lemma set_mem_false (x : string) (s : list string) :
  set_mem x s = false <-> x ∉ s.
Proof.
  rewrite <- set_mem_spec. destruct (set_mem x s); split; congruence.
Qed.

Lemma set_add_spec (x y : string) (s : list string) :
  y ∈ set_add x s <-> y = x \/ y ∈ s.
Proof.
  unfold set_add. fold (set_mem x s). destruct (set_mem x s) eqn:E.
  - apply set_mem_spec in E. split; [now right | intros [-> | H]; assumption].
  - rewrite elem_of_app, list_elem_of_singleton. tauto.
Qed.

Lemma dict_get_set {A} (d : list (string * A)) (k k' : string) (v : A) :
  dict_get (dict_set d k v) k' = if String.eqb k k' then Some v else dict_get d k'.
Proof.
  induction d as [|[k0 x] d IH]; simpl.
  - reflexivity.
  - destruct (String.eqb_spec k0 k) as [-> | Hne]; simpl.
    + destruct (String.eqb k k'); reflexivity.
    + rewrite IH. destruct (String.eqb_spec k0 k') as [-> | Hne'].
      * destruct (String.eqb_spec k k'); [congruence | reflexivity].
      * reflexivity.
Qed.

Lemma dict_get_elem {A} (d : list (string * A)) (k : string) (v : A) :
  dict_get d k = Some v -> (k, v) ∈ d.
Proof.
  induction d as [|[k0 x] d IH]; simpl; [discriminate |].
  destruct (String.eqb_spec k0 k) as [-> | Hne].
  - intros [= ->]. apply elem_of_cons. now left.
  - intros H. apply elem_of_cons. right. now apply IH.
Qed.

Lemma dict_get_unique {A} (d : list (string * A)) (k : string) (v : A) :
  NoDup (map fst d) -> (k, v) ∈ d -> dict_get d k = Some v.
Proof.
  induction d as [|[k0 x] d IH]; simpl; intros Hnd Hin.
  - now apply elem_of_nil in Hin.
  - apply NoDup_cons in Hnd as [Hk0 Hnd].
    apply elem_of_cons in Hin as [[= -> ->] | Hin].
    + now rewrite String.eqb_refl.
    + destruct (String.eqb_spec k0 k) as [-> | Hne]; [| now apply IH].
      destruct Hk0. apply list_elem_of_fmap. now exists (k, v).
Qed.

Lemma dict_set_keys {A} (d : list (string * A)) (k : string) (v : A) :
  map fst (dict_set d k v)
  = if set_mem k (map fst d) then map fst d else (map fst d ++ [k])%list.
Proof.
  induction d as [|[k0 x] d IH]; simpl; [reflexivity |].
  unfold set_mem in *. simpl.
  rewrite (String.eqb_sym k k0).
  destruct (String.eqb_spec k0 k) as [-> | Hne]; simpl; [reflexivity |].
  rewrite IH. now destruct (existsb (String.eqb k) (map fst d)).
Qed.

Lemma dict_set_NoDup {A} (d : list (string * A)) (k : string) (v : A) :
  NoDup (map fst d) -> NoDup (map fst (dict_set d k v)).
Proof.
  intros H. rewrite dict_set_keys. destruct (set_mem k _) eqn:E; [exact H |].
  apply set_mem_false in E. apply NoDup_app. repeat split.
  - exact H.
  - intros x Hx Hk. apply list_elem_of_singleton in Hk. now subst.
  - apply NoDup_singleton.
Qed.

Lemma dict_set_elem {A} (d : list (string * A)) (k k' : string) (v v' : A) :
  (k', v') ∈ dict_set d k v -> (k', v') = (k, v) \/ (k', v') ∈ d.
Proof.
  induction d as [|[k0 x] d IH]; simpl.
  - intros H. apply list_elem_of_singleton in H. now left.
  - destruct (String.eqb_spec k0 k) as [-> | Hne]; intros H;
      apply elem_of_cons in H as [H | H].
    + now left.
    + right. apply elem_of_cons. now right.
    + right. apply elem_of_cons. now left.
    + destruct (IH H) as [E | E]; [now left |].
      right. apply elem_of_cons. now right.
Qed.

Lemma dict_set_keyed (d : list (string * Rule)) (r : Rule) :
  keyed_by_name d -> keyed_by_name (dict_set d (name r) r).
Proof.
  intros [Hnd Hk]. split; [now apply dict_set_NoDup |].
  intros k r' H. apply dict_set_elem in H as [[= -> ->] | H]; auto.
Qed.

Lemma fold_dict_set_keyed (l : list Rule) (d : list (string * Rule)) :
  keyed_by_name d ->
  keyed_by_name (fold_left (fun d rule => dict_set d (name rule) rule) l d).
Proof.
  revert d. induction l as [|r l IH]; intros d H; simpl; [exact H |].
  apply IH. now apply dict_set_keyed.
Qed.

Lemma rules_by_name_keyed (l : list Rule) : keyed_by_name (rules_by_name l).
Proof.
  apply fold_dict_set_keyed. split; [constructor |].
  intros k r H. now apply elem_of_nil in H.
Qed.

Lemma fold_dict_set_elem (l : list Rule) (d : list (string * Rule))
    (k : string) (r : Rule) :
  (k, r) ∈ fold_left (fun d rule => dict_set d (name rule) rule) l d ->
  r ∈ l \/ (k, r) ∈ d.
Proof.
  revert d. induction l as [|x l IH]; intros d H; simpl in H; [now right |].
  destruct (IH _ H) as [Hl | Hd].
  - left. apply elem_of_cons. now right.
  - apply dict_set_elem in Hd as [[= -> ->] | Hd]; [| now right].
    left. apply elem_of_cons. now left.
Qed.

Lemma rules_by_name_elem (l : list Rule) (k : string) (r : Rule) :
  (k, r) ∈ rules_by_name l -> r ∈ l.
Proof.
  intros H. apply fold_dict_set_elem in H as [H | H]; [exact H |].
  now apply elem_of_nil in H.
Qed.

Lemma fold_dict_set_defined (l : list Rule) (d : list (string * Rule))
    (n : string) :
  (n ∈ map name l \/ is_Some (dict_get d n)) ->
  is_Some (dict_get (fold_left (fun d rule => dict_set d (name rule) rule) l d) n).
Proof.
  revert d. induction l as [|x l IH]; intros d H; simpl.
  - destruct H as [H | H]; [now apply elem_of_nil in H | exact H].
  - apply IH. destruct H as [H | H].
    + apply elem_of_cons in H as [-> | H]; [| now left].
      right. rewrite dict_get_set, String.eqb_refl. eauto.
    + right. rewrite dict_get_set.
      destruct (String.eqb (name x) n); [eauto | exact H].
Qed.

Lemma rules_by_name_defined (l : list Rule) (r : Rule) :
  r ∈ l -> is_Some (dict_get (rules_by_name l) (name r)).
Proof.
  intros H. apply fold_dict_set_defined. left.
  apply list_elem_of_fmap. now exists r.
Qed.

Lemma dict_values_spec (d : list (string * Rule)) (r : Rule) :
  keyed_by_name d ->
  (r ∈ dict_values d <-> dict_get d (name r) = Some r).
Proof.
  intros [Hnd Hk]. unfold dict_values. split.
  - intros H. apply list_elem_of_fmap in H as ([k r'] & -> & H).
    simpl. rewrite (Hk _ _ H). now apply dict_get_unique.
  - intros H. apply dict_get_elem in H.
    apply list_elem_of_fmap. now exists (name r, r).
Qed.

Lemma fold_dict_set_fresh (l : list Rule) (d : list (string * Rule)) :
  NoDup (map fst d ++ map name l) ->
  fold_left (fun d rule => dict_set d (name rule) rule) l d
  = (d ++ map (fun r => (name r, r)) l)%list.
Proof.
  revert d. induction l as [|x l IH]; intros d H; simpl.
  - now rewrite app_nil_r.
  - assert (E : dict_set d (name x) x = (d ++ [(name x, x)])%list).
    { clear IH. apply NoDup_app in H as (_ & H & _).
      assert (Hx : name x ∉ map fst d).
      { intros Hin. apply (H _ Hin). simpl. apply elem_of_cons. now left. }
      clear H. induction d as [|[k0 y] d IHd]; simpl; [reflexivity |].
      destruct (String.eqb_spec k0 (name x)) as [-> | Hne].
      - destruct Hx. simpl. apply elem_of_cons. now left.
      - rewrite IHd; [reflexivity |]. intros Hin. apply Hx. simpl.
        apply elem_of_cons. now right. }
    rewrite E, IH.
    + now rewrite <- app_assoc.
    + rewrite map_app. simpl. rewrite <- app_assoc. exact H.
Qed.

Lemma rules_by_name_unique (l : list Rule) :
  NoDup (map name l) -> dict_values (rules_by_name l) = l.
Proof.
  intros H. unfold rules_by_name. rewrite fold_dict_set_fresh by exact H.
  unfold dict_values. simpl. rewrite map_map. simpl. apply map_id.
Qed.

(** ** Subscope extraction on one rule *)

Lemma Statement_ind_nested (P : Statement -> Prop) :
  (forall cs, Forall P cs -> P (And cs)) ->
  (forall cs, Forall P cs -> P (Or cs)) ->
  (forall c, P c -> P (Not c)) ->
  (forall n cs, Forall P cs -> P (Some_ n cs)) ->
  (forall f lo hi, P (Range f lo hi)) ->
  (forall p, P (Regex p)) ->
  (forall sc c, P c -> P (Subscope sc c)) ->
  (forall f, P (Leaf f)) ->
  forall s, P s.
Proof.
  intros HAnd HOr HNot HSome HRange HRegex HSub HLeaf.
  fix IH 1. intros [cs|cs|c|n cs|f lo hi|p|sc c|f].
  - apply HAnd. revert cs. fix IHcs 1. intros [|c cs]; constructor;
      [apply IH | apply IHcs].
  - apply HOr. revert cs. fix IHcs 1. intros [|c cs]; constructor;
      [apply IH | apply IHcs].
  - apply HNot, IH.
  - apply HSome. revert cs. fix IHcs 1. intros [|c cs]; constructor;
      [apply IH | apply IHcs].
  - apply HRange.
  - apply HRegex.
  - apply HSub, IH.
  - apply HLeaf.
Qed.

Section ExtractionFacts.

Variable uuid4_hex : nat -> string.
Variable self_name : string.

Abbreviation rec := (_extract_subscope_rules_rec uuid4_hex self_name).

Lemma total_weight_app (a b : list Rule) :
  total_weight (a ++ b) = (total_weight a + total_weight b)%nat.
Proof.
  apply sum_list_with_app.
Qed.

Lemma replace_subscopes_weight (cs : list Statement) (k : nat) :
  total_weight (replace_subscopes uuid4_hex self_name cs k).1.2
  = sum_list_with (fun c => if is_Subscope c then count_subscopes c else O) cs.
Proof.
  revert k. induction cs as [|c cs IH]; intros k; [reflexivity |].
  destruct c;
    try (cbn [replace_subscopes sum_list_with is_Subscope];
         specialize (IH k);
         destruct (replace_subscopes uuid4_hex self_name cs k) as [[? ?] ?];
         exact IH).
  cbn [replace_subscopes sum_list_with is_Subscope].
  specialize (IH (S k)).
  destruct (replace_subscopes uuid4_hex self_name cs (S k)) as [[? ?] ?].
  cbn [fst snd] in *. unfold total_weight in *.
  cbn [sum_list_with]. rewrite IH. reflexivity.
Qed.

Lemma recurse_children_weight
    (f : Statement -> nat -> Statement * list Rule * nat)
    (cs repl : list Statement) (k : nat) :
  Forall (fun c => forall k, (total_weight (f c k).1.2 <= count_subscopes c)%nat) cs ->
  (total_weight (recurse_children f cs repl k).1.2
   <= sum_list_with (fun c => if is_Subscope c then O else count_subscopes c) cs)%nat.
Proof.
  intros H. revert repl k. induction H as [|c cs Hc _ IH]; intros repl k.
  - simpl. lia.
  - destruct repl as [|c1 repl]; [simpl; lia |].
    cbn [recurse_children sum_list_with].
    destruct (is_Subscope c) eqn:E.
    + specialize (IH repl k).
      destruct (recurse_children f cs repl k) as [[? ?] ?]. simpl in *. lia.
    + specialize (Hc k). destruct (f c k) as [[c2 new1] k1].
      specialize (IH repl k1).
      destruct (recurse_children f cs repl k1) as [[? ?] ?]. simpl in *.
      rewrite total_weight_app. lia.
Qed.

Lemma count_subscopes_children (cs : list Statement) :
  sum_list_with count_subscopes cs
  = (sum_list_with (fun c => if is_Subscope c then count_subscopes c else O) cs
     + sum_list_with (fun c => if is_Subscope c then O else count_subscopes c) cs)%nat.
Proof.
  induction cs as [|c cs IH]; simpl; [reflexivity |].
  rewrite IH. destruct (is_Subscope c); lia.
Qed.

Lemma extract_children_weight
    (f : Statement -> nat -> Statement * list Rule * nat)
    (cs : list Statement) (k : nat) :
  Forall (fun c => forall k, (total_weight (f c k).1.2 <= count_subscopes c)%nat) cs ->
  (total_weight (extract_children uuid4_hex f self_name cs k).1.2
   <= sum_list_with count_subscopes cs)%nat.
Proof.
  intros H. unfold extract_children.
  pose proof (replace_subscopes_weight cs k) as H1.
  destruct (replace_subscopes uuid4_hex self_name cs k) as [[cs1 new1] k1].
  pose proof (recurse_children_weight f cs cs1 k1 H) as H2.
  destruct (recurse_children f cs cs1 k1) as [[cs2 new2] k2].
  simpl in *. rewrite total_weight_app, count_subscopes_children. lia.
Qed.

Lemma extract_child_weight
    (f : Statement -> nat -> Statement * list Rule * nat)
    (c : Statement) (k : nat) :
  (forall k, (total_weight (f c k).1.2 <= count_subscopes c)%nat) ->
  (total_weight (extract_child uuid4_hex f self_name c k).1.2
   <= count_subscopes c)%nat.
Proof.
  intros H. destruct c; try apply H.
  simpl. unfold total_weight, weight. simpl. lia.
Qed.

Lemma extract_weight (st : Statement) (k : nat) :
  (total_weight (rec st k).1.2 <= count_subscopes st)%nat.
Proof.
  revert k. induction st using Statement_ind_nested; intros k;
    cbn [_extract_subscope_rules_rec count_subscopes];
    try (simpl; lia).
  - pose proof (extract_children_weight rec cs k H) as Hw.
    destruct (extract_children _ _ _ cs k) as [[? ?] ?]. exact Hw.
  - pose proof (extract_children_weight rec cs k H) as Hw.
    destruct (extract_children _ _ _ cs k) as [[? ?] ?]. exact Hw.
  - pose proof (extract_child_weight rec st k IHst) as Hw.
    destruct (extract_child _ _ _ st k) as [[? ?] ?]. exact Hw.
  - pose proof (extract_children_weight rec cs k H) as Hw.
    destruct (extract_children _ _ _ cs k) as [[? ?] ?]. exact Hw.
  - pose proof (extract_child_weight rec st k IHst) as Hw.
    destruct (extract_child _ _ _ st k) as [[? ?] ?]. simpl in *. lia.
Qed.

End ExtractionFacts.

(** ** The worklist loop *)

Lemma worklist_refs (done rest : list ref) (r n : nat) :
  (done ++ r :: rest)%list = seq 0 n ->
  (r < n)%nat
  /\ (forall i, i ∈ done -> i <> r /\ (i < n)%nat)
  /\ (forall i, i ∈ rest -> i <> r /\ (i < n)%nat).
Proof.
  intros E.
  assert (Hnd : NoDup (done ++ r :: rest)) by (rewrite E; apply NoDup_seq).
  assert (Hlt : forall i, i ∈ (done ++ r :: rest)%list -> (i < n)%nat).
  { intros i Hi. rewrite E in Hi. apply elem_of_seq in Hi. lia. }
  apply NoDup_app in Hnd as (_ & Hdis & Hnd2).
  apply NoDup_cons in Hnd2 as [Hr _].
  split; [| split].
  - apply Hlt. apply elem_of_app. right. apply elem_of_cons. now left.
  - intros i Hi. split.
    + intros ->. apply (Hdis r Hi). apply elem_of_cons. now left.
    + apply Hlt. apply elem_of_app. now left.
  - intros i Hi. split.
    + intros ->. contradiction.
    + apply Hlt. apply elem_of_app. right. apply elem_of_cons. now right.
Qed.

Lemma store_weight_ext (s1 s2 : list Rule) (refs : list ref) :
  (forall i, i ∈ refs -> s1 !! i = s2 !! i) ->
  store_weight s1 refs = store_weight s2 refs.
Proof.
  unfold store_weight. induction refs as [|r refs IH]; intros H;
    [reflexivity |].
  simpl. rewrite H by (apply elem_of_cons; now left).
  rewrite IH; [reflexivity |].
  intros i Hi. apply H. apply elem_of_cons. now right.
Qed.

Lemma store_weight_new (pre new : list Rule) :
  store_weight (pre ++ new) (seq (List.length pre) (List.length new))
  = total_weight new.
Proof.
  revert pre. induction new as [|x new IH]; intros pre; [reflexivity |].
  unfold store_weight, total_weight in *. simpl.
  rewrite lookup_app_r by lia. rewrite Nat.sub_diag. simpl. f_equal.
  specialize (IH (pre ++ [x])%list).
  rewrite <- app_assoc, length_app in IH. simpl in IH.
  rewrite Nat.add_1_r in IH. now rewrite IH.
Qed.

Section WorklistFacts.

Variable uuid4_hex : nat -> string.

Lemma extract_loop_spec (fuel : nat) :
  forall (store : list Rule) (k : nat) (rules done : list ref),
  (done ++ rules)%list = seq 0 (List.length store) ->
  (store_weight store rules <= fuel)%nat ->
  exists store' k',
    extract_loop uuid4_hex fuel store k rules done
    = Some (store', k', [], seq 0 (List.length store'))
    /\ (List.length store <= List.length store')%nat
    /\ (forall i rule, i ∈ done -> store !! i = Some rule ->
          store' !! i = Some rule)
    /\ (forall i rule, i ∈ rules -> store !! i = Some rule ->
          exists k_i,
            store' !! i
            = Some (set_statement rule
                      (_extract_subscope_rules_rec uuid4_hex (name rule)
                         (statement rule) k_i).1.1)).
Proof.
  induction fuel as [|fuel IH]; intros store k rules done Hinv Hw.
  - destruct rules as [|r rest].
    + rewrite app_nil_r in Hinv. subst done. exists store, k.
      repeat split; auto.
      intros i rule Hi. now apply elem_of_nil in Hi.
    + exfalso. destruct (worklist_refs _ _ _ _ Hinv) as (Hr & _ & _).
      apply lookup_lt_is_Some in Hr as [rule Hrule].
      unfold store_weight in Hw. cbn [sum_list_with] in Hw.
      rewrite Hrule in Hw.
      unfold weight in Hw. lia.
  - destruct rules as [|r rest].
    + rewrite app_nil_r in Hinv. subst done. exists store, k.
      repeat split; auto.
      intros i rule Hi. now apply elem_of_nil in Hi.
    + destruct (worklist_refs _ _ _ _ Hinv) as (Hr & Hdone & Hrest).
      pose proof Hr as Hr'. apply lookup_lt_is_Some in Hr' as [rule Hrule].
      cbn [extract_loop]. rewrite Hrule.
      pose proof (extract_weight uuid4_hex (name rule) (statement rule) k)
        as Hnew.
      destruct (_extract_subscope_rules_rec uuid4_hex (name rule)
                  (statement rule) k) as [[st' new] k1] eqn:Erec.
      cbn [fst snd] in Hnew.
      set (store1 := (<[r:=set_statement rule st']> store ++ new)%list).
      set (rules1 := (rest ++ seq (List.length store) (List.length new))%list).
      assert (Hlen1 : List.length store1
                      = (List.length store + List.length new)%nat).
      { unfold store1. now rewrite length_app, length_insert. }
      assert (Hold : forall i, i <> r -> (i < List.length store)%nat ->
                       store1 !! i = store !! i).
      { intros i Hne Hlt. unfold store1.
        rewrite lookup_app_l by (now rewrite length_insert).
        now apply list_lookup_insert_ne. }
      assert (Hself : store1 !! r = Some (set_statement rule st')).
      { unfold store1. rewrite lookup_app_l by (now rewrite length_insert).
        now apply list_lookup_insert_eq. }
      destruct (IH store1 k1 rules1 (done ++ [r])%list) as
        (store' & k' & Hloop & Hlen & Hd & Hr1).
      { unfold rules1. rewrite Hlen1, seq_app. simpl.
        rewrite <- Hinv, <- !app_assoc. reflexivity. }
      { unfold rules1, store_weight. rewrite sum_list_with_app.
        fold (store_weight store1 rest).
        fold (store_weight store1 (seq (List.length store) (List.length new))).
        rewrite (store_weight_ext store1 store rest)
          by (intros i Hi; apply Hold; apply Hrest; exact Hi).
        unfold store1 at 1.
        rewrite <- (length_insert store r (set_statement rule st')).
        rewrite store_weight_new.
        unfold store_weight in Hw. cbn [sum_list_with] in Hw. rewrite Hrule in Hw.
        fold (store_weight store rest) in Hw. unfold weight in Hw. lia. }
      exists store', k'. split; [exact Hloop |]. split; [lia |]. split.
      * intros i x Hi Hx. apply Hd.
        -- apply elem_of_app. now left.
        -- rewrite Hold; [exact Hx | |]; now apply Hdone.
      * intros i x Hi Hx. apply elem_of_cons in Hi as [-> | Hi].
        -- assert (x = rule) by congruence. subst x. exists k.
           rewrite Erec. cbn [fst]. apply Hd; [| exact Hself].
           apply elem_of_app. right. apply elem_of_cons. now left.
        -- apply Hr1.
           ++ unfold rules1. apply elem_of_app. now left.
           ++ rewrite Hold; [exact Hx | |]; now apply Hrest.
Qed.

End WorklistFacts.

(** ** Rule set construction *)

Lemma deref_from (pre l : list Rule) :
  deref (pre ++ l) (seq (List.length pre) (List.length l)) = l.
Proof.
  revert pre. induction l as [|x l IH]; intros pre; [reflexivity |].
  unfold deref in *. simpl.
  rewrite lookup_app_r by lia. rewrite Nat.sub_diag. simpl. f_equal.
  specialize (IH (pre ++ [x])%list).
  rewrite <- app_assoc, length_app in IH. simpl in IH.
  rewrite Nat.add_1_r in IH. exact IH.
Qed.

Lemma deref_all (store : list Rule) :
  deref store (seq 0 (List.length store)) = store.
Proof. exact (deref_from [] store). Qed.

Section ConstructionFacts.

Variable uuid4_hex : nat -> string.
Variable topologically_order_rules : list Rule -> list Rule.
Variable recursion_limit : nat.

Lemma _extract_subscope_rules_total (rules : list Rule) :
  exists store',
    _extract_subscope_rules uuid4_hex rules
    = Some (store', [], seq 0 (List.length store'))
    /\ (List.length rules <= List.length store')%nat
    /\ (forall i rule, rules !! i = Some rule ->
          exists k_i,
            store' !! i
            = Some (set_statement rule
                      (_extract_subscope_rules_rec uuid4_hex (name rule)
                         (statement rule) k_i).1.1)).
Proof.
  destruct (extract_loop_spec uuid4_hex (total_weight rules) rules 0
              (seq 0 (List.length rules)) [])
    as (store' & k' & Hloop & Hlen & _ & Hr).
  - reflexivity.
  - pose proof (store_weight_new [] rules) as H. simpl in H. rewrite H. lia.
  - exists store'. unfold _extract_subscope_rules. rewrite Hloop.
    split; [reflexivity |]. split; [exact Hlen |].
    intros i rule Hi. apply Hr; [| exact Hi].
    apply elem_of_seq. apply lookup_lt_Some in Hi. lia.
Qed.

Lemma RuleSet_init_unique (rules : list Rule) :
  ensure_rules_are_unique rules = Ok tt ->
  exists store',
    _extract_subscope_rules uuid4_hex rules
    = Some (store', [], seq 0 (List.length store'))
    /\ RuleSet_init uuid4_hex topologically_order_rules recursion_limit rules
       = mkOutcome [] store'
           (assemble topologically_order_rules recursion_limit store').
Proof.
  intros Hu. destruct (_extract_subscope_rules_total rules)
    as (store' & He & _).
  exists store'. split; [exact He |].
  unfold RuleSet_init. rewrite Hu, He, deref_all. reflexivity.
Qed.

Lemma ensure_unique_from_cases (rules : list Rule) (seen : list string) :
  (ensure_unique_from seen rules = Ok tt
   /\ NoDup (map name rules) /\ (forall n, n ∈ map name rules -> n ∉ seen))
  \/ (exists n, n ∈ map name rules
        /\ ensure_unique_from seen rules
           = Raise (InvalidRule ("duplicate rule name: " ++ n))
        /\ ~ (NoDup (map name rules)
              /\ (forall n, n ∈ map name rules -> n ∉ seen))).
Proof.
  revert seen. induction rules as [|r rules IH]; intros seen.
  - left. repeat split; [constructor |].
    intros n Hn. now apply elem_of_nil in Hn.
  - cbn [ensure_unique_from map]. destruct (set_mem (name r) seen) eqn:E.
    + right. exists (name r). split; [apply elem_of_cons; now left |].
      split; [reflexivity |]. intros [_ H]. apply set_mem_spec in E.
      apply (H (name r)); [apply elem_of_cons; now left | exact E].
    + apply set_mem_false in E.
      destruct (IH (set_add (name r) seen)) as [(H1 & H2 & H3) | (n & H1 & H2 & H3)].
      * left. split; [exact H1 |]. split.
        -- apply NoDup_cons. split; [| exact H2].
           intros Hin. apply (H3 _ Hin). apply set_add_spec. now left.
        -- intros n Hn Hs. apply elem_of_cons in Hn as [-> | Hn];
             [contradiction |].
           apply (H3 _ Hn). apply set_add_spec. now right.
      * right. exists n. split; [apply elem_of_cons; now right |].
        split; [exact H2 |]. intros [Hnd Hdis]. apply H3.
        apply NoDup_cons in Hnd as [Hr Hnd]. split; [exact Hnd |].
        intros m Hm Hs. apply set_add_spec in Hs as [-> | Hs];
          [contradiction |].
        apply (Hdis m); [apply elem_of_cons; now right | exact Hs].
Qed.

Lemma ensure_rules_are_unique_spec (rules : list Rule) :
  (ensure_rules_are_unique rules = Ok tt /\ NoDup (map name rules))
  \/ (exists n, n ∈ map name rules
        /\ ensure_rules_are_unique rules
           = Raise (InvalidRule ("duplicate rule name: " ++ n))
        /\ ~ NoDup (map name rules)).
Proof.
  unfold ensure_rules_are_unique.
  destruct (ensure_unique_from_cases rules []) as [(H1 & H2 & _) | (n & H1 & H2 & H3)].
  - now left.
  - right. exists n. repeat split; [exact H1 | exact H2 |].
    intros Hnd. apply H3. split; [exact Hnd |].
    intros m _ Hm. now apply elem_of_nil in Hm.
Qed.

Lemma for_each_shape {A} (body : A -> result unit) (l : list A) :
  (forall x, x ∈ l ->
     body x = Ok tt \/ exists msg, body x = Raise (InvalidRule msg)) ->
  for_each body l = Ok tt
  \/ exists msg, for_each body l = Raise (InvalidRule msg).
Proof.
  induction l as [|x l IH]; intros H; [now left |].
  cbn [for_each]. destruct (H x) as [E | [msg E]];
    [apply elem_of_cons; now left | |]; rewrite E; cbn [bind].
  - apply IH. intros y Hy. apply H. apply elem_of_cons. now right.
  - right. now exists msg.
Qed.

Lemma for_each_raises {A} (body : A -> result unit) (l : list A) (x : A) :
  (forall y, y ∈ l ->
     body y = Ok tt \/ exists msg, body y = Raise (InvalidRule msg)) ->
  x ∈ l -> (exists msg, body x = Raise (InvalidRule msg)) ->
  exists msg, for_each body l = Raise (InvalidRule msg).
Proof.
  induction l as [|y l IH]; intros H Hx Hb; [now apply elem_of_nil in Hx |].
  cbn [for_each]. destruct (H y) as [E | [msg E]];
    [apply elem_of_cons; now left | |]; rewrite E; cbn [bind].
  - apply elem_of_cons in Hx as [-> | Hx].
    + destruct Hb as [msg Hb]. congruence.
    + apply IH; [| exact Hx | exact Hb].
      intros z Hz. apply H. apply elem_of_cons. now right.
  - now exists msg.
Qed.

Lemma ensure_rule_dependencies_are_met_missing (all : list Rule)
    (rule : Rule) (dep : string) :
  NoDup (map name all) -> rule ∈ all -> dep ∈ get_dependencies rule ->
  dep ∉ map name all ->
  exists msg, ensure_rule_dependencies_are_met all = Raise (InvalidRule msg).
Proof.
  intros Hnd Hrule Hdep Hmiss. unfold ensure_rule_dependencies_are_met.
  rewrite (rules_by_name_unique all Hnd).
  assert (Hbody : forall r d,
            match dict_get (rules_by_name all) d with
            | None =>
                Raise (InvalidRule
                         ("rule " ++ dquote ++ name r ++ dquote
                          ++ " depends on missing rule "
                          ++ dquote ++ d ++ dquote))
            | Some _ => Ok tt
            end = Ok tt
            \/ exists msg,
                 match dict_get (rules_by_name all) d with
                 | None =>
                     Raise (InvalidRule
                              ("rule " ++ dquote ++ name r ++ dquote
                               ++ " depends on missing rule "
                               ++ dquote ++ d ++ dquote))
                 | Some _ => Ok tt
                 end = Raise (InvalidRule msg)).
  { intros r d. destruct (dict_get (rules_by_name all) d); eauto. }
  apply (for_each_raises _ all rule); [| exact Hrule |].
  - intros y _. apply for_each_shape. intros d _. apply Hbody.
  - apply (for_each_raises _ _ dep); [| exact Hdep |].
    + intros d _. apply Hbody.
    + destruct (dict_get (rules_by_name all) dep) as [r|] eqn:E; [| eauto].
      exfalso. apply Hmiss. apply dict_get_elem in E.
      pose proof (rules_by_name_keyed all) as [_ Hk].
      rewrite <- (Hk _ _ E). apply list_elem_of_fmap. exists r.
      split; [reflexivity |]. now apply rules_by_name_elem in E.
Qed.

End ConstructionFacts.

Lemma meta_has_tag_false (tag : string) (rule : Rule) :
  meta_has_tag tag rule = false <->
  forall k v, (k, VStr v) ∈ meta rule -> Py.contains tag v = false.
Proof.
  unfold meta_has_tag. split.
  - intros H k v Hin. apply list_elem_of_In in Hin.
    destruct (Py.contains tag v) eqn:E; [| reflexivity].
    assert (Hex : existsb
              (fun kv => match kv.2 with
                         | VStr v => Py.contains tag v
                         | _ => false
                         end) (meta rule) = true).
    { apply existsb_exists. exists (k, VStr v). now split. }
    congruence.
  - intros H. destruct (existsb _ (meta rule)) eqn:E; [| reflexivity].
    apply existsb_exists in E as ([k v] & Hin & Hv). simpl in Hv.
    destruct v; try discriminate.
    apply list_elem_of_In in Hin. rewrite (H _ _ Hin) in Hv. discriminate.
Qed.

Lemma filter_loop_no_match (limit : nat) (tag : string)
    (all rules acc : list Rule) :
  (forall rule, rule ∈ rules -> meta_has_tag tag rule = false) ->
  filter_loop limit tag all rules acc = Ok acc.
Proof.
  induction rules as [|r rules IH]; intros H; [reflexivity |].
  cbn [filter_loop]. rewrite (H r) by (apply elem_of_cons; now left).
  apply IH. intros x Hx. apply H. apply elem_of_cons. now right.
Qed.

(** C10: when no rule of the set has a string-valued metadata entry
    that contains the tag, [filter_rules_by_meta] raises the
    empty-ruleset integrity error: the empty selection is passed to the
    constructor. *)
Theorem C10_filter_without_match (uuid4_hex : nat -> string)
    (topologically_order_rules : list Rule -> list Rule)
    (recursion_limit : nat) (self : RuleSet) (tag : string) :
  (forall rule k v,
     rule ∈ dict_values (rules self) -> (k, VStr v) ∈ meta rule ->
     Py.contains tag v = false) ->
  filter_rules_by_meta uuid4_hex topologically_order_rules recursion_limit
    self tag
  = Raise (InvalidRuleSet "no rules selected").
Proof.
  intros H. unfold filter_rules_by_meta.
  rewrite filter_loop_no_match; [reflexivity |].
  intros rule Hr. apply meta_has_tag_false. intros k v. now apply H.
Qed.

Lemma C10_filter_without_match_witness :
  filter_rules_by_meta (fun _ => "") (fun l => l) 1000
    (mkRuleSet [nested_subscope_rule] [] [] [("r", nested_subscope_rule)])
    "zz"
  = Raise (InvalidRuleSet "no rules selected").
Proof.
  apply C10_filter_without_match.
  intros rule k v Hr Hm. apply list_elem_of_singleton in Hr. subst rule.
  simpl in Hm. apply elem_of_cons in Hm as [[= -> ->] | Hm]; [reflexivity |].
  apply list_elem_of_singleton in Hm. injection Hm as -> ->. reflexivity.
Defined.



Lemma extracted_store (uuid4_hex : nat -> string) (rules : list Rule) :
  _extract_subscope_rules uuid4_hex rules
  = Some (extracted uuid4_hex rules, [],
          seq 0 (List.length (extracted uuid4_hex rules)))
  /\ (List.length rules <= List.length (extracted uuid4_hex rules))%nat.
Proof.
  destruct (_extract_subscope_rules_total uuid4_hex rules)
    as (store' & He & Hlen & _).
  unfold extracted. rewrite He, deref_all. now split.
Qed.

(** C8 (as amended): construction fails when two input rules share a
    name and when a rule of the full collection depends on a name that
    no rule of the collection has, in both cases with the
    rule-definition error; it fails with the ruleset-integrity error
    when the final collection is empty, which is the case of an empty
    input only. *)
Theorem C8_construction_errors (uuid4_hex : nat -> string)
    (topologically_order_rules : list Rule -> list Rule)
    (recursion_limit : nat) :
  let RuleSet rules :=
    returned (RuleSet_init uuid4_hex topologically_order_rules
                recursion_limit rules) in
  (forall rules,
     ~ NoDup (map name rules) ->
     exists n, n ∈ map name rules
       /\ RuleSet rules = Raise (InvalidRule ("duplicate rule name: " ++ n)))
  /\ (forall rules rule dep,
        NoDup (map name rules) ->
        NoDup (map name (extracted uuid4_hex rules)) ->
        rule ∈ extracted uuid4_hex rules ->
        dep ∈ get_dependencies rule ->
        dep ∉ map name (extracted uuid4_hex rules) ->
        exists msg, RuleSet rules = Raise (InvalidRule msg))
  /\ (forall rules,
        NoDup (map name rules) -> extracted uuid4_hex rules = [] ->
        RuleSet rules = Raise (InvalidRuleSet "no rules selected"))
  /\ (forall rules, extracted uuid4_hex rules = [] -> rules = [])
  /\ RuleSet [] = Raise (InvalidRuleSet "no rules selected").
Proof.
  intros RuleSet. subst RuleSet. cbv beta.
  assert (Hinit : forall rules, NoDup (map name rules) ->
            returned (RuleSet_init uuid4_hex topologically_order_rules
                        recursion_limit rules)
            = assemble topologically_order_rules recursion_limit
                (extracted uuid4_hex rules)).
  { intros rules Hnd.
    destruct (ensure_rules_are_unique_spec rules) as [[Hu _] | (n & _ & _ & Hn)];
      [| contradiction].
    destruct (RuleSet_init_unique uuid4_hex topologically_order_rules
                recursion_limit rules Hu) as (store' & He & ->).
    destruct (extracted_store uuid4_hex rules) as [He' _].
    rewrite He in He'. now injection He' as ->. }
  repeat match goal with |- _ /\ _ => split end.
  - intros rules Hnd.
    destruct (ensure_rules_are_unique_spec rules) as [[_ H] | (n & Hn & Hu & _)];
      [contradiction |].
    exists n. split; [exact Hn |]. unfold RuleSet_init. now rewrite Hu.
  - intros rules rule dep Hnd Hnd' Hrule Hdep Hmiss. rewrite (Hinit _ Hnd).
    destruct (ensure_rule_dependencies_are_met_missing _ rule dep Hnd' Hrule
                Hdep Hmiss) as [msg Hmsg].
    exists msg. unfold assemble. now rewrite Hmsg.
  - intros rules Hnd He. rewrite (Hinit _ Hnd), He. reflexivity.
  - intros rules He. destruct (extracted_store uuid4_hex rules) as [_ Hlen].
    rewrite He in Hlen. simpl in Hlen. destruct rules; [reflexivity |].
    simpl in Hlen. lia.
  - reflexivity.
Qed.

Lemma C8_construction_errors_witness :
  exists msg,
    returned (RuleSet_init (fun _ => "0") (fun l => l) 1000 [dangling_rule])
    = Raise (InvalidRule msg).
Proof.
  destruct (C8_construction_errors (fun _ => "0") (fun l => l) 1000)
    as (_ & H & _).
  apply (H [dangling_rule] dangling_rule "missing").
  - apply NoDup_singleton.
  - apply NoDup_singleton.
  - apply list_elem_of_singleton. reflexivity.
  - apply list_elem_of_singleton. reflexivity.
  - intros Hin. apply list_elem_of_singleton in Hin. discriminate.
Defined.

(** C8 as stated fails: a duplicate name and an unmet dependency raise
    the rule-definition error, not the ruleset-integrity error. *)
Lemma C8_counterexample :
  let RuleSet rules :=
    returned (RuleSet_init (fun _ => "0") (fun l => l) 1000 rules) in
  RuleSet [dangling_rule; dangling_rule]
  = Raise (InvalidRule "duplicate rule name: d")
  /\ is_InvalidRuleSet (RuleSet [dangling_rule; dangling_rule]) = false
  /\ is_InvalidRule (RuleSet [dangling_rule]) = true
  /\ is_InvalidRuleSet (RuleSet [dangling_rule]) = false.
Proof. vm_compute. repeat split. Qed.

(** ** Dependency closure and scope lists *)

Section ClosureFacts.

Variable d : list (string * Rule).
Hypothesis d_keyed : keyed_by_name d.

Lemma dict_get_name (k : string) (r : Rule) :
  dict_get d k = Some r -> name r = k /\ dict_get d (name r) = Some r.
Proof.
  intros H. destruct d_keyed as [_ Hk].
  pose proof (Hk _ _ (dict_get_elem _ _ _ H)) as E. now rewrite E.
Qed.

Lemma each_dependency_spec
    (f : Rule -> list string -> result (list string)) (deps : list string) :
  (forall r wanted W,
     dict_get d (name r) = Some r -> f r wanted = Ok W ->
     forall m, m ∈ W <-> m ∈ wanted \/ reach d (name r) m) ->
  forall wanted W,
    each_dependency f d deps wanted = Ok W ->
    forall m, m ∈ W <-> m ∈ wanted \/ exists dep, dep ∈ deps /\ reach d dep m.
Proof.
  intros Hf. induction deps as [|dep deps IH]; intros wanted W H m.
  - injection H as <-. split; [now left |].
    intros [Hm | (dep & Hd & _)]; [exact Hm | now apply elem_of_nil in Hd].
  - cbn [each_dependency] in H.
    destruct (dict_get d dep) as [r|] eqn:E; [| discriminate].
    destruct (dict_get_name _ _ E) as [Hn Hr].
    destruct (f r wanted) as [W1|e] eqn:E1; [| discriminate].
    cbn [bind] in H. rewrite (IH _ _ H m), (Hf _ _ _ Hr E1 m), Hn.
    split.
    + intros [[Hm | Hm] | (dep' & Hd & Hm)]; [now left | |].
      * right. exists dep. split; [apply elem_of_cons; now left | exact Hm].
      * right. exists dep'. split; [apply elem_of_cons; now right | exact Hm].
    + intros [Hm | (dep' & Hd & Hm)]; [left; now left |].
      apply elem_of_cons in Hd as [-> | Hd]; [left; now right |].
      right. now exists dep'.
Qed.

Lemma get_rules_and_dependencies_rec_spec (fuel : nat) :
  forall r wanted W,
    dict_get d (name r) = Some r ->
    get_rules_and_dependencies_rec fuel d r wanted = Ok W ->
    forall m, m ∈ W <-> m ∈ wanted \/ reach d (name r) m.
Proof.
  induction fuel as [|fuel IH]; intros r wanted W Hr H m; [discriminate |].
  cbn [get_rules_and_dependencies_rec] in H.
  rewrite (each_dependency_spec _ _ IH _ _ H m), set_add_spec. split.
  - intros [[-> | Hm] | (dep & Hd & Hm)].
    + right. constructor.
    + now left.
    + right. now apply (reach_step d (name r) r dep).
  - intros [Hm | Hm]; [left; now right |].
    inversion Hm as [|n rule dep m' Hg Hd Hm']; subst.
    + left. now left.
    + right. exists dep. split; [| exact Hm'].
      assert (rule = r) by congruence. now subst.
Qed.

End ClosureFacts.

Section ScopeLists.

Variable topologically_order_rules : list Rule -> list Rule.
Variable recursion_limit : nat.
Variable all : list Rule.

Abbreviation d := (rules_by_name all).

Lemma get_rules_and_dependencies_spec (n : string) (l : list Rule) :
  get_rules_and_dependencies recursion_limit all n = Ok l ->
  forall r, r ∈ l <-> r ∈ dict_values d /\ reach d n (name r).
Proof.
  unfold get_rules_and_dependencies. intros H r.
  destruct (dict_get d n) as [rule|] eqn:E; [| discriminate].
  destruct (dict_get_name d (rules_by_name_keyed all) _ _ E) as [Hn Hr].
  destruct (get_rules_and_dependencies_rec _ _ _ _) as [W|e] eqn:EW;
    [| discriminate].
  injection H as <-.
  pose proof (get_rules_and_dependencies_rec_spec d (rules_by_name_keyed all)
                _ _ _ _ Hr EW) as HW.
  rewrite list_elem_of_In, filter_In, <- list_elem_of_In, set_mem_spec, HW, Hn.
  split; intros [H1 H2]; split; auto.
  - destruct H2 as [H2 | H2]; [| exact H2].
    apply list_elem_of_singleton in H2. rewrite H2. constructor.
Qed.

Lemma rule_set_update_spec (s new : list Rule) :
  (forall x, x ∈ s -> x ∈ dict_values d) ->
  (forall x, x ∈ new -> x ∈ dict_values d) ->
  forall r, r ∈ rule_set_update s new <-> r ∈ s \/ r ∈ new.
Proof.
  unfold rule_set_update. revert s.
  induction new as [|x new IH]; intros s Hs Hnew r; simpl.
  - split; [now left | intros [H | H]; [exact H | now apply elem_of_nil in H]].
  - assert (Hadd : forall y, y ∈ rule_set_add x s <-> y ∈ s \/ y = x).
    { intros y. unfold rule_set_add.
      destruct (existsb _ s) eqn:E.
      - apply existsb_exists in E as (r' & Hr' & En).
        apply String.eqb_eq in En. apply list_elem_of_In in Hr'.
        assert (r' = x).
        { pose proof (Hs _ Hr') as H1.
          pose proof (Hnew x ltac:(apply elem_of_cons; now left)) as H2.
          apply (dict_values_spec _ _ (rules_by_name_keyed all)) in H1, H2.
          rewrite En in H1. congruence. }
        subst r'. split; [now left | intros [H | ->]; assumption].
      - rewrite elem_of_app, list_elem_of_singleton. tauto. }
    rewrite IH.
    + rewrite Hadd, elem_of_cons. tauto.
    + intros y Hy. apply Hadd in Hy as [Hy | ->]; [now apply Hs |].
      apply Hnew. apply elem_of_cons. now left.
    + intros y Hy. apply Hnew. apply elem_of_cons. now right.
Qed.

Lemma collect_scope_rules_spec (rules acc s : list Rule) :
  (forall x, x ∈ acc -> x ∈ dict_values d) ->
  collect_scope_rules recursion_limit all rules acc = Ok s ->
  forall r,
    r ∈ s <->
    r ∈ acc
    \/ (r ∈ dict_values d
        /\ exists r0, r0 ∈ rules /\ is_lib r0 = false
                      /\ reach d (name r0) (name r)).
Proof.
  revert acc. induction rules as [|x rules IH]; intros acc Hacc H r.
  - injection H as <-. split; [now left |].
    intros [Hr | (_ & r0 & H0 & _)]; [exact Hr | now apply elem_of_nil in H0].
  - cbn [collect_scope_rules] in H. destruct (is_lib x) eqn:Elib.
    + rewrite (IH _ Hacc H r). split.
      * intros [Hr | (Hv & r0 & H0 & Hl & Hreach)]; [now left |].
        right. split; [exact Hv |]. exists r0.
        split; [apply elem_of_cons; now right | now split].
      * intros [Hr | (Hv & r0 & H0 & Hl & Hreach)]; [now left |].
        apply elem_of_cons in H0 as [-> | H0]; [congruence |].
        right. split; [exact Hv |]. now exists r0.
    + destruct (get_rules_and_dependencies _ _ _) as [deps|e] eqn:Ed;
        [| discriminate].
      cbn [bind] in H.
      pose proof (get_rules_and_dependencies_spec _ _ Ed) as Hdeps.
      assert (Hd : forall y, y ∈ deps -> y ∈ dict_values d).
      { intros y Hy. now apply Hdeps in Hy as [Hy _]. }
      rewrite (IH (rule_set_update acc deps)) by
        (try exact H; intros y Hy;
         apply (rule_set_update_spec _ _ Hacc Hd) in Hy as [Hy | Hy]; auto).
      rewrite (rule_set_update_spec _ _ Hacc Hd), Hdeps. split.
      * intros [[Hr | [Hv Hreach]] | (Hv & r0 & H0 & Hl & Hreach)].
        -- now left.
        -- right. split; [exact Hv |]. exists x.
           split; [apply elem_of_cons; now left | now split].
        -- right. split; [exact Hv |]. exists r0.
           split; [apply elem_of_cons; now right | now split].
      * intros [Hr | (Hv & r0 & H0 & Hl & Hreach)]; [left; now left |].
        apply elem_of_cons in H0 as [-> | H0]; [left; right; now split |].
        right. split; [exact Hv |]. now exists r0.
Qed.

Hypothesis topological_order_elements :
  forall l r, r ∈ topologically_order_rules l <-> r ∈ l.

Lemma _get_rules_for_scope_spec (target : string) (l : list Rule) :
  _get_rules_for_scope topologically_order_rules recursion_limit all target
  = Ok l ->
  forall r,
    r ∈ l <->
    scope r = target /\ r ∈ dict_values d
    /\ exists r0, r0 ∈ all /\ is_lib r0 = false /\ reach d (name r0) (name r).
Proof.
  unfold _get_rules_for_scope. intros H r.
  destruct (collect_scope_rules _ _ _ _) as [s|e] eqn:Es; [| discriminate].
  injection H as <-. unfold get_rules_with_scope.
  rewrite list_elem_of_In, filter_In, <- list_elem_of_In.
  rewrite topological_order_elements.
  rewrite (collect_scope_rules_spec all [] s) by
    (try exact Es; intros x Hx; now apply elem_of_nil in Hx).
  rewrite String.eqb_eq. split.
  - intros [[Hr | Hr] Hs]; [now apply elem_of_nil in Hr | tauto].
  - tauto.
Qed.

End ScopeLists.

(** C4: in a rule set that was built, each scope list holds exactly the
    rules of that scope that are in the dependency closure of some rule
    not marked lib; so a file-scope rule that is not lib is in
    [file_rules], and a function-scope lib rule it matches on is in
    [function_rules]. The ordering function of the engine is only
    assumed to return the elements it is given. *)
Theorem C4_scope_lists (uuid4_hex : nat -> string)
    (topologically_order_rules : list Rule -> list Rule)
    (recursion_limit : nat) (input : list Rule) (rs : RuleSet) :
  (forall l r, r ∈ topologically_order_rules l <-> r ∈ l) ->
  returned (RuleSet_init uuid4_hex topologically_order_rules recursion_limit
              input) = Ok rs ->
  let all := extracted uuid4_hex input in
  let d := rules rs in
  let needed r :=
    exists r0, r0 ∈ all /\ is_lib r0 = false /\ reach d (name r0) (name r) in
  d = rules_by_name all
  /\ (forall r, r ∈ file_rules rs <->
        scope r = FILE_SCOPE /\ r ∈ dict_values d /\ needed r)
  /\ (forall r, r ∈ function_rules rs <->
        scope r = FUNCTION_SCOPE /\ r ∈ dict_values d /\ needed r)
  /\ (forall r, r ∈ basic_block_rules rs <->
        scope r = BASIC_BLOCK_SCOPE /\ r ∈ dict_values d /\ needed r)
  /\ (forall f l,
        f ∈ dict_values d -> l ∈ dict_values d ->
        scope f = FILE_SCOPE -> is_lib f = false ->
        scope l = FUNCTION_SCOPE -> is_lib l = true ->
        name l ∈ get_dependencies f ->
        f ∈ file_rules rs /\ l ∈ function_rules rs).
Proof.
  intros Htopo Hret all d needed.
  assert (Hasm : assemble topologically_order_rules recursion_limit all
                 = Ok rs).
  { destruct (ensure_rules_are_unique_spec input)
      as [[Hu _] | (n & _ & Hu & _)].
    - destruct (RuleSet_init_unique uuid4_hex topologically_order_rules
                  recursion_limit input Hu) as (store' & He & Hinit).
      destruct (extracted_store uuid4_hex input) as [He' _].
      rewrite He in He'. injection He' as Hs.
      rewrite Hinit in Hret. simpl in Hret. subst all. now rewrite <- Hs.
    - unfold RuleSet_init in Hret. rewrite Hu in Hret. discriminate. }
  unfold assemble in Hasm.
  destruct (ensure_rule_dependencies_are_met all); [| discriminate].
  cbn [bind] in Hasm.
  destruct (Nat.eqb (List.length all) 0); [discriminate |].
  destruct (_get_rules_for_scope _ _ all FILE_SCOPE) as [lf|] eqn:Ef;
    [| discriminate].
  destruct (_get_rules_for_scope _ _ all FUNCTION_SCOPE) as [lu|] eqn:Eu;
    [| discriminate].
  destruct (_get_rules_for_scope _ _ all BASIC_BLOCK_SCOPE) as [lb|] eqn:Eb;
    [| discriminate].
  cbn [bind] in Hasm. injection Hasm as <-.
  subst d needed. cbn [file_rules function_rules basic_block_rules
                         rules].
  pose proof (_get_rules_for_scope_spec _ _ all Htopo _ _ Ef) as Hf.
  pose proof (_get_rules_for_scope_spec _ _ all Htopo _ _ Eu) as Hu.
  pose proof (_get_rules_for_scope_spec _ _ all Htopo _ _ Eb) as Hb.
  split; [reflexivity |]. split; [exact Hf |]. split; [exact Hu |].
  split; [exact Hb |].
  intros f l Hfv Hlv Hfs Hfl Hls _ Hdep.
  assert (Hfa : f ∈ all).
  { apply list_elem_of_fmap in Hfv as ([k x] & -> & Hx).
    now apply rules_by_name_elem in Hx. }
  split.
  - apply Hf. split; [exact Hfs |]. split; [exact Hfv |].
    exists f. split; [exact Hfa |]. split; [exact Hfl | constructor].
  - apply Hu. split; [exact Hls |]. split; [exact Hlv |].
    exists f. split; [exact Hfa |]. split; [exact Hfl |].
    apply (reach_step _ (name f) f (name l)); [| exact Hdep | constructor].
    now apply (dict_values_spec _ _ (rules_by_name_keyed all)).
Qed.

Lemma C4_scope_lists_witness :
  exists rs,
    returned (RuleSet_init (fun _ => "0") (fun l => l) 1000
                [file_rule; lib_rule]) = Ok rs
    /\ file_rule ∈ file_rules rs /\ lib_rule ∈ function_rules rs.
Proof.
  eexists. split; [reflexivity |].
  eapply (C4_scope_lists (fun _ => "0") (fun l => l) 1000
            [file_rule; lib_rule]).
  - intros l r. reflexivity.
  - reflexivity.
  - simpl. apply elem_of_cons. now left.
  - simpl. apply elem_of_cons. right. apply elem_of_cons. now left.
  - reflexivity.
  - reflexivity.
  - reflexivity.
  - reflexivity.
  - simpl. apply elem_of_cons. now left.
Defined.

(** ** Where subscope nodes remain after extraction *)

Section RemainingSubscopes.

Variable uuid4_hex : nat -> string.
Variable self_name : string.

Abbreviation rec := (_extract_subscope_rules_rec uuid4_hex self_name).

Lemma recurse_children_replaced
    (f : Statement -> nat -> Statement * list Rule * nat)
    (cs : list Statement) (k0 k : nat) :
  (forall x k, f (Leaf x) k = (Leaf x, [], k)) ->
  recurse_children f cs (replace_subscopes uuid4_hex self_name cs k0).1.1 k
  = recurse_replaced f (replace_subscopes uuid4_hex self_name cs k0).1.1 k.
Proof.
  intros Hleaf. revert k0 k. induction cs as [|c cs IH]; intros k0 k;
    [reflexivity |].
  destruct c;
    try (cbn [replace_subscopes]; specialize (IH k0);
         destruct (replace_subscopes uuid4_hex self_name cs k0)
           as [[cs1 new1] k1];
         cbn [fst snd recurse_children recurse_replaced is_Subscope] in *;
         match goal with
         | |- context [f ?c k] => destruct (f c k) as [[c2 n2] k2]
         end;
         now rewrite IH).
  cbn [replace_subscopes]. specialize (IH (S k0)).
  destruct (replace_subscopes uuid4_hex self_name cs (S k0))
    as [[cs1 new1] k1].
  cbn [fst snd recurse_children recurse_replaced is_Subscope] in *.
  rewrite Hleaf, IH. reflexivity.
Qed.

(** The two loops on the children of a node, in the shape of the
    source: replace the subscope children, then call the function on
    every child of the node as it is after the replacement. *)
Lemma extract_children_source (cs : list Statement) (k : nat) :
  extract_children uuid4_hex rec self_name cs k
  = let '(cs1, new1, k1) := replace_subscopes uuid4_hex self_name cs k in
    let '(cs2, new2, k2) := recurse_replaced rec cs1 k1 in
    (cs2, (new1 ++ new2)%list, k2).
Proof.
  unfold extract_children.
  pose proof (recurse_children_replaced rec cs k) as H.
  destruct (replace_subscopes uuid4_hex self_name cs k) as [[cs1 new1] k1].
  cbn [fst snd] in H. rewrite H; reflexivity.
Qed.

Lemma replace_subscopes_clear (cs : list Statement) (k : nat) :
  Forall2 (fun c c1 => if is_Subscope c then has_subscope c1 = false else c1 = c)
    cs (replace_subscopes uuid4_hex self_name cs k).1.1.
Proof.
  revert k. induction cs as [|c cs IH]; intros k; [constructor |].
  destruct c;
    try (cbn [replace_subscopes]; specialize (IH k);
         destruct (replace_subscopes uuid4_hex self_name cs k)
           as [[cs1 new1] k1];
         constructor; [reflexivity | exact IH]).
  cbn [replace_subscopes]. specialize (IH (S k)).
  destruct (replace_subscopes uuid4_hex self_name cs (S k))
    as [[cs1 new1] k1].
  constructor; [reflexivity | exact IH].
Qed.

Lemma recurse_children_clear
    (f : Statement -> nat -> Statement * list Rule * nat)
    (cs repl : list Statement) (k : nat) :
  Forall (fun c => is_Subscope c = false ->
                   forall k, has_subscope (f c k).1.1 = false) cs ->
  Forall2 (fun c c1 => if is_Subscope c then has_subscope c1 = false else c1 = c)
    cs repl ->
  Forall (fun c => has_subscope c = false) (recurse_children f cs repl k).1.1.
Proof.
  intros Hf H2. revert k. induction H2 as [|c c1 cs repl Hc _ IH]; intros k;
    [constructor |].
  apply Forall_cons in Hf as [Hfc Hf]. specialize (IH Hf).
  cbn [recurse_children]. destruct (is_Subscope c) eqn:E.
  - specialize (IH k). destruct (recurse_children f cs repl k) as [[? ?] ?].
    constructor; [exact Hc | exact IH].
  - specialize (Hfc eq_refl k). destruct (f c k) as [[c2 n2] k2].
    specialize (IH k2). destruct (recurse_children f cs repl k2) as [[? ?] ?].
    constructor; [exact Hfc | exact IH].
Qed.

Lemma extract_children_clear
    (f : Statement -> nat -> Statement * list Rule * nat)
    (cs : list Statement) (k : nat) :
  Forall (fun c => is_Subscope c = false ->
                   forall k, has_subscope (f c k).1.1 = false) cs ->
  Forall (fun c => has_subscope c = false)
    (extract_children uuid4_hex f self_name cs k).1.1.
Proof.
  intros Hf. unfold extract_children.
  pose proof (replace_subscopes_clear cs k) as H2.
  destruct (replace_subscopes uuid4_hex self_name cs k) as [[cs1 new1] k1].
  pose proof (recurse_children_clear f cs cs1 k1 Hf H2) as H.
  destruct (recurse_children f cs cs1 k1) as [[? ?] ?]. exact H.
Qed.

Lemma extract_child_clear
    (f : Statement -> nat -> Statement * list Rule * nat)
    (c : Statement) (k : nat) :
  (is_Subscope c = false -> forall k, has_subscope (f c k).1.1 = false) ->
  has_subscope (extract_child uuid4_hex f self_name c k).1.1 = false.
Proof.
  intros H. destruct c; try (apply H; reflexivity). reflexivity.
Qed.

Lemma has_subscope_children (cs : list Statement) :
  Forall (fun c => has_subscope c = false) cs ->
  existsb has_subscope cs = false.
Proof.
  induction 1 as [|c cs Hc _ IH]; simpl; [reflexivity |].
  now rewrite Hc, IH.
Qed.

(** After the rewrite of a statement no child of its root contains a
    subscope node, and the root is a subscope node only if it was one. *)
Lemma extract_clear (st : Statement) (k : nat) :
  Forall (fun c => has_subscope c = false) (get_children (rec st k).1.1)
  /\ (is_Subscope st = false -> has_subscope (rec st k).1.1 = false).
Proof.
  revert k. induction st using Statement_ind_nested; intros k;
    cbn [_extract_subscope_rules_rec].
  - assert (Hc := extract_children_clear rec cs k).
    destruct (extract_children _ _ _ cs k) as [[cs' ?] ?].
    cbn [fst get_children has_subscope] in *.
    assert (Forall (fun c => has_subscope c = false) cs').
    { apply Hc. eapply Forall_impl; [exact H |]. intros c Hk Hs k0.
      now apply Hk. }
    split; [assumption | intros _; now apply has_subscope_children].
  - assert (Hc := extract_children_clear rec cs k).
    destruct (extract_children _ _ _ cs k) as [[cs' ?] ?].
    cbn [fst get_children has_subscope] in *.
    assert (Forall (fun c => has_subscope c = false) cs').
    { apply Hc. eapply Forall_impl; [exact H |]. intros c Hk Hs k0.
      now apply Hk. }
    split; [assumption | intros _; now apply has_subscope_children].
  - assert (Hc := extract_child_clear rec st k).
    destruct (extract_child _ _ _ st k) as [[c' ?] ?].
    cbn [fst get_children has_subscope] in *.
    assert (has_subscope c' = false).
    { apply Hc. intros Hs k0. now apply IHst. }
    split; [now constructor | intros _; assumption].
  - assert (Hc := extract_children_clear rec cs k).
    destruct (extract_children _ _ _ cs k) as [[cs' ?] ?].
    cbn [fst get_children has_subscope] in *.
    assert (Forall (fun c => has_subscope c = false) cs').
    { apply Hc. eapply Forall_impl; [exact H |]. intros c Hk Hs k0.
      now apply Hk. }
    split; [assumption | intros _; now apply has_subscope_children].
  - split; [repeat constructor | reflexivity].
  - split; [constructor | reflexivity].
  - assert (Hc := extract_child_clear rec st k).
    destruct (extract_child _ _ _ st k) as [[c' ?] ?].
    cbn [fst get_children has_subscope] in *.
    assert (has_subscope c' = false).
    { apply Hc. intros Hs k0. now apply IHst. }
    split; [now constructor | discriminate].
  - split; [constructor | reflexivity].
Qed.

End RemainingSubscopes.

Lemma extract_loop_all (uuid4_hex : nat -> string) (Q : Rule -> Prop)
    (fuel : nat) :
  (forall rule k,
     Q (set_statement rule
          (_extract_subscope_rules_rec uuid4_hex (name rule)
             (statement rule) k).1.1)) ->
  forall store k rules done store' k' rules' done',
    (done ++ rules)%list = seq 0 (List.length store) ->
    (forall i x, i ∈ done -> store !! i = Some x -> Q x) ->
    extract_loop uuid4_hex fuel store k rules done
    = Some (store', k', rules', done') ->
    forall x, x ∈ store' -> Q x.
Proof.
  intros HQ. induction fuel as [|fuel IH];
    intros store k rules done store' k' rules' done' Hinv Hdone Hloop x Hx.
  - destruct rules as [|r rest]; [| discriminate].
    injection Hloop as <- _ _ _. rewrite app_nil_r in Hinv.
    apply list_elem_of_lookup in Hx as [i Hi]. apply (Hdone i); [| exact Hi].
    rewrite Hinv. apply elem_of_seq. apply lookup_lt_Some in Hi. lia.
  - destruct rules as [|r rest].
    + injection Hloop as <- _ _ _. rewrite app_nil_r in Hinv.
      apply list_elem_of_lookup in Hx as [i Hi]. apply (Hdone i); [| exact Hi].
      rewrite Hinv. apply elem_of_seq. apply lookup_lt_Some in Hi. lia.
    + destruct (worklist_refs _ _ _ _ Hinv) as (Hr & Hd & _).
      cbn [extract_loop] in Hloop.
      destruct (store !! r) as [rule|] eqn:Hrule; [| discriminate].
      pose proof (HQ rule k) as Hq.
      destruct (_extract_subscope_rules_rec uuid4_hex (name rule)
                  (statement rule) k) as [[st' new] k1].
      cbn [fst] in Hq.
      refine (IH (<[r:=set_statement rule st']> store ++ new)%list k1
                (rest ++ seq (List.length store) (List.length new))%list
                (done ++ [r])%list store' k' rules' done' _ _ Hloop x Hx).
      * rewrite length_app, length_insert, seq_app. simpl.
        rewrite <- Hinv, <- !app_assoc. reflexivity.
      * intros i y Hi Hy. apply elem_of_app in Hi as [Hi | Hi].
        -- destruct (Hd i Hi) as [Hne Hlt]. apply (Hdone i y Hi).
           rewrite lookup_app_l in Hy by (now rewrite length_insert).
           now rewrite list_lookup_insert_ne in Hy.
        -- apply list_elem_of_singleton in Hi. subst i.
           rewrite lookup_app_l in Hy by (now rewrite length_insert).
           rewrite list_lookup_insert_eq in Hy by exact Hr.
           now injection Hy as <-.
Qed.

(** In the collection that subscope extraction returns, a subscope node
    can only be the root of a rule's statement. *)
Lemma extracted_subscopes_only_at_roots (uuid4_hex : nat -> string)
    (rules : list Rule) (x : Rule) :
  x ∈ extracted uuid4_hex rules ->
  Forall (fun c => has_subscope c = false) (get_children (statement x)).
Proof.
  intros Hx. destruct (extracted_store uuid4_hex rules) as [He _].
  unfold _extract_subscope_rules in He.
  destruct (extract_loop _ _ _ _ _ _) as [[[[store k] rem] done]|] eqn:El;
    [| discriminate].
  injection He as Hs _ _. rewrite <- Hs in Hx.
  refine (extract_loop_all uuid4_hex
            (fun x => Forall (fun c => has_subscope c = false)
                        (get_children (statement x)))
            (total_weight rules) _
            rules 0%nat (seq 0 (List.length rules)) [] store k rem done
            eq_refl _ El x Hx).
  - intros rule k0.
    exact (proj1 (extract_clear uuid4_hex (name rule) (statement rule) k0)).
  - intros i y Hi. now apply elem_of_nil in Hi.
Qed.

(** * Further properties *)

(** ** Integers *)

Lemma int_rstrip_app_space (s : string) (c : ascii) :
  Py.int_isspace c = true ->
  Py.int_rstrip (s ++ String c "") = Py.int_rstrip s.
Proof.
  intros Hc. induction s as [|a s IH]; simpl.
  - now rewrite Hc.
  - now rewrite IH.
Qed.

Lemma int_lstrip_app_space (s : string) (c : ascii) :
  Py.int_isspace c = true ->
  Py.int_lstrip (s ++ String c "")
  = match Py.int_lstrip s with
    | EmptyString => EmptyString
    | t => t ++ String c ""
    end.
Proof.
  intros Hc. induction s as [|a s IH]; simpl.
  - now rewrite Hc.
  - destruct (Py.int_isspace a); [exact IH | reflexivity].
Qed.

Lemma int_strip_app_space (s : string) (c : ascii) :
  Py.int_isspace c = true ->
  Py.int_strip (s ++ String c "") = Py.int_strip s.
Proof.
  intros Hc. unfold Py.int_strip. rewrite (int_lstrip_app_space s c Hc).
  destruct (Py.int_lstrip s) as [|a t] eqn:E; [reflexivity |].
  now rewrite int_rstrip_app_space.
Qed.

Lemma int_isspace_not_0x (c : ascii) :
  Py.int_isspace c = true ->
  Ascii.eqb "0" c = false /\ Ascii.eqb "x" c = false.
Proof.
  destruct c as [[] [] [] [] [] [] [] []]; try discriminate; now split.
Qed.

Lemma startswith_0x_app_space (s : string) (c : ascii) :
  Py.int_isspace c = true ->
  Py.startswith "0x" (s ++ String c "") = Py.startswith "0x" s.
Proof.
  intros Hc. destruct (int_isspace_not_0x c Hc) as [H0 Hx].
  destruct s as [|a [|b s]]; cbn [String.append Py.startswith].
  - now rewrite H0.
  - rewrite Hx. reflexivity.
  - reflexivity.
Qed.

Lemma int_rstrip_head (c : ascii) (r : string) :
  Py.int_isspace c = false ->
  exists r', Py.int_rstrip (String c r) = String c r'.
Proof.
  intros Hc. simpl. destruct (Py.int_rstrip r); [rewrite Hc |]; eauto.
Qed.

(** The separators 28 to 31 are the characters that [str.strip] removes
    and [int] does not skip. *)
Lemma separator_cases (c : ascii) :
  Py.isspace c = true -> Py.int_isspace c = false ->
  Py.digit_value c = None /\ Ascii.eqb c "_" = false.
Proof.
  destruct c as [[] [] [] [] [] [] [] []]; try discriminate; now split.
Qed.

Lemma ends_in_tail (c a : ascii) (t : string) :
  ends_in c (String a t) -> ends_in c t.
Proof.
  intros [H | [w H]]; [discriminate H |].
  destruct w as [|b w]; simpl in H; injection H as _ H.
  - now left.
  - right. now exists w.
Qed.

Lemma int_rstrip_ends_in (c : ascii) (s : string) :
  Py.int_isspace c = false ->
  Py.int_rstrip (s ++ String c "") = s ++ String c "".
Proof.
  intros Hc. induction s as [|a s IH]; simpl.
  - now rewrite Hc.
  - rewrite IH. now destruct s.
Qed.

Lemma int_lstrip_ends_in (c : ascii) (s : string) :
  Py.int_isspace c = false ->
  exists w, Py.int_lstrip (s ++ String c "") = w ++ String c "".
Proof.
  intros Hc. induction s as [|a s IH]; simpl.
  - rewrite Hc. now exists "".
  - destruct (Py.int_isspace a); [exact IH | now exists (String a s)].
Qed.

Lemma more_digits_ends_in (c : ascii) (base : Z) (t : string) :
  Py.digit_value c = None -> Ascii.eqb c "_" = false ->
  (forall acc, Py.more_digits base acc (t ++ String c "") = None)
  /\ (forall a acc,
        Py.more_digits base acc (String a (t ++ String c "")) = None).
Proof.
  intros Hd Hu.
  assert (Hc : Py.digit base c = None) by (unfold Py.digit; now rewrite Hd).
  induction t as [|b t [IH1 IH2]].
  - assert (H1 : forall acc, Py.more_digits base acc (String c "") = None).
    { intros acc. simpl. now rewrite Hu, Hc. }
    split; [exact H1 |]. intros a acc.
    cbn [String.append Py.more_digits].
    destruct (Ascii.eqb a "_").
    + now rewrite Hc.
    + destruct (Py.digit base a); [apply H1 | reflexivity].
  - split; [intros acc; apply IH2 |]. intros a acc.
    cbn [String.append Py.more_digits].
    destruct (Ascii.eqb a "_").
    + destruct (Py.digit base b); [apply IH1 | reflexivity].
    + destruct (Py.digit base a); [apply IH2 | reflexivity].
Qed.

Lemma digits_ends_in (c : ascii) (base : Z) (t : string) :
  Py.digit_value c = None -> Ascii.eqb c "_" = false ->
  ends_in c t -> Py.digits base t = None.
Proof.
  intros Hd Hu [-> | [w ->]]; [reflexivity |].
  destruct w as [|a w]; cbn [String.append Py.digits].
  - unfold Py.digit. now rewrite Hd.
  - destruct (Py.digit base a); [| reflexivity].
    apply (more_digits_ends_in c base w Hd Hu).
Qed.

Lemma int_sign_cases (t : string) :
  exists neg u,
    match t with
    | String "-" t' => (true, t')
    | String "+" t' => (false, t')
    | _ => (false, t)
    end = (neg, u)
    /\ (u = t \/ exists a, t = String a u).
Proof.
  destruct t as [|a t]; [now exists false, ""; split; [| left] |].
  destruct a as [[] [] [] [] [] [] [] []];
    (do 2 eexists; split; [reflexivity |]);
    first [now left | right; eexists; reflexivity].
Qed.

Lemma int_prefix_cases (c : ascii) (base : Z) (t : string) :
  ends_in c t ->
  ends_in c
    (if (base =? 16) && (Py.startswith "0x" t || Py.startswith "0X" t) then
       match Py.drop 2 t with
       | String "_" t' => t'
       | t' => t'
       end
     else t).
Proof.
  intros Ht.
  destruct ((base =? 16) && (Py.startswith "0x" t || Py.startswith "0X" t));
    [| exact Ht].
  destruct t as [|a [|b t]]; cbn [Py.drop]; [now left | now left |].
  apply ends_in_tail, ends_in_tail in Ht.
  destruct t as [|d t]; [exact Ht |].
  pose proof (ends_in_tail _ _ _ Ht) as Ht'.
  destruct d as [[] [] [] [] [] [] [] []]; first [exact Ht | exact Ht'].
Qed.

Lemma int_ends_in (c : ascii) (base : Z) (s : string) :
  Py.int_isspace c = false -> Py.digit_value c = None ->
  Ascii.eqb c "_" = false ->
  Py.int (s ++ String c "") base = None.
Proof.
  intros Hc Hd Hu. unfold Py.int, Py.int_strip.
  destruct (int_lstrip_ends_in c s Hc) as [w ->].
  rewrite (int_rstrip_ends_in c w Hc).
  destruct (int_sign_cases (w ++ String c "")) as (neg & u & -> & Hcase).
  assert (Hends : ends_in c u).
  { destruct Hcase as [-> | [a E]].
    - right. now exists w.
    - apply (ends_in_tail c a). rewrite <- E. right. now exists w. }
  now rewrite (digits_ends_in c base _ Hd Hu (int_prefix_cases c base u Hends)).
Qed.

(** X1: [parse_int] ignores the white space of [int] after the number
    (tab to carriage return and the space): appending such a character
    changes neither the value nor the failure. The separators 28 to 31,
    which [str.strip] removes, are not skipped: a text that ends in one
    of them is no integer. *)
Theorem parse_int_trailing_space (s : string) (c : ascii) :
  (Py.int_isspace c = true -> parse_int (s ++ String c "") = parse_int s)
  /\ (Py.isspace c = true -> Py.int_isspace c = false ->
      parse_int (s ++ String c "") = Raise ValueError).
Proof.
  split.
  - intros Hc. unfold parse_int, Py.int.
    now rewrite (startswith_0x_app_space s c Hc), (int_strip_app_space s c Hc).
  - intros Hs Hc. destruct (separator_cases c Hs Hc) as [Hd Hu].
    unfold parse_int.
    rewrite !(int_ends_in c _ s Hc Hd Hu). now destruct (Py.startswith _ _).
Qed.

Lemma parse_int_trailing_space_witness :
  parse_int ("0x4550" ++ " ") = parse_int "0x4550"
  /\ parse_int "0x4550" = Ok 17744
  /\ parse_int ("0x4550" ++ String (ascii_of_nat 28) "") = Raise ValueError
  /\ Py.strip ("0x4550" ++ String (ascii_of_nat 28) "") = "0x4550".
Proof.
  split; [| split; [| split]].
  - apply (parse_int_trailing_space "0x4550" " "). reflexivity.
  - reflexivity.
  - apply (parse_int_trailing_space "0x4550" (ascii_of_nat 28)); reflexivity.
  - reflexivity.
Defined.

(** X2: the hexadecimal form is recognised only by a lower-case [0x] at the
    very start of the text: white space or a sign before it, or an
    upper-case [0X], make [parse_int] fail. *)
Theorem parse_int_hex_prefix_strict (t : string) :
  parse_int (" 0x" ++ t) = Raise ValueError
  /\ parse_int ("-0x" ++ t) = Raise ValueError
  /\ parse_int ("+0x" ++ t) = Raise ValueError
  /\ parse_int ("0X" ++ t) = Raise ValueError.
Proof.
  assert (Hx : forall x, Py.int_isspace x = false ->
            exists w, Py.int_rstrip (String x t) = String x w).
  { intros x. apply int_rstrip_head. }
  destruct (Hx "x"%char eq_refl) as [w Hw].
  destruct (Hx "X"%char eq_refl) as [w' Hw'].
  assert (H0 : Py.int_rstrip (String "0" (String "x" t)) = String "0" (String "x" w)).
  { change (Py.int_rstrip (String "0" (String "x" t)))
      with (match Py.int_rstrip (String "x" t) with
            | EmptyString => String "0" EmptyString
            | u => String "0" u
            end).
    now rewrite Hw. }
  assert (H0' : Py.int_rstrip (String "0" (String "X" t)) = String "0" (String "X" w')).
  { change (Py.int_rstrip (String "0" (String "X" t)))
      with (match Py.int_rstrip (String "X" t) with
            | EmptyString => String "0" EmptyString
            | u => String "0" u
            end).
    now rewrite Hw'. }
  assert (Hs : forall x, Py.int_isspace x = false ->
            Py.int_rstrip (String x (String "0" (String "x" t)))
            = String x (String "0" (String "x" w))).
  { intros x Hx0.
    change (Py.int_rstrip (String x (String "0" (String "x" t))))
      with (match Py.int_rstrip (String "0" (String "x" t)) with
            | EmptyString => if Py.int_isspace x then EmptyString
                             else String x EmptyString
            | u => String x u
            end).
    now rewrite H0. }
  repeat split; unfold parse_int, Py.int, Py.int_strip; simpl Py.startswith;
    cbv iota; simpl Py.int_lstrip.
  - rewrite H0. reflexivity.
  - rewrite (Hs "-"%char eq_refl). reflexivity.
  - rewrite (Hs "+"%char eq_refl). reflexivity.
  - rewrite H0'. reflexivity.
Qed.

(** ** Feature keys *)

Lemma substring_skip (p s : string) (m : nat) :
  substring (String.length p) m (p ++ s) = substring 0 m s.
Proof. induction p as [|a p IH]; simpl; [reflexivity | exact IH]. Qed.

Lemma slice_between (p n q : string) :
  Py.slice (String.length p) (String.length q) (p ++ n ++ q) = n.
Proof.
  unfold Py.slice. rewrite substring_skip, !str_length_app.
  replace (String.length p + (String.length n + String.length q)
           - String.length q - String.length p)%nat
    with (String.length n) by lia.
  apply str_take_app.
Qed.

Lemma app_last_char (p t u : string) (c : ascii) :
  p ++ t = u ++ String c "" -> t <> "" -> exists t', t = t' ++ String c "".
Proof.
  revert u. induction p as [|a p IH]; intros u H Ht.
  - exists u. exact H.
  - destruct u as [|b u]; simpl in H.
    + injection H as _ H. destruct p; [| discriminate].
      simpl in H. subst t. now contradiction Ht.
    + injection H as _ H. exact (IH u H Ht).
Qed.

Lemma parse_feature_of_characteristic (n : string) :
  parse_feature ("characteristic(" ++ n ++ ")") = Ok (CharacteristicOf n).
Proof.
  assert (He : Py.endswith ")" ("characteristic(" ++ n ++ ")") = true).
  { rewrite <- str_app_assoc. apply endswith_app. }
  unfold parse_feature.
  rewrite (startswith_app "characteristic(" (n ++ ")")), He.
  now rewrite (slice_between "characteristic(" n ")" : Py.slice 15 1 _ = _).
Qed.

(** X3: the key [characteristic(n)] is read back as the characteristic named
    [n], whatever [n] is, and no other key yields a characteristic. *)
Theorem parse_feature_characteristic (key n : string) :
  parse_feature ("characteristic(" ++ n ++ ")") = Ok (CharacteristicOf n)
  /\ (parse_feature key = Ok (CharacteristicOf n) ->
      key = "characteristic(" ++ n ++ ")").
Proof.
  assert (Hsl : forall m, Py.slice 15 1 ("characteristic(" ++ m ++ ")") = m).
  { intros m. exact (slice_between "characteristic(" m ")"). }
  split; [apply parse_feature_of_characteristic |].
  unfold parse_feature.
    repeat match goal with
           | |- (if String.eqb ?a ?b then _ else _) = _ -> _ =>
               destruct (String.eqb a b); [discriminate |]
           end.
    destruct (Py.startswith "characteristic(" key) eqn:Hs; simpl;
      [destruct (Py.endswith ")" key) eqn:He |].
    + intros H. injection H as H.
      apply startswith_spec in Hs as [t Ht].
      apply endswith_spec in He as [u Hu].
      assert (Hne : t <> "").
      { intros ->. subst key. rewrite str_app_nil_r in Hu.
        assert (E : "characteristic" ++ String "("%char ""
                    = u ++ String ")"%char "") by exact Hu.
        apply last_char_inj in E. discriminate. }
      rewrite Ht in Hu.
      destruct (app_last_char _ _ _ _ Hu Hne) as [t' Ht'].
      subst t key.
      rewrite Hsl in H. now subst.
    + repeat match goal with
             | |- (if String.eqb ?a ?b then _ else _) = _ -> _ =>
                 destruct (String.eqb a b); [discriminate |]
             end.
      discriminate.
    + repeat match goal with
             | |- (if String.eqb ?a ?b then _ else _) = _ -> _ =>
                 destruct (String.eqb a b); [discriminate |]
             end.
      discriminate.
Qed.

Lemma parse_feature_characteristic_witness :
  "characteristic(nzxor)" = "characteristic(" ++ "nzxor" ++ ")".
Proof.
  apply (proj2 (parse_feature_characteristic "characteristic(nzxor)" "nzxor")).
  reflexivity.
Defined.

(** ** Features and scopes *)

Lemma class_in_types (c : FeatureClass) (l : list FeatureClass) :
  is_type c = true ->
  class_in c (List.filter (fun t => is_type t) l) = class_in c l.
Proof.
  intros Hc. unfold class_in. induction l as [|x l IH]; [reflexivity |].
  simpl. destruct (is_type x) eqn:Hx; simpl.
  - now rewrite IH.
  - rewrite IH. destruct (bool_decide (c = x)) eqn:E; [| reflexivity].
    apply bool_decide_eq_true in E. subst x. congruence.
Qed.

Lemma ensure_feature_valid_for_scope_cases (fs : Feature -> string)
    (scope : string) (f : Feature) :
  ensure_feature_valid_for_scope fs scope f
  = match SUPPORTED_FEATURES scope with
    | None => Raise KeyError
    | Some _ =>
        if supported scope (cls f) then Ok tt
        else Raise (InvalidRule ("feature " ++ fs f
                                 ++ " not support for scope " ++ scope))
    end.
Proof.
  unfold ensure_feature_valid_for_scope, supported.
  destruct (SUPPORTED_FEATURES scope) as [l|]; [| reflexivity].
  destruct (cls f) eqn:E;
    try (rewrite class_in_types by reflexivity);
    match goal with |- context [class_in ?c l] => destruct (class_in c l) end;
    reflexivity.
Qed.

Lemma ensure_feature_valid_for_scope_ok (fs : Feature -> string)
    (scope : string) (f : Feature) :
  ensure_feature_valid_for_scope fs scope f = Ok tt <->
  supported scope (cls f) = true.
Proof.
  rewrite ensure_feature_valid_for_scope_cases. unfold supported.
  destruct (SUPPORTED_FEATURES scope) as [l|]; [| split; discriminate].
  destruct (class_in (cls f) l); split; congruence.
Qed.

(** ** Statements are built for their scope *)

Lemma Value_ind_nested (P : Value -> Prop) :
  P VNone -> (forall b, P (VBool b)) -> (forall z, P (VInt z)) ->
  (forall s, P (VStr s)) -> (forall b, P (VBytes b)) ->
  (forall l, Forall P l -> P (VList l)) ->
  (forall d, Forall (fun kv => P kv.2) d -> P (VDict d)) ->
  forall v, P v.
Proof.
  intros HN HB HI HS HY HL HD.
  fix IH 1. intros [|b|z|s|b|l|d].
  - apply HN.
  - apply HB.
  - apply HI.
  - apply HS.
  - apply HY.
  - apply HL. revert l. fix IHl 1. intros [|x l]; constructor;
      [apply IH | apply IHl].
  - apply HD. revert d. fix IHd 1. intros [|[k x] d]; constructor;
      [apply IH | apply IHd].
Qed.

Lemma bind_Ok {A B} (m : result A) (k : A -> result B) (b : B) :
  bind m k = Ok b -> exists a, m = Ok a /\ k a = Ok b.
Proof. destruct m as [a|e]; simpl; [eauto | discriminate]. Qed.

Lemma build_each_Forall (build : Value -> result Statement)
    (R : Statement -> bool) (l : list Value) (cs : list Statement) :
  Forall (fun dd => forall st, build dd = Ok st -> R st = true) l ->
  build_each build l = Ok cs -> forallb R cs = true.
Proof.
  intros Hl. revert cs. induction Hl as [|dd l Hdd _ IH]; intros cs H.
  - injection H as <-. reflexivity.
  - simpl in H. apply bind_Ok in H as (s & Hs & H).
    apply bind_Ok in H as (ss & Hss & H). injection H as <-.
    simpl. rewrite (Hdd s Hs), (IH ss Hss). reflexivity.
Qed.

Lemma iterate_other_Ok (v : Value) (cs : list Statement) :
  iterate_other v = Ok cs -> cs = [].
Proof.
  destruct v as [| | |[|]|[|]|l|[|]]; simpl; intros H;
    try discriminate; now injection H.
Qed.

Lemma count_range_Ok (f : Feature) (v : Value) (st : Statement) :
  count_range f v = Ok st -> exists lo hi, st = Range f lo hi.
Proof.
  destruct v; simpl; try discriminate.
  - intros H. injection H as <-. eauto.
  - intros H. injection H as <-. eauto.
  - repeat match goal with
           | |- (if ?b then _ else _) = _ -> _ => destruct b
           end; intros H; try discriminate;
      apply bind_Ok in H as (x & _ & H); injection H as <-; eauto.
Qed.

Lemma count_feature_supported (MAX : Z) (fs : Feature -> string)
    (term scope : string) (f : Feature) :
  count_feature MAX fs term scope = Ok f -> supported scope (cls f) = true.
Proof.
  unfold count_feature.
  destruct (Py.startswith "characteristic(" term).
  - intros H. apply bind_Ok in H as (F & _ & H).
    apply bind_Ok in H as (g & _ & H).
    apply bind_Ok in H as ([] & Hv & H). injection H as <-.
    now apply ensure_feature_valid_for_scope_ok in Hv.
  - destruct (Py.partition "(" term) as [[t ?] arg].
    intros H. apply bind_Ok in H as (F & _ & H).
    apply bind_Ok in H as (g & _ & H).
    apply bind_Ok in H as ([] & Hv & H). injection H as <-.
    now apply ensure_feature_valid_for_scope_ok in Hv.
Qed.

Section Scoped.

Variable MAX_BYTES_FEATURE_SIZE : Z.
Variable feature_str : Feature -> string.
Variable regex_compiles : string -> bool.

Abbreviation build :=
  (build_statements MAX_BYTES_FEATURE_SIZE feature_str regex_compiles).

Lemma build_statements_plain_scoped (key scope : string) (v : Value)
    (st : Statement) :
  (F <- parse_feature key ;;
   feature <-
     (if String.eqb key "number" || String.eqb key "offset"
         || String.eqb key "bytes" then
        vs <- parse_symbol MAX_BYTES_FEATURE_SIZE v key ;;
        construct F [fst vs; snd vs]
      else construct F [v]) ;;
   _ <- ensure_feature_valid_for_scope feature_str scope feature ;;
   Ok (Leaf feature)) = Ok st ->
  scoped scope st = true.
Proof.
  intros H. apply bind_Ok in H as (F & _ & H).
  apply bind_Ok in H as (g & _ & H).
  apply bind_Ok in H as ([] & Hv & H). injection H as <-.
  now apply ensure_feature_valid_for_scope_ok in Hv.
Qed.

Lemma build_statements_scoped_children (v : Value) :
  (forall scope st, build v scope = Ok st -> scoped scope st = true)
  /\ (forall l, v = VList l ->
        Forall (fun dd => forall scope st,
                  build dd scope = Ok st -> scoped scope st = true) l).
Proof.
  induction v as [| | | | |l IHl|d IHd] using Value_ind_nested;
    try (split; [intros scope st H; discriminate H | intros l' E; discriminate E]).
  - split; [intros scope st H; discriminate H |].
    intros l' E. injection E as <-.
    eapply Forall_impl; [exact IHl |]. intros dd [Hdd _]. exact Hdd.
  - split; [| intros l' E; discriminate E].
    intros scope st H.
    destruct d as [|[key v] [|]]; try discriminate H.
    apply Forall_inv in IHd. destruct IHd as [_ IHv]. simpl in IHv.
    assert (Hch : forall sc cs,
               match v with
               | VList l => build_each (fun dd => build dd sc) l
               | _ => iterate_other v
               end = Ok cs -> forallb (scoped sc) cs = true).
    { intros sc cs Hcs. destruct v as [| | | | |l|];
        try (apply iterate_other_Ok in Hcs; subst cs; reflexivity).
      eapply build_each_Forall; [| exact Hcs].
      eapply Forall_impl; [exact (IHv l eq_refl) |].
      intros dd Hdd st'. apply Hdd. }
    assert (Hone : forall sc c,
               match v with
               | VList l => build_each (fun dd => build dd sc) l
               | _ => iterate_other v
               end = Ok [c] -> scoped sc c = true).
    { intros sc c Hc. apply Hch in Hc. simpl in Hc.
      now apply andb_true_iff in Hc as [Hc _]. }
    cbn [build_statements] in H.
    change (fix each (l : list Value) : result (list Statement) :=
              match l with
              | [] => Ok []
              | dd :: l' =>
                  s <- build dd ?sc ;; ss <- each l' ;; Ok (s :: ss)
              end)
      with (build_each (fun dd => build dd sc)) in H.
    destruct (String.eqb key "and").
    { apply bind_Ok in H as (cs & Hcs & H). injection H as <-.
      exact (Hch _ _ Hcs). }
    destruct (String.eqb key "or").
    { apply bind_Ok in H as (cs & Hcs & H). injection H as <-.
      exact (Hch _ _ Hcs). }
    destruct (String.eqb key "not").
    { apply bind_Ok in H as (n & _ & H).
      destruct (negb (Nat.eqb n 1)); [discriminate H |].
      apply bind_Ok in H as (cs & Hcs & H).
      destruct cs as [|c [|]]; try discriminate H. injection H as <-.
      exact (Hone _ _ Hcs). }
    destruct (Py.endswith " or more" key).
    { destruct (Py.int (Py.slice 0 7 key) 10); [| discriminate H].
      apply bind_Ok in H as (cs & Hcs & H). injection H as <-.
      exact (Hch _ _ Hcs). }
    destruct (String.eqb key "optional").
    { apply bind_Ok in H as (cs & Hcs & H). injection H as <-.
      exact (Hch _ _ Hcs). }
    destruct (String.eqb key "function").
    { destruct (String.eqb scope FILE_SCOPE) eqn:Hsc; [| discriminate H].
      simpl in H. apply bind_Ok in H as (n & _ & H).
      destruct (negb (Nat.eqb n 1)); [discriminate H |].
      apply bind_Ok in H as (cs & Hcs & H).
      destruct cs as [|c [|]]; try discriminate H. injection H as <-.
      cbn [scoped]. rewrite Hsc, (Hone _ _ Hcs). reflexivity. }
    destruct (String.eqb key "basic block").
    { destruct (String.eqb scope FUNCTION_SCOPE) eqn:Hsc; [| discriminate H].
      simpl in H. apply bind_Ok in H as (n & _ & H).
      destruct (negb (Nat.eqb n 1)); [discriminate H |].
      apply bind_Ok in H as (cs & Hcs & H).
      destruct cs as [|c [|]]; try discriminate H. injection H as <-.
      cbn [scoped]. rewrite Hsc, (Hone _ _ Hcs).
      now rewrite orb_true_r. }
    destruct (Py.startswith "count(" key && Py.endswith ")" key).
    { apply bind_Ok in H as (f & Hf & H).
      apply count_range_Ok in H as (lo & hi & ->).
      exact (count_feature_supported _ _ _ _ _ Hf). }
    destruct (String.eqb key "string").
    { destruct v as [| | |t| | |]; try discriminate H.
      destruct (Py.startswith "/" t && (Py.endswith "/" t || Py.endswith "/i" t)).
      - destruct (regex_compiles t); [| discriminate H].
        injection H as <-. reflexivity.
      - exact (build_statements_plain_scoped _ _ _ _ H). }
    exact (build_statements_plain_scoped _ _ _ _ H).
Qed.

(** X4: a statement that [build_statements] returns is scoped for the scope
    it was built for: every feature in it passed the check of the scope it
    is evaluated in, and subscopes nest as file, function, basic block. *)
Theorem build_statements_scoped (d : Value) (scope : string)
    (st : Statement) :
  build d scope = Ok st -> scoped scope st = true.
Proof. apply build_statements_scoped_children. Qed.

Lemma scoped_no_subscope (sc : string) (st : Statement) :
  sc <> FILE_SCOPE -> sc <> FUNCTION_SCOPE ->
  scoped sc st = true -> has_subscope st = false.
Proof.
  intros Hf Hg. induction st using Statement_ind_nested;
    cbn [scoped has_subscope]; intros Hs; try reflexivity; auto.
  - induction H as [|c cs Hc _ IH]; [reflexivity |]. simpl in *.
    apply andb_true_iff in Hs as [H1 H2]. now rewrite Hc, IH.
  - induction H as [|c cs Hc _ IH]; [reflexivity |]. simpl in *.
    apply andb_true_iff in Hs as [H1 H2]. now rewrite Hc, IH.
  - induction H as [|c cs Hc _ IH]; [reflexivity |]. simpl in *.
    apply andb_true_iff in Hs as [H1 H2]. now rewrite Hc, IH.
  - apply String.eqb_neq in Hf, Hg. rewrite Hf, Hg in Hs. discriminate.
Qed.

(** X5: under basic block scope [build_statements] never returns a statement
    with a subscope in it, and under function scope no subscope it returns
    holds another one. *)
Theorem build_statements_subscope_depth (d : Value) (st : Statement) :
  (build d BASIC_BLOCK_SCOPE = Ok st -> has_subscope st = false)
  /\ (forall sc c,
        build d FUNCTION_SCOPE = Ok (Subscope sc c) ->
        sc = BASIC_BLOCK_SCOPE /\ has_subscope c = false).
Proof.
  split.
  - intros H. apply (proj1 (build_statements_scoped_children d)) in H.
    now apply (scoped_no_subscope BASIC_BLOCK_SCOPE).
  - intros sc c H. apply (proj1 (build_statements_scoped_children d)) in H.
    cbn [scoped] in H.
    apply andb_true_iff in H as [H1 H2]. simpl in H1.
    apply String.eqb_eq in H1. subst sc. split; [reflexivity |].
    now apply (scoped_no_subscope BASIC_BLOCK_SCOPE).
Qed.

Lemma eqb_length (a b : string) :
  String.length a <> String.length b -> String.eqb a b = false.
Proof. intros H. apply String.eqb_neq. intros ->. now apply H. Qed.

(** X6: a key [<n> or more] whose count reads as zero builds what [optional]
    builds, and one whose count is no integer ends in a [ValueError]. *)
Theorem build_statements_optional_alias (t : string) (v : Value)
    (scope : string) :
  (Py.int t 10 = Some 0 ->
   build (VDict [(t ++ " or more", v)]) scope
   = build (VDict [("optional", v)]) scope)
  /\ (Py.int t 10 = None ->
      build (VDict [(t ++ " or more", v)]) scope = Raise ValueError).
Proof.
  assert (Hlen : forall k, (String.length k < 8)%nat ->
            String.eqb (t ++ " or more") k = false).
  { intros k Hk. apply eqb_length. rewrite str_length_app. simpl. lia. }
  assert (He : Py.endswith " or more" (t ++ " or more") = true)
    by apply endswith_app.
  assert (Hs : Py.int (Py.slice 0 7 (t ++ " or more")) 10 = Py.int t 10).
  { replace (t ++ " or more") with ((t ++ " ") ++ "or more")
      by (rewrite str_app_assoc; reflexivity).
    pose proof (slice_suffix (t ++ " ") "or more") as E.
    cbn [String.length] in E. rewrite E.
    unfold Py.int. now rewrite (int_strip_app_space t " " eq_refl). }
  split; intros Hi; cbn [build_statements];
    rewrite !Hlen by (simpl; lia); rewrite He, Hs, Hi; reflexivity.
Qed.

End Scoped.

Lemma build_statements_subscope_depth_witness :
  has_subscope mov = false.
Proof.
  apply (proj1 (build_statements_subscope_depth 256 (fun _ => "")
                  (fun _ => true) mnemonic_mov mov)).
  reflexivity.
Defined.

Lemma build_statements_scoped_witness :
  scoped "function" (And [mov]) = true.
Proof.
  apply (build_statements_scoped 256 (fun _ => "") (fun _ => true)
           (VDict [("and", VList [mnemonic_mov])]) "function").
  reflexivity.
Defined.

Lemma build_statements_optional_alias_witness :
  build_statements 256 (fun _ => "") (fun _ => true)
    (VDict [(" 0" ++ " or more", VList [mnemonic_mov])]) "function"
  = build_statements 256 (fun _ => "") (fun _ => true)
      (VDict [("optional", VList [mnemonic_mov])]) "function".
Proof.
  apply (proj1 (build_statements_optional_alias 256 (fun _ => "") (fun _ => true)
                  " 0" (VList [mnemonic_mov]) "function")). reflexivity.
Defined.

(** ** The feature table *)

Lemma class_in_spec (c : FeatureClass) (l : list FeatureClass) :
  class_in c l = true <-> In c l.
Proof.
  unfold class_in. rewrite existsb_exists. split.
  - intros (x & Hx & E). apply bool_decide_eq_true in E. now subst.
  - intros H. exists c. split; [exact H | now apply bool_decide_eq_true].
Qed.

Lemma parse_feature_class (key : string) (c : FeatureClass) :
  parse_feature key = Ok (Class c) ->
  (key, c) ∈ [ ("api", API); ("string", String_); ("bytes", Bytes);
               ("number", Number); ("offset", Offset);
               ("mnemonic", Mnemonic); ("basic blocks", BasicBlock);
               ("export", Export); ("import", Import);
               ("section", Section_); ("match", MatchedRule) ].
Proof.
  unfold parse_feature.
  repeat match goal with
         | |- (if String.eqb ?a ?b then _ else _) = _ -> _ =>
             destruct (String.eqb_spec a b);
             [subst; intros H; injection H as <-;
              repeat (first [apply list_elem_of_here
                            | apply list_elem_of_further]) |]
         | |- (if ?b then _ else _) = _ -> _ =>
             destruct b; [discriminate |]
         end.
  discriminate.
Qed.

(** X7: the keys of [parse_feature] and the table of supported features are
    in step: a feature class that a key names is listed for some scope, a
    feature class that some scope lists is named by a key, and a
    characteristic that some scope lists is named by its
    [characteristic(...)] key. *)
Theorem parse_feature_in_sync :
  (forall key c, parse_feature key = Ok (Class c) ->
     is_type c = true /\ exists scope, supported scope c = true)
  /\ (forall scope c, supported scope c = true -> is_type c = true ->
        exists key, parse_feature key = Ok (Class c))
  /\ (forall scope n, supported scope (Characteristic n) = true ->
        parse_feature ("characteristic(" ++ n ++ ")")
        = Ok (CharacteristicOf n)).
Proof.
  split; [| split].
  - intros key c H. apply parse_feature_class in H.
    repeat (apply elem_of_cons in H as [H | H];
            [injection H as -> ->; split; [reflexivity |];
             first [now exists FUNCTION_SCOPE | now exists FILE_SCOPE] |]).
    now apply elem_of_nil in H.
  - intros scope c _ Hc. destruct c; try discriminate Hc.
    + now exists "api".
    + now exists "string".
    + now exists "bytes".
    + now exists "number".
    + now exists "offset".
    + now exists "mnemonic".
    + now exists "basic blocks".
    + now exists "export".
    + now exists "import".
    + now exists "section".
    + now exists "match".
  - intros scope n _. apply parse_feature_of_characteristic.
Qed.

Lemma parse_feature_in_sync_witness :
  exists key, parse_feature key = Ok (Class Export).
Proof.
  apply (proj1 (proj2 parse_feature_in_sync) "file" Export); reflexivity.
Defined.

(** X8: a feature that passes the check for basic block scope passes it for
    function scope too, unless it is the [tight loop] characteristic; and
    with a scope that is none of the three the check ends in a [KeyError]
    whatever the feature. *)
Theorem ensure_feature_valid_for_scope_widens (fs : Feature -> string)
    (scope : string) (f : Feature) :
  (ensure_feature_valid_for_scope fs BASIC_BLOCK_SCOPE f = Ok tt ->
   cls f <> Characteristic "tight loop" ->
   ensure_feature_valid_for_scope fs FUNCTION_SCOPE f = Ok tt)
  /\ (scope <> FILE_SCOPE -> scope <> FUNCTION_SCOPE ->
      scope <> BASIC_BLOCK_SCOPE ->
      ensure_feature_valid_for_scope fs scope f = Raise KeyError).
Proof.
  split.
  - rewrite !ensure_feature_valid_for_scope_ok. unfold supported.
    cbn [SUPPORTED_FEATURES String.eqb Ascii.eqb Bool.eqb FILE_SCOPE
         FUNCTION_SCOPE BASIC_BLOCK_SCOPE].
    rewrite !class_in_spec. intros H Hne.
    repeat (destruct H as [H | H];
            [rewrite <- H in *; first [contradiction | simpl; tauto] |]).
    destruct H.
  - intros H1 H2 H3. rewrite ensure_feature_valid_for_scope_cases.
    unfold SUPPORTED_FEATURES.
    apply String.eqb_neq in H1, H2, H3. now rewrite H1, H2, H3.
Qed.

Lemma ensure_feature_valid_for_scope_widens_witness :
  ensure_feature_valid_for_scope (fun _ => "") FUNCTION_SCOPE
    (mkFeature (Characteristic "nzxor") [VBool true]) = Ok tt.
Proof.
  apply (proj1 (ensure_feature_valid_for_scope_widens (fun _ => "") ""
                  (mkFeature (Characteristic "nzxor") [VBool true])));
    [reflexivity | discriminate].
Defined.



(** ** Rules read from a document *)

(** X10: a rule that [Rule.from_dict] returns carries the given definition
    text and the [meta] mapping of the document, its name is the [name]
    entry of that mapping, its scope the [scope] entry or [function] when
    there is none, and its statement is scoped for that scope. *)
Theorem from_dict_rule (MAX : Z) (fs : Feature -> string)
    (rc : string -> bool) (d : Value) (s : string) (r : Rule) :
  from_dict MAX fs rc d s = Ok r ->
  bind (getitem d "rule") (fun rule => getitem rule "meta")
  = Ok (VDict (meta r))
  /\ definition r = s
  /\ dict_get (meta r) "name" = Some (VStr (name r))
  /\ match dict_get (meta r) "scope" with
     | Some v => v = VStr (scope r)
     | None => scope r = FUNCTION_SCOPE
     end
  /\ scoped (scope r) (statement r) = true.
Proof.
  unfold from_dict. intros H.
  apply bind_Ok in H as (rule & Hrule & H). rewrite Hrule. cbn [bind].
  apply bind_Ok in H as (m & Hm & H). rewrite Hm.
  apply bind_Ok in H as (nm & Hnm & H).
  apply bind_Ok in H as (sc & Hsc & H).
  apply bind_Ok in H as (sts & _ & H).
  apply bind_Ok in H as (n & _ & H).
  destruct (negb (Nat.eqb n 1)); [discriminate H |].
  apply bind_Ok in H as (first & _ & H). cbn [isinstance_Subscope] in H.
  apply bind_Ok in H as (sc' & Hsc' & H).
  apply bind_Ok in H as (st & Hst & H).
  apply bind_Ok in H as (nm' & Hnm' & H).
  destruct m as [| | | | | |m]; try discriminate H. injection H as <-.
  cbn [meta definition name scope statement].
  destruct sc; try discriminate Hsc'. injection Hsc' as ->.
  destruct nm; try discriminate Hnm'. injection Hnm' as ->.
  split; [reflexivity |]. split; [reflexivity |]. split; [| split].
  - simpl in Hnm. destruct (dict_get m "name"); [| discriminate Hnm].
    now injection Hnm as ->.
  - destruct (dict_get m "scope"); now injection Hsc as ->.
  - exact (proj1 (build_statements_scoped_children _ _ _ _) _ _ Hst).
Qed.

Lemma from_dict_rule_witness :
  scoped (scope nested_subscope_rule) (statement nested_subscope_rule) = true.
Proof.
  apply (from_dict_rule 256 (fun _ => "") (fun _ => true)
           nested_subscope_doc "" nested_subscope_rule).
  reflexivity.
Defined.

(** ** Direct dependencies *)

Lemma set_add_NoDup (x : string) (s : list string) :
  NoDup s -> NoDup (set_add x s).
Proof.
  intros Hs. unfold set_add. destruct (existsb (String.eqb x) s) eqn:E;
    [exact Hs |].
  apply NoDup_app. split; [exact Hs |]. split; [| apply NoDup_singleton].
  intros y Hy Hx. apply list_elem_of_singleton in Hx. subst y.
  apply set_mem_spec in Hy. unfold set_mem in Hy. congruence.
Qed.

Lemma deps_of_feature_spec (f : Feature) (deps : list string) (n : string) :
  n ∈ deps_of_feature f deps <->
  n ∈ deps \/ bool_decide (rule_name f = Some n) = true.
Proof.
  unfold deps_of_feature. destruct (rule_name f) as [m|].
  - rewrite set_add_spec, bool_decide_eq_true. split.
    + intros [-> | H]; auto.
    + intros [H | H]; [auto | injection H as ->; auto].
  - rewrite bool_decide_eq_true. split; [auto | intros [H | H]; [auto | discriminate]].
Qed.

Lemma get_dependencies_rec_spec (st : Statement) :
  forall deps n,
    n ∈ get_dependencies_rec st deps <-> n ∈ deps \/ refers n st = true.
Proof.
  assert (Hfold : forall cs,
            Forall (fun c => forall deps n,
                      n ∈ get_dependencies_rec c deps
                      <-> n ∈ deps \/ refers n c = true) cs ->
            forall deps n,
              n ∈ fold_left (fun deps child => get_dependencies_rec child deps)
                    cs deps
              <-> n ∈ deps \/ existsb (refers n) cs = true).
  { induction 1 as [|c cs Hc _ IH]; intros deps n; simpl.
    - split; [auto | intros [H | H]; [auto | discriminate]].
    - rewrite IH, Hc, orb_true_iff. tauto. }
  induction st using Statement_ind_nested; intros deps nm;
    cbn [get_dependencies_rec refers]; auto using deps_of_feature_spec.
  split; [auto | intros [H | H]; [auto | discriminate]].
Qed.

Lemma get_dependencies_rec_NoDup (st : Statement) :
  forall deps, NoDup deps -> NoDup (get_dependencies_rec st deps).
Proof.
  assert (Hfold : forall cs,
            Forall (fun c => forall deps,
                      NoDup deps -> NoDup (get_dependencies_rec c deps)) cs ->
            forall deps, NoDup deps ->
              NoDup (fold_left
                       (fun deps child => get_dependencies_rec child deps)
                       cs deps)).
  { induction 1 as [|c cs Hc _ IH]; intros deps Hd; simpl; auto. }
  assert (Hf : forall f deps, NoDup deps -> NoDup (deps_of_feature f deps)).
  { intros f deps Hd. unfold deps_of_feature.
    destruct (rule_name f); [now apply set_add_NoDup | exact Hd]. }
  induction st using Statement_ind_nested; intros deps Hd;
    cbn [get_dependencies_rec]; auto.
Qed.

Lemma get_dependencies_refers (r : Rule) (n : string) :
  n ∈ get_dependencies r <-> refers n (statement r) = true.
Proof.
  unfold get_dependencies. rewrite get_dependencies_rec_spec. split; [| auto].
  intros [H | H]; [now apply elem_of_nil in H | exact H].
Qed.

(** X11: [Rule.get_dependencies] returns, each once, exactly the rule names
    that a match reference anywhere in the statement of the rule carries,
    subscopes included. *)
Theorem get_dependencies_spec (r : Rule) :
  NoDup (get_dependencies r)
  /\ forall n, n ∈ get_dependencies r <-> refers n (statement r) = true.
Proof.
  split; [| apply get_dependencies_refers].
  apply get_dependencies_rec_NoDup. constructor.
Qed.

(** ** The shape of an extraction *)

Section ExtractionShape.

Variable uuid4_hex : nat -> string.
Variable self_name : string.

Abbreviation rec := (_extract_subscope_rules_rec uuid4_hex self_name).
Abbreviation replaced := (replaced_child uuid4_hex self_name).
Abbreviation result_of := (child_result uuid4_hex self_name).

Lemma replaced_child_mono (new new' : list Rule) (c c1 : Statement) :
  (forall r, r ∈ new -> r ∈ new') ->
  replaced new c c1 -> replaced new' c c1.
Proof.
  intros Hsub. destruct c; simpl; auto.
  intros (j & E & Hj). eauto.
Qed.

Lemma child_result_mono
    (f : Statement -> nat -> Statement * list Rule * nat)
    (new new' : list Rule) (c c' : Statement) :
  (forall r, r ∈ new -> r ∈ new') ->
  result_of f new c c' -> result_of f new' c c'.
Proof.
  intros Hsub. destruct c; simpl;
    intros (k & E & Hk); exists k; (split; [exact E | auto]).
Qed.

Lemma replace_subscopes_shape (cs : list Statement) (k : nat) :
  let res := replace_subscopes uuid4_hex self_name cs k in
  Forall2 (replaced res.1.2) cs res.1.1
  /\ forall r, r ∈ res.1.2 ->
       exists j sc x,
         Subscope sc x ∈ cs /\ r = subscope_rule uuid4_hex self_name j sc x
         /\ Leaf (MatchedRule_ (name r)) ∈ res.1.1.
Proof.
  revert k. induction cs as [|c cs IH]; intros k.
  { split; [constructor | intros r Hr; now apply elem_of_nil in Hr]. }
  destruct c as [| | | | | |sc0 c0|];
    try (cbn [replace_subscopes]; specialize (IH k);
         destruct (replace_subscopes uuid4_hex self_name cs k)
           as [[cs1 new1] k1];
         cbn [fst snd] in *; destruct IH as [IH1 IH2];
         split; [constructor; [reflexivity | exact IH1] |];
         intros r Hr; destruct (IH2 r Hr) as (j & sc & x & Hx & -> & Hl);
         exists j, sc, x;
         split; [now apply list_elem_of_further |];
         split; [reflexivity | now apply list_elem_of_further]).
  cbn [replace_subscopes]. specialize (IH (S k)).
  destruct (replace_subscopes uuid4_hex self_name cs (S k))
    as [[cs1 new1] k1].
  cbn [fst snd] in *. destruct IH as [IH1 IH2]. split.
  - constructor.
    + exists k. split; [reflexivity | apply list_elem_of_here].
    + eapply Forall2_impl; [exact IH1 |]. intros a b.
      apply replaced_child_mono. intros r. apply list_elem_of_further.
  - intros r Hr. apply elem_of_cons in Hr as [-> | Hr].
    + exists k, sc0, c0. split; [apply list_elem_of_here |].
      split; [reflexivity | apply list_elem_of_here].
    + destruct (IH2 r Hr) as (j & sc & x & Hx & -> & Hl).
      exists j, sc, x. split; [now apply list_elem_of_further |].
      split; [reflexivity | now apply list_elem_of_further].
Qed.

Lemma recurse_children_shape
    (f : Statement -> nat -> Statement * list Rule * nat)
    (orig repl : list Statement) (new1 : list Rule) (k : nat) :
  (forall x k, f (Leaf x) k = (Leaf x, [], k)) ->
  Forall2 (replaced new1) orig repl ->
  let res := recurse_children f orig repl k in
  Forall2 (result_of f (new1 ++ res.1.2)) orig res.1.1
  /\ (forall x, Leaf x ∈ repl -> Leaf x ∈ res.1.1)
  /\ forall r, r ∈ res.1.2 ->
       exists c kc,
         c ∈ orig /\ is_Subscope c = false /\ r ∈ (f c kc).1.2
         /\ (f c kc).1.1 ∈ res.1.1.
Proof.
  intros Hleaf H2. revert k.
  induction H2 as [|c c1 orig repl Hc _ IH]; intros k.
  { cbn. split; [constructor |]. split; [auto |].
    intros r Hr. now apply elem_of_nil in Hr. }
  cbn [recurse_children]. destruct (is_Subscope c) eqn:Es.
  - specialize (IH k).
    destruct (recurse_children f orig repl k) as [[cs2 new2] k2].
    cbn [fst snd app] in *. destruct IH as (IH1 & IH2 & IH3).
    split; [| split].
    + constructor; [| exact IH1].
      destruct c; try discriminate Es. destruct Hc as (j & -> & Hj).
      exists j. split; [reflexivity |]. apply elem_of_app. now left.
    + intros x Hx. apply elem_of_cons in Hx as [Hx | Hx].
      * rewrite <- Hx. apply list_elem_of_here.
      * apply list_elem_of_further. now apply IH2.
    + intros r Hr. destruct (IH3 r Hr) as (c0 & kc & H0 & Hn & Hy & Hz).
      exists c0, kc. split; [now apply list_elem_of_further |].
      split; [exact Hn |]. split; [exact Hy |].
      now apply list_elem_of_further.
  - assert (Ec : c1 = c) by (destruct c; try discriminate Es; exact Hc).
    subst c1.
    destruct (f c k) as [[c2 n2] k2] eqn:Ef. specialize (IH k2).
    destruct (recurse_children f orig repl k2) as [[cs2 new2] k3].
    cbn [fst snd] in *. destruct IH as (IH1 & IH2 & IH3).
    split; [| split].
    + constructor.
      * assert (R : result_of f n2 c c2).
        { destruct c; try discriminate Es;
            (exists k; rewrite Ef; split; [reflexivity | auto]). }
        eapply child_result_mono; [| exact R]. intros r Hr.
        apply elem_of_app. right. apply elem_of_app. now left.
      * eapply Forall2_impl; [exact IH1 |]. intros a b.
        apply child_result_mono. intros r Hr.
        apply elem_of_app in Hr as [Hr | Hr]; apply elem_of_app;
          [now left | right; apply elem_of_app; now right].
    + intros x Hx. apply elem_of_cons in Hx as [Hx | Hx].
      * subst c. rewrite Hleaf in Ef. injection Ef as <- _ _.
        apply list_elem_of_here.
      * apply list_elem_of_further. now apply IH2.
    + intros r Hr. apply elem_of_app in Hr as [Hr | Hr].
      * exists c, k. rewrite Ef. cbn [fst snd].
        split; [apply list_elem_of_here |]. split; [exact Es |].
        split; [exact Hr | apply list_elem_of_here].
      * destruct (IH3 r Hr) as (c0 & kc & H0 & Hn & Hy & Hz).
        exists c0, kc. split; [now apply list_elem_of_further |].
        split; [exact Hn |]. split; [exact Hy |].
        now apply list_elem_of_further.
Qed.

Lemma extract_children_shape
    (f : Statement -> nat -> Statement * list Rule * nat)
    (cs : list Statement) (k : nat) :
  (forall x k, f (Leaf x) k = (Leaf x, [], k)) ->
  let res := extract_children uuid4_hex f self_name cs k in
  Forall2 (result_of f res.1.2) cs res.1.1
  /\ forall r, r ∈ res.1.2 ->
       yielded_from uuid4_hex self_name f cs res.1.1 r.
Proof.
  intros Hleaf. unfold extract_children.
  pose proof (replace_subscopes_shape cs k) as [H1 H2].
  destruct (replace_subscopes uuid4_hex self_name cs k) as [[cs1 new1] k1].
  cbn [fst snd] in *.
  pose proof (recurse_children_shape f cs cs1 new1 k1 Hleaf H1)
    as (H3 & H4 & H5).
  destruct (recurse_children f cs cs1 k1) as [[cs2 new2] k2].
  cbn [fst snd] in *. split; [exact H3 |].
  intros r Hr. apply elem_of_app in Hr as [Hr | Hr].
  - left. destruct (H2 r Hr) as (j & sc & x & Hx & -> & Hl).
    exists j, sc, x. split; [exact Hx |]. split; [reflexivity |].
    now apply H4.
  - right. exact (H5 r Hr).
Qed.

Lemma rec_Leaf (x : Feature) (k : nat) : rec (Leaf x) k = (Leaf x, [], k).
Proof. reflexivity. Qed.

Lemma existsb_elem {A} (f : A -> bool) (l : list A) :
  existsb f l = true <-> exists x, x ∈ l /\ f x = true.
Proof.
  rewrite existsb_exists. split; intros (x & Hx & Hf); exists x;
    (split; [now apply list_elem_of_In | exact Hf]).
Qed.

Lemma forallb_elem {A} (f : A -> bool) (l : list A) :
  forallb f l = true <-> forall x, x ∈ l -> f x = true.
Proof.
  rewrite forallb_forall. split; intros H x Hx; apply H;
    now apply list_elem_of_In.
Qed.

Lemma Forall2_elem_l {A B} (R : A -> B -> Prop) (l : list A) (l' : list B)
    (x : A) :
  Forall2 R l l' -> x ∈ l -> exists y, y ∈ l' /\ R x y.
Proof.
  induction 1 as [|a b l l' Hab _ IH]; intros Hx;
    [now apply elem_of_nil in Hx |].
  apply elem_of_cons in Hx as [-> | Hx].
  - exists b. split; [apply list_elem_of_here | exact Hab].
  - destruct (IH Hx) as (y & Hy & Hr). exists y.
    split; [now apply list_elem_of_further | exact Hr].
Qed.

Lemma Forall2_elem_r {A B} (R : A -> B -> Prop) (l : list A) (l' : list B)
    (y : B) :
  Forall2 R l l' -> y ∈ l' -> exists x, x ∈ l /\ R x y.
Proof.
  induction 1 as [|a b l l' Hab _ IH]; intros Hy;
    [now apply elem_of_nil in Hy |].
  apply elem_of_cons in Hy as [-> | Hy].
  - exists a. split; [apply list_elem_of_here | exact Hab].
  - destruct (IH Hy) as (x & Hx & Hr). exists x.
    split; [now apply list_elem_of_further | exact Hr].
Qed.

Lemma refers_match (n m : string) :
  refers n (Leaf (MatchedRule_ m)) = true <-> n = m.
Proof.
  cbn. rewrite bool_decide_eq_true. split; [intros H; now injection H | now intros ->].
Qed.

(** *** Dependencies across an extraction *)

Lemma children_refers (cs cs' : list Statement) (new : list Rule) :
  Forall (fun c => forall k, refers_kept c (rec c k)) cs ->
  Forall2 (result_of rec new) cs cs' ->
  (forall r, r ∈ new -> yielded_from uuid4_hex self_name rec cs cs' r) ->
  (forall r, r ∈ new -> existsb (refers (name r)) cs' = true)
  /\ (forall n, existsb (refers n) cs = true ->
        existsb (refers n) cs' = true
        \/ exists r, r ∈ new /\ refers n (statement r) = true)
  /\ (forall n, existsb (refers n) cs' = true ->
        existsb (refers n) cs = true \/ exists r, r ∈ new /\ n = name r).
Proof.
  intros IH H2 Hy. rewrite Forall_forall in IH. split; [| split].
  - intros r Hr. apply existsb_elem.
    destruct (Hy r Hr) as [(j & sc & x & _ & _ & Hl) | (c & kc & Hc & _ & Hn & Hl)].
    + exists (Leaf (MatchedRule_ (name r))). split; [exact Hl |].
      now apply refers_match.
    + exists (rec c kc).1.1. split; [exact Hl |].
      now apply (IH c Hc kc).
  - intros n Hn. apply existsb_elem in Hn as (c & Hc & Hn).
    destruct (Forall2_elem_l _ _ _ _ H2 Hc) as (c' & Hc' & R).
    destruct (is_Subscope c) eqn:Es.
    + destruct c; try discriminate Es. destruct R as (j & -> & Hj).
      right. eexists. split; [exact Hj | exact Hn].
    + assert (R' : exists kc, c' = (rec c kc).1.1
                     /\ forall r, r ∈ (rec c kc).1.2 -> r ∈ new)
        by (destruct c; try discriminate Es; exact R).
      destruct R' as (kc & -> & Hsub).
      destruct (proj1 (proj2 (IH c Hc kc)) n Hn) as [H | (r & Hr & H)].
      * left. apply existsb_elem. eauto.
      * right. exists r. split; [now apply Hsub | exact H].
  - intros n Hn. apply existsb_elem in Hn as (c' & Hc' & Hn).
    destruct (Forall2_elem_r _ _ _ _ H2 Hc') as (c & Hc & R).
    destruct (is_Subscope c) eqn:Es.
    + destruct c; try discriminate Es. destruct R as (j & -> & Hj).
      right. eexists. split; [exact Hj |]. now apply refers_match in Hn.
    + assert (R' : exists kc, c' = (rec c kc).1.1
                     /\ forall r, r ∈ (rec c kc).1.2 -> r ∈ new)
        by (destruct c; try discriminate Es; exact R).
      destruct R' as (kc & -> & Hsub).
      destruct (proj2 (proj2 (IH c Hc kc)) n Hn) as [H | (r & Hr & H)].
      * left. apply existsb_elem. eauto.
      * right. exists r. split; [now apply Hsub | exact H].
Qed.

Lemma extract_children_refers (cs : list Statement) (k : nat) :
  Forall (fun c => forall k, refers_kept c (rec c k)) cs ->
  let res := extract_children uuid4_hex rec self_name cs k in
  (forall r, r ∈ res.1.2 -> existsb (refers (name r)) res.1.1 = true)
  /\ (forall n, existsb (refers n) cs = true ->
        existsb (refers n) res.1.1 = true
        \/ exists r, r ∈ res.1.2 /\ refers n (statement r) = true)
  /\ (forall n, existsb (refers n) res.1.1 = true ->
        existsb (refers n) cs = true
        \/ exists r, r ∈ res.1.2 /\ n = name r).
Proof.
  intros IH res.
  destruct (extract_children_shape rec cs k rec_Leaf) as [H1 H2].
  exact (children_refers cs res.1.1 res.1.2 IH H1 H2).
Qed.

Lemma extract_child_refers (c : Statement) (k : nat) :
  (forall k, refers_kept c (rec c k)) ->
  refers_kept c (extract_child uuid4_hex rec self_name c k).
Proof.
  intros IH. destruct c; try exact (IH k).
  cbn [extract_child]. split; [| split]; cbn [fst snd].
  - intros r Hr. apply list_elem_of_singleton in Hr. subst r.
    now apply refers_match.
  - intros n Hn. right. eexists. split; [apply list_elem_of_here | exact Hn].
  - intros n Hn. right. eexists. split; [apply list_elem_of_here |].
    now apply refers_match in Hn.
Qed.

Lemma extract_refers (st : Statement) (k : nat) : refers_kept st (rec st k).
Proof.
  revert k. induction st using Statement_ind_nested; intros k;
    cbn [_extract_subscope_rules_rec].
  - pose proof (extract_children_refers cs k H) as Hc.
    destruct (extract_children _ _ _ cs k) as [[cs' new] k']. exact Hc.
  - pose proof (extract_children_refers cs k H) as Hc.
    destruct (extract_children _ _ _ cs k) as [[cs' new] k']. exact Hc.
  - pose proof (extract_child_refers st k IHst) as Hc.
    destruct (extract_child _ _ _ st k) as [[c' new] k']. exact Hc.
  - pose proof (extract_children_refers cs k H) as Hc.
    destruct (extract_children _ _ _ cs k) as [[cs' new] k']. exact Hc.
  - split; [| split]; cbn [fst snd]; auto.
    intros r Hr. now apply elem_of_nil in Hr.
  - split; [| split]; cbn [fst snd]; auto.
    intros r Hr. now apply elem_of_nil in Hr.
  - pose proof (extract_child_refers st k IHst) as Hc.
    destruct (extract_child _ _ _ st k) as [[c' new] k']. exact Hc.
  - split; [| split]; cbn [fst snd]; auto.
    intros r Hr. now apply elem_of_nil in Hr.
Qed.

(** *** Scopes across an extraction *)

Lemma scoped_subscope (sc0 sc : string) (x : Statement) :
  scoped sc0 (Subscope sc x) = true ->
  supported sc0 MatchedRule = true /\ scoped sc x = true.
Proof.
  cbn [scoped]. intros H. apply andb_true_iff in H as [H1 H2].
  split; [| exact H2]. apply orb_true_iff in H1 as [H1 | H1];
    apply andb_true_iff in H1 as [H1 _]; apply String.eqb_eq in H1;
    subst sc0; reflexivity.
Qed.

Lemma children_scoped (sc0 : string) (cs cs' : list Statement)
    (new : list Rule) :
  Forall (fun c => forall k, scoped sc0 c = true ->
            scoped sc0 (rec c k).1.1 = true
            /\ forall r, r ∈ (rec c k).1.2 ->
                 scoped (scope r) (statement r) = true) cs ->
  Forall2 (result_of rec new) cs cs' ->
  (forall r, r ∈ new -> yielded_from uuid4_hex self_name rec cs cs' r) ->
  forallb (scoped sc0) cs = true ->
  forallb (scoped sc0) cs' = true
  /\ forall r, r ∈ new -> scoped (scope r) (statement r) = true.
Proof.
  intros IH H2 Hy Hs. rewrite Forall_forall in IH.
  rewrite forallb_elem in Hs. split.
  - apply forallb_elem. intros c' Hc'.
    destruct (Forall2_elem_r _ _ _ _ H2 Hc') as (c & Hc & R).
    destruct (is_Subscope c) eqn:Es.
    + destruct c; try discriminate Es. destruct R as (j & -> & _).
      exact (proj1 (scoped_subscope _ _ _ (Hs _ Hc))).
    + assert (R' : exists kc, c' = (rec c kc).1.1
                     /\ forall r, r ∈ (rec c kc).1.2 -> r ∈ new)
        by (destruct c; try discriminate Es; exact R).
      destruct R' as (kc & -> & _). exact (proj1 (IH c Hc kc (Hs c Hc))).
  - intros r Hr.
    destruct (Hy r Hr) as [(j & sc & x & Hx & -> & _) | (c & kc & Hc & _ & Hn & _)].
    + exact (proj2 (scoped_subscope _ _ _ (Hs _ Hx))).
    + exact (proj2 (IH c Hc kc (Hs c Hc)) r Hn).
Qed.

Lemma extract_child_scoped (sc0 : string) (c : Statement) (k : nat) :
  (forall k, scoped sc0 c = true ->
     scoped sc0 (rec c k).1.1 = true
     /\ forall r, r ∈ (rec c k).1.2 ->
          scoped (scope r) (statement r) = true) ->
  scoped sc0 c = true ->
  let res := extract_child uuid4_hex rec self_name c k in
  scoped sc0 res.1.1 = true
  /\ forall r, r ∈ res.1.2 -> scoped (scope r) (statement r) = true.
Proof.
  intros IH Hs. destruct c; try exact (IH k Hs).
  cbn [extract_child fst snd]. apply scoped_subscope in Hs as [H1 H2].
  split; [exact H1 |]. intros r Hr. apply list_elem_of_singleton in Hr.
  now subst r.
Qed.

Lemma extract_scoped (st : Statement) :
  forall (sc0 : string) (k : nat),
    scoped sc0 st = true ->
    scoped sc0 (rec st k).1.1 = true
    /\ forall r, r ∈ (rec st k).1.2 ->
         scoped (scope r) (statement r) = true.
Proof.
  induction st using Statement_ind_nested; intros sc0 k Hs;
    cbn [_extract_subscope_rules_rec].
  - destruct (extract_children_shape rec cs k rec_Leaf) as [H1 H2].
    assert (IH : Forall (fun c => forall k, scoped sc0 c = true ->
                   scoped sc0 (rec c k).1.1 = true
                   /\ forall r, r ∈ (rec c k).1.2 ->
                        scoped (scope r) (statement r) = true) cs).
    { eapply Forall_impl; [exact H |]. intros c Hc k0. apply Hc. }
    pose proof (children_scoped sc0 cs _ _ IH H1 H2 Hs) as Hc.
    destruct (extract_children _ _ _ cs k) as [[cs' new] k']. exact Hc.
  - destruct (extract_children_shape rec cs k rec_Leaf) as [H1 H2].
    assert (IH : Forall (fun c => forall k, scoped sc0 c = true ->
                   scoped sc0 (rec c k).1.1 = true
                   /\ forall r, r ∈ (rec c k).1.2 ->
                        scoped (scope r) (statement r) = true) cs).
    { eapply Forall_impl; [exact H |]. intros c Hc k0. apply Hc. }
    pose proof (children_scoped sc0 cs _ _ IH H1 H2 Hs) as Hc.
    destruct (extract_children _ _ _ cs k) as [[cs' new] k']. exact Hc.
  - pose proof (extract_child_scoped sc0 st k (fun k0 => IHst sc0 k0) Hs) as Hc.
    destruct (extract_child _ _ _ st k) as [[c' new] k']. exact Hc.
  - destruct (extract_children_shape rec cs k rec_Leaf) as [H1 H2].
    assert (IH : Forall (fun c => forall k, scoped sc0 c = true ->
                   scoped sc0 (rec c k).1.1 = true
                   /\ forall r, r ∈ (rec c k).1.2 ->
                        scoped (scope r) (statement r) = true) cs).
    { eapply Forall_impl; [exact H |]. intros c Hc k0. apply Hc. }
    pose proof (children_scoped sc0 cs _ _ IH H1 H2 Hs) as Hc.
    destruct (extract_children _ _ _ cs k) as [[cs' new] k']. exact Hc.
  - split; [exact Hs |]. intros r Hr. now apply elem_of_nil in Hr.
  - split; [exact Hs |]. intros r Hr. now apply elem_of_nil in Hr.
  - cbn [scoped] in Hs. apply andb_true_iff in Hs as [Hs1 Hs2].
    pose proof (extract_child_scoped sc st k (fun k0 => IHst sc k0) Hs2) as Hc.
    destruct (extract_child _ _ _ st k) as [[c' new] k'].
    cbn [fst snd scoped] in *. rewrite Hs1. exact Hc.
  - split; [exact Hs |]. intros r Hr. now apply elem_of_nil in Hr.
Qed.

(** *** Names of the rules yielded *)

Abbreviation numbered_ := (numbered uuid4_hex self_name).

Lemma numbered_nil {X} (x : X) (k : nat) : numbered_ k (x, [], k).
Proof.
  split; cbn [fst snd]; [simpl; lia | intros i r H; discriminate H].
Qed.

Lemma numbered_app {X Y Z} (x : X) (y : Y) (z : Z) (n1 n2 : list Rule)
    (k k1 k2 : nat) :
  numbered_ k (x, n1, k1) -> numbered_ k1 (y, n2, k2) ->
  numbered_ k (z, (n1 ++ n2)%list, k2).
Proof.
  intros [E1 H1] [E2 H2]. cbn [fst snd] in *. split; cbn [fst snd].
  - rewrite length_app. lia.
  - intros i r Hi. apply lookup_app_Some in Hi as [Hi | [Hl Hi]].
    + exact (H1 i r Hi).
    + destruct (H2 _ r Hi) as (sc & c & ->). exists sc, c.
      f_equal. lia.
Qed.

Lemma replace_subscopes_numbered (cs : list Statement) (k : nat) :
  numbered_ k (replace_subscopes uuid4_hex self_name cs k).
Proof.
  revert k. induction cs as [|c cs IH]; intros k; [apply numbered_nil |].
  destruct c;
    try (cbn [replace_subscopes]; specialize (IH k);
         destruct (replace_subscopes uuid4_hex self_name cs k)
           as [[cs1 new1] k1]; exact IH).
  cbn [replace_subscopes]. specialize (IH (S k)).
  destruct (replace_subscopes uuid4_hex self_name cs (S k))
    as [[cs1 new1] k1].
  destruct IH as [E H]. cbn [fst snd] in *. split.
  - simpl. lia.
  - intros [|i] r Hi.
    + injection Hi as <-. rewrite Nat.add_0_r. eauto.
    + destruct (H i r Hi) as (sc & x & ->). exists sc, x. f_equal. lia.
Qed.

Lemma recurse_children_numbered
    (f : Statement -> nat -> Statement * list Rule * nat)
    (orig repl : list Statement) (k : nat) :
  Forall (fun c => forall k, numbered_ k (f c k)) orig ->
  numbered_ k (recurse_children f orig repl k).
Proof.
  intros Hf. revert repl k. induction Hf as [|c orig Hc _ IH];
    intros repl k; [apply numbered_nil |].
  destruct repl as [|c1 repl]; [apply numbered_nil |].
  cbn [recurse_children]. destruct (is_Subscope c).
  - specialize (IH repl k).
    destruct (recurse_children f orig repl k) as [[cs2 new2] k2]. exact IH.
  - specialize (Hc k). destruct (f c k) as [[c2 n2] k2].
    specialize (IH repl k2).
    destruct (recurse_children f orig repl k2) as [[cs2 new2] k3].
    exact (numbered_app _ _ _ _ _ _ _ _ Hc IH).
Qed.

Lemma extract_children_numbered
    (f : Statement -> nat -> Statement * list Rule * nat)
    (cs : list Statement) (k : nat) :
  Forall (fun c => forall k, numbered_ k (f c k)) cs ->
  numbered_ k (extract_children uuid4_hex f self_name cs k).
Proof.
  intros Hf. unfold extract_children.
  pose proof (replace_subscopes_numbered cs k) as H1.
  destruct (replace_subscopes uuid4_hex self_name cs k) as [[cs1 new1] k1].
  pose proof (recurse_children_numbered f cs cs1 k1 Hf) as H2.
  destruct (recurse_children f cs cs1 k1) as [[cs2 new2] k2].
  exact (numbered_app _ _ _ _ _ _ _ _ H1 H2).
Qed.

Lemma extract_child_numbered
    (f : Statement -> nat -> Statement * list Rule * nat)
    (c : Statement) (k : nat) :
  (forall k, numbered_ k (f c k)) ->
  numbered_ k (extract_child uuid4_hex f self_name c k).
Proof.
  intros Hf. destruct c; try exact (Hf k).
  cbn [extract_child]. split; cbn [fst snd]; [simpl; lia |].
  intros [|i] r Hi; [| discriminate Hi].
  injection Hi as <-. rewrite Nat.add_0_r. eauto.
Qed.

Lemma extract_numbered (st : Statement) (k : nat) : numbered_ k (rec st k).
Proof.
  revert k. induction st using Statement_ind_nested; intros k;
    cbn [_extract_subscope_rules_rec];
    try apply numbered_nil.
  - pose proof (extract_children_numbered rec cs k H) as Hc.
    destruct (extract_children _ _ _ cs k) as [[cs' new] k']. exact Hc.
  - pose proof (extract_children_numbered rec cs k H) as Hc.
    destruct (extract_children _ _ _ cs k) as [[cs' new] k']. exact Hc.
  - pose proof (extract_child_numbered rec st k IHst) as Hc.
    destruct (extract_child _ _ _ st k) as [[c' new] k']. exact Hc.
  - pose proof (extract_children_numbered rec cs k H) as Hc.
    destruct (extract_children _ _ _ cs k) as [[cs' new] k']. exact Hc.
  - pose proof (extract_child_numbered rec st k IHst) as Hc.
    destruct (extract_child _ _ _ st k) as [[c' new] k']. exact Hc.
Qed.

(** *** A second extraction *)

Lemma replace_subscopes_none (cs : list Statement) (k : nat) :
  Forall (fun c => is_Subscope c = false) cs ->
  replace_subscopes uuid4_hex self_name cs k = (cs, [], k).
Proof.
  induction 1 as [|c cs Hc _ IH]; [reflexivity |].
  destruct c; try discriminate Hc; cbn [replace_subscopes];
    now rewrite IH.
Qed.

Lemma recurse_children_none
    (f : Statement -> nat -> Statement * list Rule * nat)
    (cs : list Statement) (k : nat) :
  Forall (fun c => forall k, f c k = (c, [], k)) cs ->
  recurse_children f cs cs k = (cs, [], k).
Proof.
  induction 1 as [|c cs Hc _ IH]; [reflexivity |].
  cbn [recurse_children]. destruct (is_Subscope c); now rewrite ?Hc, IH.
Qed.

Lemma has_subscope_root (c : Statement) :
  has_subscope c = false -> is_Subscope c = false.
Proof. destruct c; auto. Qed.

Lemma extract_children_none
    (f : Statement -> nat -> Statement * list Rule * nat)
    (cs : list Statement) (k : nat) :
  Forall (fun c => has_subscope c = false) cs ->
  Forall (fun c => has_subscope c = false -> forall k, f c k = (c, [], k)) cs ->
  extract_children uuid4_hex f self_name cs k = (cs, [], k).
Proof.
  intros Hc Hf. unfold extract_children.
  rewrite replace_subscopes_none
    by (eapply Forall_impl; [exact Hc |]; apply has_subscope_root).
  rewrite recurse_children_none; [reflexivity |].
  rewrite Forall_forall in *. intros c Hin. apply Hf; auto.
Qed.

Lemma has_subscope_existsb (cs : list Statement) :
  existsb has_subscope cs = false ->
  Forall (fun c => has_subscope c = false) cs.
Proof.
  induction cs as [|c cs IH]; simpl; [constructor |].
  intros H. apply orb_false_iff in H as [H1 H2]. constructor; auto.
Qed.

Lemma extract_none (st : Statement) :
  has_subscope st = false -> forall k, rec st k = (st, [], k).
Proof.
  induction st using Statement_ind_nested; cbn [has_subscope];
    intros Hs k; cbn [_extract_subscope_rules_rec]; try reflexivity;
    try discriminate Hs.
  - now rewrite extract_children_none by auto using has_subscope_existsb.
  - now rewrite extract_children_none by auto using has_subscope_existsb.
  - destruct st; try discriminate Hs; cbn [extract_child];
      now rewrite IHst.
  - now rewrite extract_children_none by auto using has_subscope_existsb.
Qed.

Lemma extract_clean (st : Statement) (k : nat) :
  Forall (fun c => has_subscope c = false) (get_children st) ->
  rec st k = (st, [], k).
Proof.
  intros Hc.
  assert (Hf : forall cs, Forall (fun c => has_subscope c = false ->
                  forall k, rec c k = (c, [], k)) cs).
  { intros cs. apply Forall_forall. intros c _. apply extract_none. }
  destruct st; cbn [get_children] in Hc; cbn [_extract_subscope_rules_rec];
    try reflexivity;
    try (now rewrite extract_children_none by auto).
  - apply Forall_inv in Hc. destruct st; try discriminate Hc;
      cbn [extract_child]; now rewrite extract_none.
  - apply Forall_inv in Hc. destruct st; try discriminate Hc;
      cbn [extract_child]; now rewrite extract_none.
Qed.

End ExtractionShape.

Lemma str_app_inv_head (a b c : string) : a ++ b = a ++ c -> b = c.
Proof.
  induction a as [|x a IH]; simpl; [auto |]. intros H. injection H as H.
  auto.
Qed.

Lemma set_statement_same (r : Rule) : set_statement r (statement r) = r.
Proof. now destruct r. Qed.

(** X12: the rules that [Rule.extract_subscope_rules] yields are named, one
    after the other, by the names generated from the rule's own name; each
    is marked as a library rule, records the rule it comes from under
    [capa/parent], and has its own name and scope in its metadata. When the
    names generated during the call differ from one another, so do the names
    of the rules yielded. *)
Theorem extract_subscope_rules_yields (uuid4_hex : nat -> string)
    (self : Rule) (k : nat) :
  let res := _extract_subscope_rules_rec uuid4_hex (name self)
               (statement self) k in
  res.2 = (k + List.length res.1.2)%nat
  /\ (forall i r, res.1.2 !! i = Some r ->
        name r = name self ++ "/" ++ uuid4_hex (k + i)%nat
        /\ is_lib r = true
        /\ dict_get (meta r) "capa/parent" = Some (VStr (name self))
        /\ dict_get (meta r) "name" = Some (VStr (name r))
        /\ dict_get (meta r) "scope" = Some (VStr (scope r)))
  /\ ((forall i j,
         (i < List.length res.1.2)%nat -> (j < List.length res.1.2)%nat ->
         uuid4_hex (k + i)%nat = uuid4_hex (k + j)%nat -> i = j) ->
      NoDup (map name res.1.2)).
Proof.
  intros res.
  destruct (extract_numbered uuid4_hex (name self) (statement self) k)
    as [E H].
  fold res in E, H. split; [exact E |]. split.
  - intros i r Hi. destruct (H i r Hi) as (sc & x & ->). now cbn.
  - intros Hinj. apply NoDup_alt. intros i j n Hi Hj.
    change (map name res.1.2) with (name <$> res.1.2) in Hi, Hj.
    rewrite list_lookup_fmap in Hi, Hj.
    destruct (res.1.2 !! i) as [ri|] eqn:Ei; [| discriminate Hi].
    destruct (res.1.2 !! j) as [rj|] eqn:Ej; [| discriminate Hj].
    destruct (H i ri Ei) as (sc & x & ->).
    destruct (H j rj Ej) as (sc' & x' & ->).
    cbn in Hi, Hj. injection Hi as Hi. injection Hj as Hj.
    rewrite <- Hj in Hi. unfold subscope_rule_name in Hi.
    apply str_app_inv_head in Hi.
    apply (str_app_inv_head "/") in Hi.
    apply Hinj; [now apply lookup_lt_Some in Ei
                | now apply lookup_lt_Some in Ej | exact Hi].
Qed.

Lemma extract_subscope_rules_yields_witness :
  NoDup (map name
           (_extract_subscope_rules_rec (fun _ => "0")
              (name nested_subscope_rule)
              (statement nested_subscope_rule) 0).1.2).
Proof.
  apply (extract_subscope_rules_yields (fun _ => "0") nested_subscope_rule 0).
  cbn. intros i j Hi Hj _. lia.
Defined.

(** X13: after [Rule.extract_subscope_rules] the rule depends on every rule
    that was yielded; each of its former dependencies is a dependency of the
    rule or of a rule yielded; and its only new dependencies are the rules
    yielded. *)
Theorem extract_subscope_rules_dependencies (uuid4_hex : nat -> string)
    (self : Rule) (k : nat) :
  let res := _extract_subscope_rules_rec uuid4_hex (name self)
               (statement self) k in
  let self' := set_statement self res.1.1 in
  (forall r, r ∈ res.1.2 -> name r ∈ get_dependencies self')
  /\ (forall n, n ∈ get_dependencies self ->
        n ∈ get_dependencies self'
        \/ exists r, r ∈ res.1.2 /\ n ∈ get_dependencies r)
  /\ (forall n, n ∈ get_dependencies self' ->
        n ∈ get_dependencies self \/ n ∈ map name res.1.2).
Proof.
  intros res self'.
  destruct (extract_refers uuid4_hex (name self) (statement self) k)
    as (H1 & H2 & H3).
  fold res in H1, H2, H3. split; [| split].
  - intros r Hr. apply get_dependencies_refers. now apply H1.
  - intros n Hn. apply get_dependencies_refers in Hn.
    destruct (H2 n Hn) as [H | (r & Hr & H)].
    + left. now apply get_dependencies_refers.
    + right. exists r. split; [exact Hr | now apply get_dependencies_refers].
  - intros n Hn. apply get_dependencies_refers in Hn.
    destruct (H3 n Hn) as [H | (r & Hr & ->)].
    + left. now apply get_dependencies_refers.
    + right. change (map name res.1.2) with (name <$> res.1.2).
      apply list_elem_of_fmap. now exists r.
Qed.

(** [Rule.extract_subscope_rules] keeps a rule within its scope: when
    the statement of a rule is scoped for the scope of the rule, so it
    is afterwards, and so is every rule yielded for its own scope. *)
Theorem extract_subscope_rules_scoped (uuid4_hex : nat -> string)
    (self : Rule) (k : nat) :
  scoped (scope self) (statement self) = true ->
  let res := _extract_subscope_rules_rec uuid4_hex (name self)
               (statement self) k in
  scoped (scope self) res.1.1 = true
  /\ forall r, r ∈ res.1.2 -> scoped (scope r) (statement r) = true.
Proof. intros H res. now apply extract_scoped. Qed.

Lemma extract_subscope_rules_scoped_witness :
  scoped "file"
    (_extract_subscope_rules_rec (fun _ => "0") "r"
       (statement nested_subscope_rule) 0).1.1 = true.
Proof.
  apply (extract_subscope_rules_scoped (fun _ => "0") nested_subscope_rule 0).
  reflexivity.
Defined.

(** A second extraction on a rule finds nothing: it yields no rule,
    generates no name and leaves the statement as the first one made
    it. *)
Theorem extract_subscope_rules_twice (u1 u2 : nat -> string)
    (n1 n2 : string) (st : Statement) (k1 k2 : nat) :
  let st' := (_extract_subscope_rules_rec u1 n1 st k1).1.1 in
  _extract_subscope_rules_rec u2 n2 st' k2 = (st', [], k2).
Proof.
  intros st'. apply extract_clean.
  exact (proj1 (extract_clear u1 n1 st k1)).
Qed.

(** ** Invariants of the worklist loop *)

Section WorklistInvariants.

Variable uuid4_hex : nat -> string.

(** A property of the store, the worklist and the [done] list that
    every iteration keeps holds when the loop ends, and the loop ends
    with an empty worklist and every object in [done]. *)
Lemma extract_loop_invariant
    (I : list Rule -> list ref -> list ref -> Prop) :
  (forall store k r rest done rule,
     I store (r :: rest) done ->
     (done ++ r :: rest)%list = seq 0 (List.length store) ->
     store !! r = Some rule ->
     let res := _extract_subscope_rules_rec uuid4_hex (name rule)
                  (statement rule) k in
     I (<[r := set_statement rule res.1.1]> store ++ res.1.2)%list
       (rest ++ seq (List.length store) (List.length res.1.2))%list
       (done ++ [r])%list) ->
  forall fuel store k wl done store' k' wl' done',
    (done ++ wl)%list = seq 0 (List.length store) ->
    I store wl done ->
    extract_loop uuid4_hex fuel store k wl done
    = Some (store', k', wl', done') ->
    I store' wl' done' /\ wl' = []
    /\ done' = seq 0 (List.length store').
Proof.
  intros Hstep.
  assert (Hend : forall (store : list Rule) (k : nat) (done : list nat)
                         store' k' wl' done',
            (done ++ [])%list = seq 0 (List.length store) ->
            I store [] done ->
            Some (store, k, ([] : list nat), done) = Some (store', k', wl', done') ->
            I store' wl' done' /\ wl' = []
            /\ done' = seq 0 (List.length store')).
  { intros store k done store' k' wl' done' Hinv HI E.
    injection E as <- <- <- <-. rewrite app_nil_r in Hinv. auto. }
  induction fuel as [|fuel IH];
    intros store k wl done store' k' wl' done' Hinv HI Hloop.
  - destruct wl as [|r rest]; [| discriminate Hloop].
    exact (Hend _ _ _ _ _ _ _ Hinv HI Hloop).
  - destruct wl as [|r rest]; [exact (Hend _ _ _ _ _ _ _ Hinv HI Hloop) |].
    cbn [extract_loop] in Hloop.
    destruct (store !! r) as [rule|] eqn:Hrule; [| discriminate Hloop].
    pose proof (Hstep store k r rest done rule HI Hinv Hrule) as HI'.
    destruct (_extract_subscope_rules_rec uuid4_hex (name rule)
                (statement rule) k) as [[st' new] k1].
    cbn [fst snd] in HI'.
    refine (IH _ _ _ _ _ _ _ _ _ HI' Hloop).
    rewrite length_app, length_insert, seq_app. simpl.
    rewrite <- Hinv, <- !app_assoc. reflexivity.
Qed.

Lemma extracted_loop (input : list Rule) :
  exists k,
    extract_loop uuid4_hex (total_weight input) input 0
      (seq 0 (List.length input)) []
    = Some (extracted uuid4_hex input, k, [],
            seq 0 (List.length (extracted uuid4_hex input))).
Proof.
  destruct (extracted_store uuid4_hex input) as [He _].
  unfold _extract_subscope_rules in He.
  destruct (extract_loop _ _ _ _ _ _) as [[[[store k] rem] done]|];
    [| discriminate He].
  injection He as <- <- <-. now exists k.
Qed.

Lemma elem_of_insert_app (store new : list Rule) (r : nat) (y x : Rule) :
  x ∈ (<[r := y]> store ++ new)%list -> x = y \/ x ∈ store \/ x ∈ new.
Proof.
  intros Hx. apply elem_of_app in Hx as [Hx | Hx]; [| auto].
  apply list_elem_of_lookup in Hx as [j Hj].
  apply list_lookup_insert_Some in Hj as [(_ & -> & _) | (_ & Hj)];
    [auto |].
  right. left. now apply list_elem_of_lookup_2 in Hj.
Qed.

(** A property of single rules that extraction on one rule keeps, and
    gives to the rules it yields, holds for the whole collection. *)
Lemma extracted_all (Q : Rule -> Prop) (input : list Rule) :
  (forall rule k,
     Q rule ->
     let res := _extract_subscope_rules_rec uuid4_hex (name rule)
                  (statement rule) k in
     Q (set_statement rule res.1.1) /\ forall r, r ∈ res.1.2 -> Q r) ->
  (forall r, r ∈ input -> Q r) ->
  forall x, x ∈ extracted uuid4_hex input -> Q x.
Proof.
  intros Hrec Hin. destruct (extracted_loop input) as [k Hloop].
  assert (Hstep : forall (store : list Rule) (k r : nat)
                         (rest done : list nat) (rule : Rule),
            (forall x, x ∈ store -> Q x) ->
            (done ++ r :: rest)%list = seq 0 (List.length store) ->
            store !! r = Some rule ->
            let res := _extract_subscope_rules_rec uuid4_hex (name rule)
                         (statement rule) k in
            forall x,
              x ∈ (<[r := set_statement rule res.1.1]> store ++ res.1.2)%list ->
              Q x).
  { intros store k0 r rest done rule HI _ Hr res x Hx.
    assert (Hq : Q rule) by (apply HI; now apply list_elem_of_lookup_2 in Hr).
    destruct (Hrec rule k0 Hq) as [H1 H2]. fold res in H1, H2.
    apply elem_of_insert_app in Hx as [-> | [Hx | Hx]]; auto. }
  exact (proj1 (extract_loop_invariant
                  (fun store _ _ => forall x, x ∈ store -> Q x) Hstep
                  (total_weight input) input 0 (seq 0 (List.length input)) []
                  _ _ _ _ eq_refl Hin Hloop)).
Qed.

End WorklistInvariants.

(** X14: subscope extraction over a rule list keeps the rules within their
    scopes: when the statement of every rule passed in is scoped for the
    scope of its rule, so is the statement of every rule of the collection
    that results, the rules made of subscopes included. *)
Theorem extracted_scoped (uuid4_hex : nat -> string) (input : list Rule) :
  (forall r, r ∈ input -> scoped (scope r) (statement r) = true) ->
  forall x, x ∈ extracted uuid4_hex input ->
    scoped (scope x) (statement x) = true.
Proof.
  apply (extracted_all uuid4_hex
           (fun r => scoped (scope r) (statement r) = true)).
  intros rule k Hq res.
  exact (extract_scoped uuid4_hex (name rule) (statement rule) (scope rule)
           k Hq).
Qed.

Lemma extracted_scoped_witness :
  scoped "function" (Subscope "basic block" mov) = true.
Proof.
  refine (extracted_scoped (fun _ => "0") [nested_subscope_rule] _
            (subscope_rule (fun _ => "0") "r" 0 "function"
               (Subscope "basic block" mov)) _).
  - intros r Hr. apply list_elem_of_singleton in Hr. subst r. reflexivity.
  - vm_compute. apply list_elem_of_further, list_elem_of_here.
Defined.

(** ** Rules made of subscopes *)

Lemma is_lib_set_statement (r : Rule) (st : Statement) :
  is_lib (set_statement r st) = is_lib r.
Proof. reflexivity. Qed.

(** X15: in the collection that subscope extraction returns, every rule
    behind the rules passed in is a library rule that names its parent under
    [capa/parent]; the parent is in the collection and depends on it. *)
Theorem extracted_synthetic (uuid4_hex : nat -> string) (input : list Rule)
    (i : nat) (x : Rule) :
  extracted uuid4_hex input !! i = Some x ->
  (List.length input <= i)%nat ->
  is_lib x = true
  /\ exists p,
       p ∈ extracted uuid4_hex input
       /\ dict_get (meta x) "capa/parent" = Some (VStr (name p))
       /\ name x ∈ get_dependencies p.
Proof.
  intros Hx Hi. destruct (extracted_loop uuid4_hex input) as [k Hloop].
  pose (I := fun (store : list Rule) (wl done : list nat) =>
               (List.length input <= List.length store)%nat
               /\ forall i x, store !! i = Some x ->
                    (List.length input <= i)%nat ->
                    is_lib x = true
                    /\ exists j p,
                         j ∈ done /\ store !! j = Some p
                         /\ dict_get (meta x) "capa/parent"
                            = Some (VStr (name p))
                         /\ refers (name x) (statement p) = true).
  assert (Hstep : forall (store : list Rule) (k r : nat)
                         (rest done : list nat) (rule : Rule),
            I store (r :: rest) done ->
            (done ++ r :: rest)%list = seq 0 (List.length store) ->
            store !! r = Some rule ->
            let res := _extract_subscope_rules_rec uuid4_hex (name rule)
                         (statement rule) k in
            I (<[r := set_statement rule res.1.1]> store ++ res.1.2)%list
              (rest ++ seq (List.length store) (List.length res.1.2))%list
              (done ++ [r])%list).
  { intros store k0 r rest done rule [Hlen HI] Hinv Hr res.
    destruct (worklist_refs _ _ _ _ Hinv) as (Hrl & Hd & _).
    assert (Hkeep : forall j p, j ∈ done -> store !! j = Some p ->
              (<[r := set_statement rule res.1.1]> store ++ res.1.2)%list !! j
              = Some p).
    { intros j p Hj Hp. destruct (Hd j Hj) as [Hne Hlt].
      rewrite lookup_app_l by (now rewrite length_insert).
      now rewrite list_lookup_insert_ne. }
    split; [rewrite length_app, length_insert; lia |].
    intros i0 y Hy Hi0. apply lookup_app_Some in Hy as [Hy | [Hl Hy]].
    - apply list_lookup_insert_Some in Hy as [(<- & <- & _) | (Hne & Hy)].
      + destruct (HI r rule Hr Hi0) as (Hlib & j & p & Hj & Hp & Hm & Href).
        split; [exact Hlib |]. exists j, p.
        split; [apply elem_of_app; now left |].
        split; [now apply Hkeep |]. now split.
      + destruct (HI i0 y Hy Hi0) as (Hlib & j & p & Hj & Hp & Hm & Href).
        split; [exact Hlib |]. exists j, p.
        split; [apply elem_of_app; now left |].
        split; [now apply Hkeep |]. now split.
    - rewrite length_insert in Hy.
      destruct (extract_numbered uuid4_hex (name rule) (statement rule) k0)
        as [_ Hnum].
      fold res in Hnum.
      destruct (Hnum _ y Hy) as (sc & c & Ey).
      split; [now rewrite Ey |].
      exists r, (set_statement rule res.1.1).
      split; [apply elem_of_app; right; apply list_elem_of_here |].
      split; [rewrite lookup_app_l by (now rewrite length_insert);
              now rewrite list_lookup_insert_eq |].
      split; [now rewrite Ey |].
      apply (proj1 (extract_refers uuid4_hex (name rule) (statement rule) k0)).
      now apply list_elem_of_lookup_2 in Hy. }
  assert (H0 : I input (seq 0 (List.length input)) []).
  { split; [lia |]. intros i0 y Hy Hi0. apply lookup_lt_Some in Hy. lia. }
  destruct (extract_loop_invariant uuid4_hex I Hstep
              (total_weight input) input 0 (seq 0 (List.length input)) []
              _ _ _ _ eq_refl H0 Hloop) as [[_ HI] _].
  destruct (HI i x Hx Hi) as (Hlib & j & p & _ & Hp & Hm & Href).
  split; [exact Hlib |]. exists p.
  split; [now apply list_elem_of_lookup_2 in Hp |].
  split; [exact Hm | now apply get_dependencies_refers].
Qed.

Lemma extracted_synthetic_witness :
  is_lib (subscope_rule (fun _ => "0") "r" 0 "function"
            (Subscope "basic block" mov)) = true
  /\ exists p,
       p ∈ extracted (fun _ => "0") [nested_subscope_rule]
       /\ dict_get (meta (subscope_rule (fun _ => "0") "r" 0 "function"
                            (Subscope "basic block" mov))) "capa/parent"
          = Some (VStr (name p))
       /\ name (subscope_rule (fun _ => "0") "r" 0 "function"
                  (Subscope "basic block" mov)) ∈ get_dependencies p.
Proof.
  apply (extracted_synthetic (fun _ => "0") [nested_subscope_rule] 1);
    [reflexivity | simpl; lia].
Defined.

(** ** Rule lists that extraction clears of subscopes *)

Lemma extract_flat (uuid4_hex : nat -> string) (self_name : string)
    (st : Statement) :
  forall k, stacked st = false ->
  forall r,
    r ∈ (_extract_subscope_rules_rec uuid4_hex self_name st k).1.2 ->
    is_Subscope (statement r) = false /\ stacked (statement r) = false.
Proof.
  assert (Hsub : forall sc x, stacked (Subscope sc x) = false ->
            is_Subscope x = false /\ stacked x = false).
  { intros sc x H. cbn [stacked] in H. now apply orb_false_iff in H. }
  assert (Hcs : forall cs k,
            Forall (fun c => forall k, stacked c = false ->
                      forall r,
                        r ∈ (_extract_subscope_rules_rec uuid4_hex self_name
                               c k).1.2 ->
                        is_Subscope (statement r) = false
                        /\ stacked (statement r) = false) cs ->
            existsb stacked cs = false ->
            forall r,
              r ∈ (extract_children uuid4_hex
                     (_extract_subscope_rules_rec uuid4_hex self_name)
                     self_name cs k).1.2 ->
              is_Subscope (statement r) = false
              /\ stacked (statement r) = false).
  { intros cs k IH Hs r Hr. rewrite Forall_forall in IH.
    assert (Hall : forall c, c ∈ cs -> stacked c = false).
    { intros c Hc. destruct (stacked c) eqn:E; [| reflexivity].
      assert (existsb stacked cs = true) by (apply existsb_elem; eauto).
      congruence. }
    destruct (extract_children_shape uuid4_hex self_name _ cs k
                (rec_Leaf uuid4_hex self_name)) as [_ Hy].
    destruct (Hy r Hr) as [(j & sc & x & Hx & -> & _) | (c & kc & Hc & _ & Hn & _)].
    - exact (Hsub sc x (Hall _ Hx)).
    - exact (IH c Hc kc (Hall c Hc) r Hn). }
  assert (Hch : forall c k,
            (forall k, stacked c = false ->
               forall r,
                 r ∈ (_extract_subscope_rules_rec uuid4_hex self_name
                        c k).1.2 ->
                 is_Subscope (statement r) = false
                 /\ stacked (statement r) = false) ->
            stacked c = false ->
            forall r,
              r ∈ (extract_child uuid4_hex
                     (_extract_subscope_rules_rec uuid4_hex self_name)
                     self_name c k).1.2 ->
              is_Subscope (statement r) = false
              /\ stacked (statement r) = false).
  { intros c k IH Hs r Hr.
    destruct c as [| | | | | |sc0 c0|]; try exact (IH k Hs r Hr).
    cbn [extract_child fst snd] in Hr. apply list_elem_of_singleton in Hr.
    subst r. exact (Hsub sc0 c0 Hs). }
  induction st as [cs IH|cs IH|c IH|n cs IH|f lo hi|p|sc c IH|f]
    using Statement_ind_nested; intros k Hs r Hr;
    cbn [_extract_subscope_rules_rec stacked] in *;
    try (now apply elem_of_nil in Hr).
  - pose proof (Hcs cs k IH Hs r) as Hc.
    destruct (extract_children _ _ _ cs k) as [[cs' new] k']. exact (Hc Hr).
  - pose proof (Hcs cs k IH Hs r) as Hc.
    destruct (extract_children _ _ _ cs k) as [[cs' new] k']. exact (Hc Hr).
  - pose proof (Hch c k IH Hs r) as Hc.
    destruct (extract_child _ _ _ c k) as [[c' new] k']. exact (Hc Hr).
  - pose proof (Hcs cs k IH Hs r) as Hc.
    destruct (extract_children _ _ _ cs k) as [[cs' new] k']. exact (Hc Hr).
  - apply orb_false_iff in Hs as [Hs1 Hs2].
    pose proof (Hch c k IH Hs2 r) as Hc.
    destruct (extract_child _ _ _ c k) as [[c' new] k']. exact (Hc Hr).
Qed.

(** X16: when no rule passed in has a subscope as its top statement or a
    subscope directly inside a subscope, no statement of the collection that
    subscope extraction returns holds a subscope. *)
Theorem extracted_without_subscopes (uuid4_hex : nat -> string)
    (input : list Rule) :
  (forall r, r ∈ input ->
     is_Subscope (statement r) = false /\ stacked (statement r) = false) ->
  forall x, x ∈ extracted uuid4_hex input ->
    has_subscope (statement x) = false.
Proof.
  intros Hin x Hx. destruct (extracted_loop uuid4_hex input) as [k Hloop].
  pose (I := fun (store : list Rule) (wl done : list nat) =>
               (forall i y, i ∈ wl -> store !! i = Some y ->
                  is_Subscope (statement y) = false
                  /\ stacked (statement y) = false)
               /\ (forall i y, i ∈ done -> store !! i = Some y ->
                     has_subscope (statement y) = false)).
  assert (Hstep : forall (store : list Rule) (k r : nat)
                         (rest done : list nat) (rule : Rule),
            I store (r :: rest) done ->
            (done ++ r :: rest)%list = seq 0 (List.length store) ->
            store !! r = Some rule ->
            let res := _extract_subscope_rules_rec uuid4_hex (name rule)
                         (statement rule) k in
            I (<[r := set_statement rule res.1.1]> store ++ res.1.2)%list
              (rest ++ seq (List.length store) (List.length res.1.2))%list
              (done ++ [r])%list).
  { intros store k0 r rest done rule [Hw Hd] Hinv Hr res.
    destruct (worklist_refs _ _ _ _ Hinv) as (Hrl & Hdn & Hrs).
    destruct (Hw r rule (list_elem_of_here _ _) Hr) as [Hroot Hflat].
    split.
    - intros i y Hi Hy. apply elem_of_app in Hi as [Hi | Hi].
      + destruct (Hrs i Hi) as [Hne Hlt].
        rewrite lookup_app_l in Hy by (now rewrite length_insert).
        rewrite list_lookup_insert_ne in Hy by congruence.
        apply (Hw i y); [now apply list_elem_of_further | exact Hy].
      + apply elem_of_seq in Hi.
        rewrite lookup_app_r in Hy by (rewrite length_insert; lia).
        apply list_elem_of_lookup_2 in Hy.
        exact (extract_flat uuid4_hex (name rule) (statement rule) k0
                 Hflat y Hy).
    - intros i y Hi Hy. apply elem_of_app in Hi as [Hi | Hi].
      + destruct (Hdn i Hi) as [Hne Hlt].
        rewrite lookup_app_l in Hy by (now rewrite length_insert).
        rewrite list_lookup_insert_ne in Hy by congruence.
        exact (Hd i y Hi Hy).
      + apply list_elem_of_singleton in Hi. subst i.
        rewrite lookup_app_l in Hy by (now rewrite length_insert).
        rewrite list_lookup_insert_eq in Hy by exact Hrl.
        injection Hy as <-.
        exact (proj2 (extract_clear uuid4_hex (name rule) (statement rule) k0)
                 Hroot). }
  assert (H0 : I input (seq 0 (List.length input)) []).
  { split.
    - intros i y _ Hy. apply Hin. now apply list_elem_of_lookup_2 in Hy.
    - intros i y Hi. now apply elem_of_nil in Hi. }
  destruct (extract_loop_invariant uuid4_hex I Hstep
              (total_weight input) input 0 (seq 0 (List.length input)) []
              _ _ _ _ eq_refl H0 Hloop) as ([_ Hd] & _ & _).
  apply list_elem_of_lookup in Hx as [i Hi].
  apply (Hd i x); [| exact Hi].
  apply elem_of_seq. apply lookup_lt_Some in Hi. lia.
Qed.

Lemma extracted_without_subscopes_witness :
  has_subscope (And [mov]) = false.
Proof.
  refine (extracted_without_subscopes (fun _ => "0")
            [mkRule "r" "file" (And [Subscope "function" (And [mov])]) [] ""]
            _ (subscope_rule (fun _ => "0") "r" 0 "function" (And [mov])) _).
  - intros r Hr. apply list_elem_of_singleton in Hr. subst r. now split.
  - vm_compute. apply list_elem_of_further, list_elem_of_here.
Defined.

(** ** Extraction over an extracted collection *)

Lemma extract_loop_clean (uuid4_hex : nat -> string) (store : list Rule) :
  (forall x, x ∈ store ->
     Forall (fun c => has_subscope c = false) (get_children (statement x))) ->
  forall fuel k wl done,
    (forall i, i ∈ wl -> (i < List.length store)%nat) ->
    (List.length wl <= fuel)%nat ->
    extract_loop uuid4_hex fuel store k wl done
    = Some (store, k, [], (done ++ wl)%list).
Proof.
  intros Hclean. induction fuel as [|fuel IH]; intros k wl done Hwl Hf.
  - destruct wl; [| simpl in Hf; lia]. now rewrite app_nil_r.
  - destruct wl as [|r rest]; [now rewrite app_nil_r |].
    cbn [extract_loop].
    destruct (lookup_lt_is_Some_2 store r (Hwl r (list_elem_of_here _ _)))
      as [rule Hr].
    rewrite Hr.
    rewrite (extract_clean uuid4_hex (name rule) (statement rule) k)
      by (apply Hclean; now apply list_elem_of_lookup_2 in Hr).
    rewrite set_statement_same, (list_insert_id _ _ _ Hr), !app_nil_r.
    rewrite IH.
    + now rewrite <- app_assoc.
    + intros i Hi. apply Hwl. now apply list_elem_of_further.
    + simpl in Hf. lia.
Qed.

Lemma length_le_total_weight (l : list Rule) :
  (List.length l <= total_weight l)%nat.
Proof.
  unfold total_weight. induction l as [|a l IH];
    cbn [List.length sum_list_with]; [lia |].
  unfold weight at 1. lia.
Qed.

Lemma extracted_clean (uuid4_hex : nat -> string) (l : list Rule) :
  (forall x, x ∈ l ->
     Forall (fun c => has_subscope c = false) (get_children (statement x))) ->
  extracted uuid4_hex l = l.
Proof.
  intros Hl. unfold extracted, _extract_subscope_rules.
  rewrite (extract_loop_clean uuid4_hex l Hl).
  - simpl. apply deref_all.
  - intros i Hi. apply elem_of_seq in Hi. lia.
  - rewrite length_seq. apply length_le_total_weight.
Qed.

(** X17: subscope extraction over a collection it has returned changes
    nothing, whatever names are generated; so does extraction over any rule
    list in which a subscope occurs at most as a top statement. *)
Theorem extracted_twice (u1 u2 : nat -> string) (input : list Rule) :
  extracted u2 (extracted u1 input) = extracted u1 input
  /\ ((forall x, x ∈ input ->
         Forall (fun c => has_subscope c = false)
           (get_children (statement x))) ->
      extracted u2 input = input).
Proof.
  split; [| apply extracted_clean].
  apply extracted_clean. intros x Hx.
  exact (extracted_subscopes_only_at_roots u1 input x Hx).
Qed.

Lemma extracted_twice_witness :
  extracted (fun _ => "1") [lib_rule; file_rule] = [lib_rule; file_rule].
Proof.
  apply (proj2 (extracted_twice (fun _ => "0") (fun _ => "1")
                  [lib_rule; file_rule])).
  intros x Hx. apply elem_of_cons in Hx as [-> | Hx];
    [repeat constructor |].
  apply list_elem_of_singleton in Hx. subst x. repeat constructor.
Defined.

(** ** The integrity checks *)

Lemma ensure_unique_from_first (rules : list Rule) :
  forall (pre : list Rule) (seen : list string) (e : Exception),
    NoDup (map name pre) ->
    (forall n, n ∈ seen <-> n ∈ map name pre) ->
    ensure_unique_from seen rules = Raise e ->
    exists mid rule post,
      rules = (mid ++ rule :: post)%list
      /\ NoDup (map name (pre ++ mid))
      /\ name rule ∈ map name (pre ++ mid)
      /\ e = InvalidRule ("duplicate rule name: " ++ name rule).
Proof.
  induction rules as [|rule rules IH]; intros pre seen e Hnd Hseen H;
    [discriminate H |].
  cbn [ensure_unique_from] in H.
  destruct (set_mem (name rule) seen) eqn:Em.
  - injection H as <-. exists [], rule, rules. rewrite app_nil_r.
    split; [reflexivity |]. split; [exact Hnd |]. split; [| reflexivity].
    apply Hseen. now apply set_mem_spec.
  - apply set_mem_false in Em.
    destruct (IH (pre ++ [rule])%list (set_add (name rule) seen) e)
      as (mid & r & post & -> & Hnd' & Hin & ->).
    + rewrite map_app. apply NoDup_app. split; [exact Hnd |].
      split; [| apply NoDup_singleton].
      intros n Hn Hn'. apply list_elem_of_singleton in Hn'. subst n.
      apply Em. now apply Hseen.
    + intros n. rewrite set_add_spec, map_app, elem_of_app, Hseen.
      simpl. rewrite list_elem_of_singleton. tauto.
    + exact H.
    + exists (rule :: mid), r, post. rewrite <- app_assoc in Hnd', Hin.
      auto.
Qed.

(** X18: [ensure_rules_are_unique] passes exactly when no two rules of the
    list have the same name; when it fails, it reports the first rule of the
    list whose name an earlier rule has. *)
Theorem ensure_rules_are_unique_first (rules : list Rule) :
  (ensure_rules_are_unique rules = Ok tt <-> NoDup (map name rules))
  /\ forall e,
       ensure_rules_are_unique rules = Raise e ->
       exists pre rule post,
         rules = (pre ++ rule :: post)%list
         /\ NoDup (map name pre)
         /\ name rule ∈ map name pre
         /\ e = InvalidRule ("duplicate rule name: " ++ name rule).
Proof.
  split.
  - destruct (ensure_rules_are_unique_spec rules)
      as [[H1 H2] | (n & _ & H1 & H2)].
    + tauto.
    + split; [rewrite H1; discriminate | contradiction].
  - intros e H. apply (ensure_unique_from_first rules [] [] e);
      [constructor | reflexivity | exact H].
Qed.

Lemma ensure_rules_are_unique_first_witness :
  exists pre rule post,
    [lib_rule; file_rule; lib_rule] = (pre ++ rule :: post)%list
    /\ NoDup (map name pre)
    /\ name rule ∈ map name pre
    /\ InvalidRule "duplicate rule name: helper"
       = InvalidRule ("duplicate rule name: " ++ name rule).
Proof.
  apply (proj2 (ensure_rules_are_unique_first [lib_rule; file_rule; lib_rule])).
  reflexivity.
Defined.

Lemma for_each_Ok {A} (body : A -> result unit) (l : list A) :
  for_each body l = Ok tt <-> forall x, x ∈ l -> body x = Ok tt.
Proof.
  induction l as [|a l IH]; cbn [for_each].
  - split; [intros _ x Hx; now apply elem_of_nil in Hx | reflexivity].
  - split.
    + intros H x Hx. destruct (body a) as [[]|e] eqn:Ea; [| discriminate H].
      apply elem_of_cons in Hx as [-> | Hx]; [exact Ea |].
      now apply IH.
    + intros H. rewrite (H a (list_elem_of_here _ _)). cbn [bind].
      apply IH. intros x Hx. apply H. now apply list_elem_of_further.
Qed.

Lemma rules_by_name_key (l : list Rule) (n : string) :
  is_Some (dict_get (rules_by_name l) n) <-> n ∈ map name l.
Proof.
  split.
  - intros [r Hr]. pose proof (dict_get_elem _ _ _ Hr) as He.
    pose proof (proj2 (rules_by_name_keyed l) _ _ He) as Hn.
    apply rules_by_name_elem in He. subst n.
    change (map name l) with (name <$> l). apply list_elem_of_fmap.
    now exists r.
  - intros Hn. change (map name l) with (name <$> l) in Hn.
    apply list_elem_of_fmap in Hn as (r & -> & Hr).
    now apply rules_by_name_defined.
Qed.

Lemma ensure_rule_dependencies_are_met_Ok (rules : list Rule) :
  ensure_rule_dependencies_are_met rules = Ok tt
  <-> dependencies_met (rules_by_name rules).
Proof.
  unfold ensure_rule_dependencies_are_met, dependencies_met.
  rewrite for_each_Ok. split.
  - intros H rule dep Hr Hd. specialize (H rule Hr).
    rewrite for_each_Ok in H. specialize (H dep Hd).
    destruct (dict_get (rules_by_name rules) dep); [eauto | discriminate].
  - intros H rule Hr. apply for_each_Ok. intros dep Hd.
    destruct (H rule dep Hr Hd) as [r ->]. reflexivity.
Qed.

(** X19: [ensure_rule_dependencies_are_met] passes exactly when every
    dependency of every rule of the name-keyed mapping is a key of the
    mapping, and only ever fails with [InvalidRule]; for rules with distinct
    names that is when every dependency of every rule is the name of a rule
    of the list. *)
Theorem ensure_rule_dependencies_are_met_iff (rules : list Rule) :
  (ensure_rule_dependencies_are_met rules = Ok tt
   <-> dependencies_met (rules_by_name rules))
  /\ (ensure_rule_dependencies_are_met rules = Ok tt
      \/ exists msg,
           ensure_rule_dependencies_are_met rules = Raise (InvalidRule msg))
  /\ (NoDup (map name rules) ->
      (ensure_rule_dependencies_are_met rules = Ok tt
       <-> forall rule dep,
             rule ∈ rules -> dep ∈ get_dependencies rule ->
             dep ∈ map name rules)).
Proof.
  pose proof (ensure_rule_dependencies_are_met_Ok rules) as H1.
  split; [exact H1 |]. split.
  - unfold ensure_rule_dependencies_are_met. apply for_each_shape.
    intros rule _. apply for_each_shape. intros dep _.
    destruct (dict_get (rules_by_name rules) dep); eauto.
  - intros Hnd. rewrite H1. unfold dependencies_met.
    rewrite (rules_by_name_unique rules Hnd). split.
    + intros H rule dep Hr Hd. apply rules_by_name_key. eauto.
    + intros H rule dep Hr Hd. apply rules_by_name_key. eauto.
Qed.

Lemma ensure_rule_dependencies_are_met_iff_witness :
  ensure_rule_dependencies_are_met [lib_rule; file_rule] = Ok tt
  <-> forall rule dep,
        rule ∈ [lib_rule; file_rule] -> dep ∈ get_dependencies rule ->
        dep ∈ map name [lib_rule; file_rule].
Proof.
  apply (proj2 (proj2 (ensure_rule_dependencies_are_met_iff
                         [lib_rule; file_rule]))).
  apply (bool_decide_unpack _). vm_compute. exact I.
Defined.

(** ** When the dependency closure is returned *)

Section ClosureReturns.

Variable d : list (string * Rule).

Lemma height_le_S (n : string) (k : nat) :
  height_le d n k -> height_le d n (S k).
Proof.
  induction 1 as [n rule k Hg _ IH]. econstructor; [exact Hg | exact IH].
Qed.

Lemma height_le_reach (n m : string) (k : nat) :
  reach d n m -> height_le d n k -> height_le d m k.
Proof.
  induction 1 as [n|n rule dep m Hg Hd _ IH]; intros H; [exact H |].
  apply IH. inversion H as [n' rule' k' Hg' Hdeps]; subst.
  apply height_le_S. apply Hdeps. congruence.
Qed.

Lemma height_le_cycle (n c dep : string) (rule : Rule) (k : nat) :
  reach d n c -> dict_get d c = Some rule -> dep ∈ get_dependencies rule ->
  reach d dep c -> ~ height_le d n k.
Proof.
  intros Hn Hg Hd Hc H. apply (height_le_reach _ _ _ Hn) in H. clear Hn n.
  induction k as [|k IH]; inversion H as [n' rule' k' Hg' Hdeps]; subst.
  apply IH. apply (height_le_reach dep c k Hc). apply Hdeps. congruence.
Qed.

Lemma each_dependency_Ok
    (f : Rule -> list string -> result (list string)) (deps : list string) :
  forall wanted W,
    each_dependency f d deps wanted = Ok W ->
    forall dep, dep ∈ deps ->
      exists r w1 W1, dict_get d dep = Some r /\ f r w1 = Ok W1.
Proof.
  induction deps as [|a deps IH]; intros wanted W H dep Hdep;
    [now apply elem_of_nil in Hdep |].
  cbn [each_dependency] in H.
  destruct (dict_get d a) as [r|] eqn:Ea; [| discriminate H].
  destruct (f r wanted) as [W1|e] eqn:Ef; [| discriminate H].
  cbn [bind] in H. apply elem_of_cons in Hdep as [-> | Hdep]; eauto.
Qed.

Lemma each_dependency_returns
    (f : Rule -> list string -> result (list string)) (deps : list string) :
  (forall dep, dep ∈ deps ->
     exists r, dict_get d dep = Some r /\ forall w, exists W, f r w = Ok W) ->
  forall wanted, exists W, each_dependency f d deps wanted = Ok W.
Proof.
  induction deps as [|a deps IH]; intros H wanted; [now exists wanted |].
  cbn [each_dependency].
  destruct (H a (list_elem_of_here _ _)) as (r & -> & Hf).
  destruct (Hf wanted) as [W1 ->]. cbn [bind]. apply IH.
  intros dep Hdep. apply H. now apply list_elem_of_further.
Qed.

Lemma each_dependency_error
    (f : Rule -> list string -> result (list string)) (deps : list string)
    (P : Exception -> Prop) :
  P KeyError ->
  (forall r w e, f r w = Raise e -> P e) ->
  forall wanted e, each_dependency f d deps wanted = Raise e -> P e.
Proof.
  intros HK Hf. induction deps as [|a deps IH]; intros wanted e H;
    [discriminate H |].
  cbn [each_dependency] in H.
  destruct (dict_get d a) as [r|]; [| now injection H as <-].
  destruct (f r wanted) as [W1|e1] eqn:Ef; cbn [bind] in H.
  - exact (IH _ _ H).
  - injection H as <-. exact (Hf _ _ _ Ef).
Qed.

Lemma closure_rec_Ok (fuel : nat) :
  forall r wanted W,
    get_rules_and_dependencies_rec fuel d r wanted = Ok W ->
    exists k, fuel = S k
      /\ forall dep, dep ∈ get_dependencies r -> height_le d dep k.
Proof.
  induction fuel as [|fuel IH]; intros r wanted W H; [discriminate H |].
  exists fuel. split; [reflexivity |]. intros dep Hdep.
  cbn [get_rules_and_dependencies_rec] in H.
  destruct (each_dependency_Ok _ _ _ _ H dep Hdep)
    as (r' & w1 & W1 & Hg & Hf).
  destruct (IH _ _ _ Hf) as (k & -> & Hk).
  econstructor; [exact Hg | exact Hk].
Qed.

Lemma closure_rec_returns (fuel : nat) :
  forall r wanted,
    (forall dep, dep ∈ get_dependencies r -> height_le d dep fuel) ->
    exists W, get_rules_and_dependencies_rec (S fuel) d r wanted = Ok W.
Proof.
  induction fuel as [|fuel IH]; intros r wanted H;
    cbn [get_rules_and_dependencies_rec];
    apply each_dependency_returns; intros dep Hdep;
    specialize (H dep Hdep); inversion H as [n rule k Hg Hdeps]; subst.
  exists rule. split; [exact Hg |]. intros w. now apply IH.
Qed.

Lemma closure_rec_error (fuel : nat) :
  forall r wanted e,
    get_rules_and_dependencies_rec fuel d r wanted = Raise e ->
    e = KeyError \/ e = RecursionError.
Proof.
  induction fuel as [|fuel IH]; intros r wanted e H.
  - injection H as <-. now right.
  - cbn [get_rules_and_dependencies_rec] in H.
    refine (each_dependency_error _ _
              (fun e => e = KeyError \/ e = RecursionError) _ _ _ _ H);
      [now left | exact IH].
Qed.

Lemma each_dependency_met
    (f : Rule -> list string -> result (list string)) (deps : list string) :
  (forall dep, dep ∈ deps -> is_Some (dict_get d dep)) ->
  (forall r w e, r ∈ dict_values d -> f r w = Raise e -> e = RecursionError) ->
  forall wanted e,
    each_dependency f d deps wanted = Raise e -> e = RecursionError.
Proof.
  intros Hd Hf. induction deps as [|a deps IH]; intros wanted e H;
    [discriminate H |].
  cbn [each_dependency] in H.
  destruct (Hd a (list_elem_of_here _ _)) as [r Hr]. rewrite Hr in H.
  destruct (f r wanted) as [W1|e1] eqn:Ef; cbn [bind] in H.
  - refine (IH _ _ _ H). intros dep Hdep. apply Hd.
    now apply list_elem_of_further.
  - injection H as <-. refine (Hf _ _ _ _ Ef).
    apply dict_get_elem in Hr. unfold dict_values.
    change (map snd d) with (snd <$> d). apply list_elem_of_fmap.
    now exists (a, r).
Qed.

Lemma closure_rec_met (fuel : nat) :
  dependencies_met d ->
  forall r wanted e,
    r ∈ dict_values d ->
    get_rules_and_dependencies_rec fuel d r wanted = Raise e ->
    e = RecursionError.
Proof.
  intros Hmet. induction fuel as [|fuel IH]; intros r wanted e Hr H.
  - now injection H as <-.
  - cbn [get_rules_and_dependencies_rec] in H.
    refine (each_dependency_met _ _ _ _ _ _ H).
    + intros dep Hdep. exact (Hmet r dep Hr Hdep).
    + intros r' w e' Hr'. now apply IH.
Qed.

End ClosureReturns.

Lemma closure_Ok_iff (recursion_limit : nat) (all : list Rule) (n : string) :
  (exists l, get_rules_and_dependencies recursion_limit all n = Ok l)
  <-> height_le (rules_by_name all) n recursion_limit.
Proof.
  unfold get_rules_and_dependencies.
  destruct (dict_get (rules_by_name all) n) as [rule|] eqn:Eg.
  - split.
    + intros [l H]. apply bind_Ok in H as (W & HW & _).
      destruct (closure_rec_Ok _ _ _ _ _ HW) as (k & -> & Hk).
      econstructor; [exact Eg | exact Hk].
    + intros H. inversion H as [n' rule' k Hg Hdeps]; subst.
      assert (rule' = rule) by congruence. subst rule'.
      destruct (closure_rec_returns _ k rule [n] Hdeps) as [W ->].
      cbn [bind]. eauto.
  - split; [intros [l H]; discriminate H |].
    intros H. inversion H; congruence.
Qed.

Lemma closure_met_error (recursion_limit : nat) (all : list Rule)
    (n : string) :
  dependencies_met (rules_by_name all) -> n ∈ map name all ->
  ~ height_le (rules_by_name all) n recursion_limit ->
  get_rules_and_dependencies recursion_limit all n = Raise RecursionError.
Proof.
  intros Hmet Hn Hh.
  pose proof (closure_Ok_iff recursion_limit all n) as Hiff.
  unfold get_rules_and_dependencies in *.
  destruct (proj2 (rules_by_name_key all n) Hn) as [rule Eg].
  rewrite Eg in *.
  destruct (get_rules_and_dependencies_rec _ _ _ _) as [W|e1] eqn:E.
  - exfalso. apply Hh, Hiff. cbn [bind]. eauto.
  - cbn [bind]. f_equal. refine (closure_rec_met _ _ Hmet _ _ _ _ E).
    apply dict_get_elem in Eg. unfold dict_values.
    change (map snd (rules_by_name all)) with (snd <$> rules_by_name all).
    apply list_elem_of_fmap. now exists (n, rule).
Qed.

(** X20: [get_rules_and_dependencies] returns a list exactly when the name
    is the name of a rule and following dependencies from it ends, over
    rules of the list only, within the depth of nested calls the interpreter
    allows. When it does not, the error is a [KeyError] or a
    [RecursionError]: a [KeyError] for a name that no rule has, and, when no
    rule has a dependency that is missing from the list, a [RecursionError]
    for every other name. *)
Theorem get_rules_and_dependencies_returns (recursion_limit : nat)
    (all : list Rule) (n : string) :
  let d := rules_by_name all in
  let r := get_rules_and_dependencies recursion_limit all n in
  ((exists l, r = Ok l) <-> height_le d n recursion_limit)
  /\ (forall e, r = Raise e -> e = KeyError \/ e = RecursionError)
  /\ (n ∉ map name all -> r = Raise KeyError)
  /\ (dependencies_met d -> n ∈ map name all ->
      ~ height_le d n recursion_limit -> r = Raise RecursionError).
Proof.
  intros d r. split; [apply closure_Ok_iff |].
  split; [| split; [| apply closure_met_error]];
    subst r; unfold get_rules_and_dependencies; fold d.
  - intros e H. destruct (dict_get d n) as [rule|]; [| injection H as <-; auto].
    destruct (get_rules_and_dependencies_rec _ _ _ _) as [W|e1] eqn:E;
      [discriminate H |].
    injection H as <-. exact (closure_rec_error d _ _ _ _ E).
  - intros Hn. destruct (dict_get d n) as [rule|] eqn:Eg; [| reflexivity].
    exfalso. apply Hn. apply rules_by_name_key. unfold d in Eg. eauto.
Qed.

Lemma get_rules_and_dependencies_returns_witness :
  get_rules_and_dependencies 1000 [lib_rule; file_rule] "missing"
  = Raise KeyError.
Proof.
  apply (get_rules_and_dependencies_returns 1000 [lib_rule; file_rule]
           "missing").
  cbn. intros H.
  repeat (apply elem_of_cons in H as [H | H]; [discriminate H |]).
  now apply elem_of_nil in H.
Defined.

(** X21: a dependency cycle is never detected: for a name from which a rule
    that depends on itself, directly or through other rules, can be reached,
    [get_rules_and_dependencies] raises whatever depth of nested calls is
    allowed, and it is a [RecursionError] when no rule has a dependency that
    is missing from the list. *)
Theorem get_rules_and_dependencies_cycle (recursion_limit : nat)
    (all : list Rule) (n c dep : string) (rule : Rule) :
  let d := rules_by_name all in
  reach d n c -> dict_get d c = Some rule -> dep ∈ get_dependencies rule ->
  reach d dep c ->
  raises (get_rules_and_dependencies recursion_limit all n) = true
  /\ (dependencies_met d -> n ∈ map name all ->
      get_rules_and_dependencies recursion_limit all n = Raise RecursionError).
Proof.
  intros d Hn Hg Hd Hc.
  pose proof (height_le_cycle d n c dep rule recursion_limit Hn Hg Hd Hc)
    as Hh.
  split.
  - destruct (get_rules_and_dependencies recursion_limit all n) as [l|e] eqn:E;
      [| reflexivity].
    exfalso. apply Hh, (closure_Ok_iff recursion_limit all n). eauto.
  - intros Hmet Hin. now apply closure_met_error.
Qed.

Lemma get_rules_and_dependencies_cycle_witness :
  raises (get_rules_and_dependencies 1000 [cyclic_rule] "loop") = true.
Proof.
  apply (get_rules_and_dependencies_cycle 1000 [cyclic_rule]
           "loop" "loop" "loop" cyclic_rule).
  - apply reach_refl.
  - reflexivity.
  - apply list_elem_of_here.
  - apply reach_refl.
Defined.

(** ** When a rule set is built *)

Section Construction.

Variable uuid4_hex : nat -> string.
Variable topologically_order_rules : list Rule -> list Rule.
Variable recursion_limit : nat.

Abbreviation closure := (get_rules_and_dependencies recursion_limit).
Abbreviation init :=
  (RuleSet_init uuid4_hex topologically_order_rules recursion_limit).

Lemma RuleSet_init_returned (input : list Rule) :
  NoDup (map name input) ->
  returned (init input)
  = assemble topologically_order_rules recursion_limit
      (extracted uuid4_hex input).
Proof.
  intros Hnd.
  destruct (ensure_rules_are_unique_spec input) as [[Hu _] | (n & _ & _ & Hn)];
    [| contradiction].
  destruct (RuleSet_init_unique uuid4_hex topologically_order_rules
              recursion_limit input Hu) as (store' & He & ->).
  destruct (extracted_store uuid4_hex input) as [He' _].
  rewrite He in He'. now injection He' as ->.
Qed.

Lemma RuleSet_init_Ok_unique (input : list Rule) (rs : RuleSet) :
  returned (init input) = Ok rs -> NoDup (map name input).
Proof.
  intros H.
  destruct (ensure_rules_are_unique_spec input) as [[_ Hnd] | (n & _ & Hu & _)];
    [exact Hnd |].
  unfold RuleSet_init in H. rewrite Hu in H. discriminate H.
Qed.

Lemma extracted_nil (input : list Rule) :
  extracted uuid4_hex input = [] <-> input = [].
Proof.
  split.
  - intros He. destruct (extracted_store uuid4_hex input) as [_ Hlen].
    rewrite He in Hlen. destruct input; [reflexivity | simpl in Hlen; lia].
  - intros ->. reflexivity.
Qed.

Lemma collect_scope_rules_returns (all rules : list Rule) :
  forall acc,
    (exists s, collect_scope_rules recursion_limit all rules acc = Ok s)
    <-> forall x, x ∈ rules -> is_lib x = false ->
          height_le (rules_by_name all) (name x) recursion_limit.
Proof.
  induction rules as [|a rules IH]; intros acc; cbn [collect_scope_rules].
  - split; [intros _ x Hx; now apply elem_of_nil in Hx | eauto].
  - destruct (is_lib a) eqn:Ea.
    + rewrite IH. split; intros H x Hx Hl.
      * apply elem_of_cons in Hx as [-> | Hx]; [congruence | now apply H].
      * apply H; [now apply list_elem_of_further | exact Hl].
    + split.
      * intros [s H]. apply bind_Ok in H as (deps & Hd & H).
        intros x Hx Hl. apply elem_of_cons in Hx as [-> | Hx].
        -- apply closure_Ok_iff. eauto.
        -- apply (proj1 (IH (rule_set_update acc deps))); eauto.
      * intros H.
        destruct (proj2 (closure_Ok_iff recursion_limit all (name a))
                    (H a (list_elem_of_here _ _) Ea)) as [deps ->].
        cbn [bind]. apply IH. intros x Hx. apply H.
        now apply list_elem_of_further.
Qed.

Lemma collect_scope_rules_error (all rules : list Rule) :
  dependencies_met (rules_by_name all) ->
  (forall x, x ∈ rules -> name x ∈ map name all) ->
  forall acc e,
    collect_scope_rules recursion_limit all rules acc = Raise e ->
    e = RecursionError.
Proof.
  intros Hmet. induction rules as [|a rules IH]; intros Hin acc e H;
    cbn [collect_scope_rules] in H; [discriminate H |].
  assert (Hin' : forall x, x ∈ rules -> name x ∈ map name all)
    by (intros x Hx; apply Hin; now apply list_elem_of_further).
  destruct (is_lib a); [exact (IH Hin' _ _ H) |].
  destruct (closure all (name a)) as [deps|e1] eqn:Ec; cbn [bind] in H.
  - exact (IH Hin' _ _ H).
  - injection H as <-.
    assert (Hh : ~ height_le (rules_by_name all) (name a) recursion_limit).
    { intros Hh. apply closure_Ok_iff in Hh as [l Hl]. congruence. }
    pose proof (closure_met_error recursion_limit all (name a) Hmet
                  (Hin a (list_elem_of_here _ _)) Hh) as E.
    congruence.
Qed.

Lemma _get_rules_for_scope_returns (all : list Rule) (target : string) :
  (exists l, _get_rules_for_scope topologically_order_rules recursion_limit
               all target = Ok l)
  <-> forall x, x ∈ all -> is_lib x = false ->
        height_le (rules_by_name all) (name x) recursion_limit.
Proof.
  rewrite <- (collect_scope_rules_returns all all []).
  unfold _get_rules_for_scope.
  destruct (collect_scope_rules recursion_limit all all []) as [s|e];
    cbn [bind]; split; intros [l H]; try discriminate H; eauto.
Qed.

Lemma assemble_Ok (all : list Rule) :
  (exists rs, assemble topologically_order_rules recursion_limit all = Ok rs)
  <-> dependencies_met (rules_by_name all) /\ all <> []
      /\ forall x, x ∈ all -> is_lib x = false ->
           height_le (rules_by_name all) (name x) recursion_limit.
Proof.
  unfold assemble. rewrite <- ensure_rule_dependencies_are_met_Ok.
  split.
  - intros [rs H]. apply bind_Ok in H as ([] & Hd & H).
    split; [exact Hd |].
    destruct all as [|a all']; [discriminate H |].
    split; [discriminate |]. cbn [List.length Nat.eqb] in H.
    apply bind_Ok in H as (l & Hl & _).
    apply (_get_rules_for_scope_returns (a :: all') FILE_SCOPE). eauto.
  - intros (Hd & Hne & Hh). rewrite Hd. cbn [bind].
    destruct all as [|a all']; [contradiction |].
    cbn [List.length Nat.eqb].
    destruct (proj2 (_get_rules_for_scope_returns (a :: all') FILE_SCOPE) Hh)
      as [l1 ->].
    destruct (proj2 (_get_rules_for_scope_returns (a :: all') FUNCTION_SCOPE)
                Hh) as [l2 ->].
    destruct (proj2 (_get_rules_for_scope_returns (a :: all')
                       BASIC_BLOCK_SCOPE) Hh) as [l3 ->].
    cbn [bind]. eauto.
Qed.

End Construction.

(** X22: the constructor of [RuleSet] returns a rule set exactly when the
    list is not empty, no two of its rules have the same name, every
    dependency of every rule of the collection after subscope extraction is
    a rule of the collection, and from every rule that is not a library rule
    following dependencies ends within the depth of nested calls the
    interpreter allows. *)
Theorem RuleSet_init_returns (uuid4_hex : nat -> string)
    (topologically_order_rules : list Rule -> list Rule)
    (recursion_limit : nat) (input : list Rule) :
  let all := extracted uuid4_hex input in
  let d := rules_by_name all in
  (exists rs,
     returned (RuleSet_init uuid4_hex topologically_order_rules
                 recursion_limit input) = Ok rs)
  <-> NoDup (map name input) /\ input <> [] /\ dependencies_met d
      /\ forall r, r ∈ all -> is_lib r = false ->
           height_le d (name r) recursion_limit.
Proof.
  intros all d. split.
  - intros [rs H].
    pose proof (RuleSet_init_Ok_unique _ _ _ _ _ H) as Hnd.
    rewrite (RuleSet_init_returned _ _ _ _ Hnd) in H.
    destruct (proj1 (assemble_Ok _ _ _) (ex_intro _ rs H))
      as (Hd & Hne & Hh).
    split; [exact Hnd |]. split; [| now split].
    intros ->. now apply Hne.
  - intros (Hnd & Hne & Hd & Hh).
    rewrite (RuleSet_init_returned _ _ _ _ Hnd). apply assemble_Ok.
    split; [exact Hd |]. split; [| exact Hh].
    intros He. apply extracted_nil in He. contradiction.
Qed.

(** X23: a dependency cycle makes the constructor of [RuleSet] end in a
    [RecursionError], whatever depth of nested calls is allowed: this is
    what happens when the rules have distinct names, no dependency is
    missing, and a rule that depends on itself, directly or through other
    rules, can be reached from a rule that is not a library rule. *)
Theorem RuleSet_init_cycle (uuid4_hex : nat -> string)
    (topologically_order_rules : list Rule -> list Rule)
    (recursion_limit : nat) (input : list Rule) (r0 rule : Rule)
    (c dep : string) :
  let all := extracted uuid4_hex input in
  let d := rules_by_name all in
  NoDup (map name input) -> dependencies_met d ->
  r0 ∈ all -> is_lib r0 = false -> reach d (name r0) c ->
  dict_get d c = Some rule -> dep ∈ get_dependencies rule ->
  reach d dep c ->
  returned (RuleSet_init uuid4_hex topologically_order_rules
              recursion_limit input) = Raise RecursionError.
Proof.
  intros all d Hnd Hmet Hr0 Hlib Hreach Hc Hdep Hcyc.
  rewrite (RuleSet_init_returned _ _ _ _ Hnd). fold all.
  unfold assemble.
  rewrite (proj2 (ensure_rule_dependencies_are_met_Ok all) Hmet).
  cbn [bind].
  assert (Hlen : Nat.eqb (List.length all) 0 = false).
  { apply Nat.eqb_neq. apply list_elem_of_lookup in Hr0 as [i Hi].
    apply lookup_lt_Some in Hi. lia. }
  rewrite Hlen. unfold _get_rules_for_scope at 1.
  destruct (collect_scope_rules recursion_limit all all []) as [s|e] eqn:Ec.
  - exfalso.
    pose proof (proj1 (collect_scope_rules_returns recursion_limit all all [])
                  (ex_intro _ s Ec) r0 Hr0 Hlib) as Hh.
    exact (height_le_cycle d _ _ _ _ _ Hreach Hc Hdep Hcyc Hh).
  - cbn [bind]. f_equal.
    refine (collect_scope_rules_error recursion_limit all all Hmet _ _ _ Ec).
    intros x Hx. change (map name all) with (name <$> all).
    apply list_elem_of_fmap. now exists x.
Qed.

Lemma RuleSet_init_cycle_witness :
  returned (RuleSet_init (fun _ => "0") (fun l => l) 1000 [cyclic_rule])
  = Raise RecursionError.
Proof.
  apply (RuleSet_init_cycle (fun _ => "0") (fun l => l) 1000 [cyclic_rule]
           cyclic_rule cyclic_rule "loop" "loop").
  - apply NoDup_singleton.
  - intros rule dep Hr Hd. cbn in Hr. apply list_elem_of_singleton in Hr.
    subst rule. cbn in Hd. apply list_elem_of_singleton in Hd. subst dep.
    cbn. eauto.
  - apply list_elem_of_here.
  - reflexivity.
  - apply reach_refl.
  - reflexivity.
  - apply list_elem_of_here.
  - apply reach_refl.
Defined.

Lemma RuleSet_init_returns_witness :
  exists rs,
    returned (RuleSet_init (fun _ => "0") (fun l => l) 5
                [lib_rule; file_rule]) = Ok rs.
Proof.
  apply (proj2 (RuleSet_init_returns (fun _ => "0") (fun l => l) 5
                  [lib_rule; file_rule])).
  change (extracted (fun _ => "0") [lib_rule; file_rule])
    with [lib_rule; file_rule].
  assert (Hlib : height_le (rules_by_name [lib_rule; file_rule]) "helper" 4).
  { apply (height_le_intro _ "helper" lib_rule 3); [reflexivity |].
    intros dep Hd. now apply elem_of_nil in Hd. }
  split; [apply (bool_decide_unpack _); vm_compute; exact I |].
  split; [discriminate |]. split.
  - intros rule dep Hr Hd. cbn in Hr.
    apply elem_of_cons in Hr as [-> | Hr].
    + now apply elem_of_nil in Hd.
    + apply list_elem_of_singleton in Hr. subst rule. cbn in Hd.
      apply list_elem_of_singleton in Hd. subst dep. cbn. eauto.
  - intros r Hr Hl. apply elem_of_cons in Hr as [-> | Hr];
      [discriminate Hl |].
    apply list_elem_of_singleton in Hr. subst r.
    apply (height_le_intro _ "reported" file_rule 4); [reflexivity |].
    intros dep Hd. cbn in Hd. apply list_elem_of_singleton in Hd.
    now subst dep.
Defined.

(** ** The rules of a rule set *)




Lemma assemble_rules (topologically_order_rules : list Rule -> list Rule)
    (recursion_limit : nat) (all : list Rule) (rs : RuleSet) :
  assemble topologically_order_rules recursion_limit all = Ok rs ->
  rules rs = rules_by_name all /\ all <> [].
Proof.
  unfold assemble. intros H. apply bind_Ok in H as ([] & _ & H).
  destruct all as [|a all']; [discriminate H |].
  cbn [List.length Nat.eqb] in H.
  apply bind_Ok in H as (l1 & _ & H). apply bind_Ok in H as (l2 & _ & H).
  apply bind_Ok in H as (l3 & _ & H). injection H as <-.
  split; [reflexivity | discriminate].
Qed.



(** ** Filtering a rule set *)

Lemma rules_by_name_values (d : list (string * Rule)) :
  keyed_by_name d -> rules_by_name (dict_values d) = d.
Proof.
  intros [Hnd Hk]. unfold rules_by_name, dict_values.
  assert (Hn : map name (map snd d) = map fst d).
  { clear Hnd. induction d as [|[k r] d IH]; [reflexivity |]. simpl.
    rewrite (Hk k r (list_elem_of_here _ _)). f_equal. apply IH.
    intros k' r' H. apply Hk. now apply list_elem_of_further. }
  rewrite fold_dict_set_fresh by (simpl; now rewrite Hn).
  simpl. clear Hnd Hn. induction d as [|[k r] d IH]; [reflexivity |].
  simpl. rewrite (Hk k r (list_elem_of_here _ _)). f_equal. apply IH.
  intros k' r' H. apply Hk. now apply list_elem_of_further.
Qed.

Lemma filter_loop_spec (recursion_limit : nat) (tag : string)
    (all rules : list Rule) :
  forall acc s,
    (forall x, x ∈ acc -> x ∈ dict_values (rules_by_name all)) ->
    filter_loop recursion_limit tag all rules acc = Ok s ->
    forall r,
      r ∈ s <->
      r ∈ acc
      \/ (r ∈ dict_values (rules_by_name all)
          /\ exists r0, r0 ∈ rules /\ meta_has_tag tag r0 = true
                        /\ reach (rules_by_name all) (name r0) (name r)).
Proof.
  induction rules as [|x rules IH]; intros acc s Hacc H r.
  - injection H as <-. split; [now left |].
    intros [Hr | (_ & r0 & H0 & _)]; [exact Hr | now apply elem_of_nil in H0].
  - cbn [filter_loop] in H. destruct (meta_has_tag tag x) eqn:Et.
    + destruct (get_rules_and_dependencies _ _ _) as [deps|e] eqn:Ed;
        [| discriminate].
      cbn [bind] in H.
      pose proof (get_rules_and_dependencies_spec _ _ _ _ Ed) as Hdeps.
      assert (Hd : forall y, y ∈ deps -> y ∈ dict_values (rules_by_name all)).
      { intros y Hy. now apply Hdeps in Hy as [Hy _]. }
      rewrite (IH (rule_set_update acc deps) s) by
        (try exact H; intros y Hy;
         apply (rule_set_update_spec (fun l => l) all _ _ Hacc Hd) in Hy as [Hy | Hy];
         auto).
      rewrite (rule_set_update_spec (fun l => l) all _ _ Hacc Hd), Hdeps. split.
      * intros [[Hr | [Hv Hreach]] | (Hv & r0 & H0 & Hl & Hreach)].
        -- now left.
        -- right. split; [exact Hv |]. exists x.
           split; [apply elem_of_cons; now left | now split].
        -- right. split; [exact Hv |]. exists r0.
           split; [apply elem_of_cons; now right | now split].
      * intros [Hr | (Hv & r0 & H0 & Hl & Hreach)]; [left; now left |].
        apply elem_of_cons in H0 as [-> | H0]; [left; right; now split |].
        right. split; [exact Hv |]. now exists r0.
    + rewrite (IH _ _ Hacc H r). split.
      * intros [Hr | (Hv & r0 & H0 & Hl & Hreach)]; [now left |].
        right. split; [exact Hv |]. exists r0.
        split; [apply elem_of_cons; now right | now split].
      * intros [Hr | (Hv & r0 & H0 & Hl & Hreach)]; [now left |].
        apply elem_of_cons in H0 as [-> | H0]; [congruence |].
        right. split; [exact Hv |]. now exists r0.
Qed.

Lemma rule_set_add_NoDup (r : Rule) (s : list Rule) :
  NoDup (map name s) -> NoDup (map name (rule_set_add r s)).
Proof.
  intros Hs. unfold rule_set_add.
  destruct (existsb _ s) eqn:E; [exact Hs |].
  rewrite map_app. apply NoDup_app. split; [exact Hs |].
  split; [| apply NoDup_singleton].
  intros n Hn Hr. apply list_elem_of_singleton in Hr. subst n.
  change (map name s) with (name <$> s) in Hn.
  apply list_elem_of_fmap in Hn as (r' & En & Hr').
  assert (existsb (fun r' => String.eqb (name r') (name r)) s = true).
  { apply existsb_elem. exists r'. split; [exact Hr' |].
    now apply String.eqb_eq. }
  congruence.
Qed.

Lemma rule_set_update_NoDup (new s : list Rule) :
  NoDup (map name s) -> NoDup (map name (rule_set_update s new)).
Proof.
  unfold rule_set_update. revert s.
  induction new as [|x new IH]; intros s Hs; [exact Hs |].
  simpl. apply IH. now apply rule_set_add_NoDup.
Qed.

Lemma filter_loop_NoDup (recursion_limit : nat) (tag : string)
    (all rules : list Rule) :
  forall acc s,
    NoDup (map name acc) ->
    filter_loop recursion_limit tag all rules acc = Ok s ->
    NoDup (map name s).
Proof.
  induction rules as [|x rules IH]; intros acc s Hacc H.
  - now injection H as <-.
  - cbn [filter_loop] in H. destruct (meta_has_tag tag x).
    + apply bind_Ok in H as (deps & _ & H).
      refine (IH _ _ _ H). now apply rule_set_update_NoDup.
    + exact (IH _ _ Hacc H).
Qed.

(** X25: when [filter_rules_by_meta] on a rule set that was built returns a
    rule set, its rules are exactly the rules of the given set that can be
    reached, along dependencies, from a rule with the tag in a text entry of
    its metadata. *)
Theorem filter_rules_by_meta_rules (uuid4_hex : nat -> string)
    (topologically_order_rules : list Rule -> list Rule)
    (recursion_limit : nat) (input : list Rule) (self rs : RuleSet)
    (tag : string) :
  returned (RuleSet_init uuid4_hex topologically_order_rules
              recursion_limit input) = Ok self ->
  filter_rules_by_meta uuid4_hex topologically_order_rules recursion_limit
    self tag = Ok rs ->
  forall r,
    r ∈ dict_values (rules rs) <->
    r ∈ dict_values (rules self)
    /\ exists r0,
         r0 ∈ dict_values (rules self) /\ meta_has_tag tag r0 = true
         /\ reach (rules self) (name r0) (name r).
Proof.
  intros Hself H r.
  pose proof (RuleSet_init_Ok_unique _ _ _ _ _ Hself) as Hnd.
  rewrite (RuleSet_init_returned _ _ _ _ Hnd) in Hself.
  apply assemble_rules in Hself as [Hd _].
  pose proof (rules_by_name_keyed (extracted uuid4_hex input)) as Hk.
  rewrite <- Hd in Hk.
  unfold filter_rules_by_meta in H. apply bind_Ok in H as (F & HF & H).
  pose proof (filter_loop_spec _ _ _ _ _ _
                (fun x Hx => False_ind _ (proj1 (elem_of_nil x) Hx)) HF)
    as Hspec.
  rewrite (rules_by_name_values _ Hk) in Hspec.
  pose proof (filter_loop_NoDup _ _ _ _ [] _ (NoDup_nil_2 : NoDup (map name [])) HF)
    as HndF.
  rewrite (RuleSet_init_returned _ _ _ _ HndF) in H.
  rewrite (extracted_clean uuid4_hex F) in H.
  - apply assemble_rules in H as [-> _].
    rewrite (rules_by_name_unique F HndF), Hspec. split.
    + intros [Hr | Hr]; [now apply elem_of_nil in Hr | exact Hr].
    + auto.
  - intros x Hx. apply Hspec in Hx as [Hx | [Hx _]];
      [now apply elem_of_nil in Hx |].
    rewrite Hd in Hx. unfold dict_values in Hx.
    change (map snd (rules_by_name (extracted uuid4_hex input)))
      with (snd <$> rules_by_name (extracted uuid4_hex input)) in Hx.
    apply list_elem_of_fmap in Hx as ([k y] & -> & Hy).
    apply rules_by_name_elem in Hy.
    exact (extracted_subscopes_only_at_roots uuid4_hex input _ Hy).
Qed.

Lemma filter_rules_by_meta_rules_witness :
  lib_rule ∈ dict_values (rules example_rule_set) <->
  lib_rule ∈ dict_values (rules example_rule_set)
  /\ exists r0,
       r0 ∈ dict_values (rules example_rule_set)
       /\ meta_has_tag "reported" r0 = true
       /\ reach (rules example_rule_set) (name r0) (name lib_rule).
Proof.
  apply (filter_rules_by_meta_rules (fun _ => "0") (fun l => l) 5
           [lib_rule; file_rule] example_rule_set example_rule_set
           "reported");
    vm_compute; reflexivity.
Defined.

Lemma reach_trans (d : list (string * Rule)) (a b c : string) :
  reach d a b -> reach d b c -> reach d a c.
Proof.
  induction 1 as [n|n rule dep m Hg Hd _ IH]; intros H; [exact H |].
  eapply reach_step; eauto.
Qed.

Section Selection.

Variable d : list (string * Rule).
Hypothesis d_keyed : keyed_by_name d.
Hypothesis d_met : dependencies_met d.

(** A selection [F] of rules of [d] with distinct names that holds,
    with a rule, the rules it depends on. *)
Variable F : list Rule.
Hypothesis F_NoDup : NoDup (map name F).
Hypothesis F_rules : forall r, r ∈ F -> r ∈ dict_values d.
Hypothesis F_closed :
  forall r dep r',
    r ∈ F -> dep ∈ get_dependencies r -> dict_get d dep = Some r' -> r' ∈ F.

Lemma selection_get (n : string) (r : Rule) :
  dict_get (rules_by_name F) n = Some r <-> r ∈ F /\ name r = n.
Proof.
  pose proof (rules_by_name_keyed F) as Hk. split.
  - intros H. pose proof (dict_get_elem _ _ _ H) as He.
    split; [now apply rules_by_name_elem in He | exact (proj2 Hk _ _ He)].
  - intros [Hr <-]. apply (dict_values_spec _ _ Hk).
    now rewrite (rules_by_name_unique F F_NoDup).
Qed.

Lemma selection_met : dependencies_met (rules_by_name F).
Proof.
  intros rule dep Hr Hd. rewrite (rules_by_name_unique F F_NoDup) in Hr.
  destruct (d_met rule dep (F_rules _ Hr) Hd) as [r' Hr'].
  exists r'. apply selection_get. split; [exact (F_closed _ _ _ Hr Hd Hr') |].
  exact (proj1 (dict_get_name d d_keyed _ _ Hr')).
Qed.

Lemma selection_height (n : string) (k : nat) :
  height_le d n k ->
  (forall r, dict_get d n = Some r -> r ∈ F) ->
  height_le (rules_by_name F) n k.
Proof.
  induction 1 as [n rule k Hg Hdeps IH]; intros Hin.
  pose proof (Hin rule Hg) as Hr.
  apply (height_le_intro _ n rule k).
  - apply selection_get. split; [exact Hr |].
    exact (proj1 (dict_get_name d d_keyed _ _ Hg)).
  - intros dep Hd. apply IH; [exact Hd |].
    intros r' Hr'. exact (F_closed _ _ _ Hr Hd Hr').
Qed.

End Selection.

Lemma filter_loop_returns (recursion_limit : nat) (tag : string)
    (all rules : list Rule) :
  forall acc,
    (exists s, filter_loop recursion_limit tag all rules acc = Ok s)
    <-> forall x, x ∈ rules -> meta_has_tag tag x = true ->
          height_le (rules_by_name all) (name x) recursion_limit.
Proof.
  induction rules as [|a rules IH]; intros acc; cbn [filter_loop].
  - split; [intros _ x Hx; now apply elem_of_nil in Hx | eauto].
  - destruct (meta_has_tag tag a) eqn:Ea.
    + split.
      * intros [s H]. apply bind_Ok in H as (deps & Hd & H).
        intros x Hx Hl. apply elem_of_cons in Hx as [-> | Hx].
        -- apply closure_Ok_iff. eauto.
        -- apply (proj1 (IH (rule_set_update acc deps))); eauto.
      * intros H.
        destruct (proj2 (closure_Ok_iff recursion_limit all (name a))
                    (H a (list_elem_of_here _ _) Ea)) as [deps ->].
        cbn [bind]. apply IH. intros x Hx. apply H.
        now apply list_elem_of_further.
    + rewrite IH. split; intros H x Hx Hl.
      * apply elem_of_cons in Hx as [-> | Hx]; [congruence | now apply H].
      * apply H; [now apply list_elem_of_further | exact Hl].
Qed.

Lemma filter_loop_error (recursion_limit : nat) (tag : string)
    (all rules : list Rule) :
  dependencies_met (rules_by_name all) ->
  (forall x, x ∈ rules -> name x ∈ map name all) ->
  forall acc e,
    filter_loop recursion_limit tag all rules acc = Raise e ->
    e = RecursionError.
Proof.
  intros Hmet. induction rules as [|a rules IH]; intros Hin acc e H;
    cbn [filter_loop] in H; [discriminate H |].
  assert (Hin' : forall x, x ∈ rules -> name x ∈ map name all)
    by (intros x Hx; apply Hin; now apply list_elem_of_further).
  destruct (meta_has_tag tag a); [| exact (IH Hin' _ _ H)].
  destruct (get_rules_and_dependencies recursion_limit all (name a))
    as [deps|e1] eqn:Ec; cbn [bind] in H.
  - exact (IH Hin' _ _ H).
  - injection H as <-.
    assert (Hh : ~ height_le (rules_by_name all) (name a) recursion_limit).
    { intros Hh. apply closure_Ok_iff in Hh as [l Hl]. congruence. }
    pose proof (closure_met_error recursion_limit all (name a) Hmet
                  (Hin a (list_elem_of_here _ _)) Hh) as E.
    congruence.
Qed.

(** X26: [filter_rules_by_meta] on a rule set that was built returns a rule
    set exactly when some rule has the tag in a text entry of its metadata
    and, from every such rule, following dependencies ends within the depth
    of nested calls the interpreter allows; when some such rule fails that,
    the call ends in a [RecursionError]. *)
Theorem filter_rules_by_meta_returns (uuid4_hex : nat -> string)
    (topologically_order_rules : list Rule -> list Rule)
    (recursion_limit : nat) (input : list Rule) (self : RuleSet)
    (tag : string) :
  returned (RuleSet_init uuid4_hex topologically_order_rules
              recursion_limit input) = Ok self ->
  let selected r :=
    r ∈ dict_values (rules self) /\ meta_has_tag tag r = true in
  let r := filter_rules_by_meta uuid4_hex topologically_order_rules
             recursion_limit self tag in
  ((exists rs, r = Ok rs) <->
   (exists r0, selected r0)
   /\ forall r0, selected r0 ->
        height_le (rules self) (name r0) recursion_limit)
  /\ ((exists r0, selected r0
                  /\ ~ height_le (rules self) (name r0) recursion_limit) ->
      r = Raise RecursionError).
Proof.
  intros Hself selected r.
  pose proof (RuleSet_init_Ok_unique _ _ _ _ _ Hself) as Hnd.
  rewrite (RuleSet_init_returned _ _ _ _ Hnd) in Hself.
  destruct (proj1 (assemble_Ok _ _ _) (ex_intro _ self Hself))
    as (Hmet & _ & Hh).
  apply assemble_rules in Hself as [Hd _].
  pose proof (rules_by_name_keyed (extracted uuid4_hex input)) as Hk.
  rewrite <- Hd in Hk, Hmet, Hh.
  set (V := dict_values (rules self)) in *.
  assert (HV : rules_by_name V = rules self)
    by exact (rules_by_name_values _ Hk).
  assert (Hall : forall x, x ∈ V -> x ∈ extracted uuid4_hex input).
  { intros x Hx. unfold V, dict_values in Hx. rewrite Hd in Hx.
    change (map snd (rules_by_name (extracted uuid4_hex input)))
      with (snd <$> rules_by_name (extracted uuid4_hex input)) in Hx.
    apply list_elem_of_fmap in Hx as ([k y] & -> & Hy).
    now apply rules_by_name_elem in Hy. }
  assert (Hloop : (exists F, filter_loop recursion_limit tag V V [] = Ok F)
                  <-> forall r0, selected r0 ->
                        height_le (rules self) (name r0) recursion_limit).
  { rewrite (filter_loop_returns recursion_limit tag V V []), HV.
    unfold selected. split; intros H x; [intros [H1 H2] | intros H1 H2];
      now apply H. }
  assert (Hinit : forall F,
            filter_loop recursion_limit tag V V [] = Ok F ->
            (exists rs,
               returned (RuleSet_init uuid4_hex topologically_order_rules
                           recursion_limit F) = Ok rs)
            <-> exists r0, selected r0).
  { intros F HF.
    pose proof (filter_loop_spec _ _ _ _ _ _
                  (fun x Hx => False_ind _ (proj1 (elem_of_nil x) Hx)) HF)
      as Hspec.
    rewrite HV in Hspec. fold V in Hspec.
    assert (HFV : forall x, x ∈ F <->
              x ∈ V /\ exists r0, r0 ∈ V /\ meta_has_tag tag r0 = true
                                  /\ reach (rules self) (name r0) (name x)).
    { intros x. rewrite Hspec. split; [| auto].
      intros [Hx | Hx]; [now apply elem_of_nil in Hx | exact Hx]. }
    pose proof (filter_loop_NoDup _ _ _ _ [] _
                  (NoDup_nil_2 : NoDup (map name [])) HF) as HndF.
    rewrite (RuleSet_init_returned _ _ _ _ HndF).
    rewrite (extracted_clean uuid4_hex F)
      by (intros x Hx; apply HFV in Hx as [Hx _];
          exact (extracted_subscopes_only_at_roots uuid4_hex input _
                   (Hall x Hx))).
    rewrite assemble_Ok.
    assert (Hclosed : forall x dep x',
              x ∈ F -> dep ∈ get_dependencies x ->
              dict_get (rules self) dep = Some x' -> x' ∈ F).
    { intros x dep x' Hx Hdep Hx'.
      apply HFV in Hx as (Hx & r0 & H0 & Ht & Hr). apply HFV.
      destruct (dict_get_name _ Hk _ _ Hx') as [En Hx''].
      split.
      - apply (dict_values_spec _ _ Hk). exact Hx''.
      - exists r0. split; [exact H0 |]. split; [exact Ht |].
        apply (reach_trans _ _ _ _ Hr). rewrite En.
        apply (reach_step _ (name x) x dep dep);
          [now apply (dict_values_spec _ _ Hk) | exact Hdep | constructor]. }
    assert (HFr : forall x, x ∈ F -> x ∈ V)
      by (intros x Hx; now apply HFV in Hx).
    split.
    - intros (_ & Hne & _). destruct F as [|x F']; [contradiction |].
      destruct (proj1 (HFV x) (list_elem_of_here _ _))
        as (_ & r0 & H0 & Ht & _).
      exists r0. now split.
    - intros (r0 & H0 & Ht).
      split; [exact (selection_met _ Hk Hmet F HndF HFr Hclosed) |].
      split.
      + intros ->. apply (elem_of_nil r0). apply HFV.
        split; [exact H0 |]. exists r0. split; [exact H0 |].
        split; [exact Ht | constructor].
      + intros x Hx Hl.
        apply (selection_height _ Hk F HndF Hclosed).
        * apply Hh; [apply Hall; now apply HFr | exact Hl].
        * intros x' Hx'.
          assert (x' = x); [| now subst].
          pose proof (proj1 (dict_values_spec _ _ Hk) (HFr x Hx)) as E.
          congruence. }
  split.
  - subst r. unfold filter_rules_by_meta. fold V. split.
    + intros [rs H]. apply bind_Ok in H as (F & HF & H).
      split; [apply (Hinit F HF); eauto | apply Hloop; eauto].
    + intros [H0 Hheights]. destruct (proj2 Hloop Hheights) as [F HF].
      rewrite HF. cbn [bind]. now apply (Hinit F HF).
  - intros (r0 & [H0 Ht] & Hno). subst r. unfold filter_rules_by_meta.
    fold V.
    destruct (filter_loop recursion_limit tag V V []) as [F|e] eqn:HF.
    + exfalso. apply Hno. apply Hloop; [eauto | now split].
    + cbn [bind]. f_equal.
      refine (filter_loop_error recursion_limit tag V V _ _ _ _ HF).
      * now rewrite HV.
      * intros x Hx. change (map name V) with (name <$> V).
        apply list_elem_of_fmap. now exists x.
Qed.

Lemma filter_rules_by_meta_returns_witness :
  exists rs,
    filter_rules_by_meta (fun _ => "0") (fun l => l) 5 example_rule_set
      "reported" = Ok rs.
Proof.
  apply (proj1 (filter_rules_by_meta_returns (fun _ => "0") (fun l => l) 5
                  [lib_rule; file_rule] example_rule_set "reported"
                  eq_refl)).
  split.
  - exists file_rule. split; [| reflexivity].
    apply list_elem_of_further, list_elem_of_here.
  - intros r0 [H0 Ht]. cbn in H0.
    apply elem_of_cons in H0 as [-> | H0]; [discriminate Ht |].
    apply list_elem_of_singleton in H0. subst r0.
    apply (height_le_intro _ "reported" file_rule 4); [reflexivity |].
    intros dep Hd. cbn in Hd. apply list_elem_of_singleton in Hd. subst dep.
    apply (height_le_intro _ "helper" lib_rule 3); [reflexivity |].
    intros dep Hd. now apply elem_of_nil in Hd.
Defined.

(** ** The common style of a rule document *)

Lemma dict_get_app {A} (a b : list (string * A)) (k : string) :
  dict_get (a ++ b)%list k
  = match dict_get a k with Some v => Some v | None => dict_get b k end.
Proof.
  induction a as [|[k' v] a IH]; [reflexivity |]. simpl.
  destruct (String.eqb k' k); [reflexivity | exact IH].
Qed.

Lemma dict_get_None {A} (d : list (string * A)) (k : string) :
  dict_get d k = None <-> k ∉ map fst d.
Proof.
  induction d as [|[k' v] d IH]; simpl.
  - split; [intros _ H; now apply elem_of_nil in H | reflexivity].
  - destruct (String.eqb_spec k' k) as [-> | Hne].
    + split; [discriminate | intros H; exfalso; apply H, list_elem_of_here].
    + rewrite IH. split; intros H H'.
      * apply elem_of_cons in H' as [H' | H']; [congruence | auto].
      * apply H. now apply list_elem_of_further.
Qed.

Lemma dict_get_in {A} (d : list (string * A)) (k : string) :
  is_Some (dict_get d k) <-> k ∈ map fst d.
Proof.
  destruct (dict_get d k) as [v|] eqn:E.
  - split; [intros _ | eauto]. apply dict_get_elem in E.
    change (map fst d) with (fst <$> d). apply list_elem_of_fmap.
    now exists (k, v).
  - split; [intros [v Hv]; discriminate Hv |].
    intros H. now apply dict_get_None in E.
Qed.

Lemma dict_set_fresh {A} (d : list (string * A)) (k : string) (v : A) :
  dict_get d k = None -> dict_set d k v = (d ++ [(k, v)])%list.
Proof.
  induction d as [|[k' x] d IH]; simpl; [reflexivity |].
  destruct (String.eqb k' k); [discriminate |]. intros H. now rewrite IH.
Qed.

Lemma dict_del_keys {A} (d : list (string * A)) (k : string) :
  map fst (dict_del d k) = filter (fun x => x <> k) (map fst d).
Proof.
  unfold dict_del. induction d as [|[k' v] d IH]; [reflexivity |].
  cbn [map fst]. rewrite !filter_cons. cbn [fst].
  destruct (decide (k' <> k)); cbn [map fst]; now rewrite IH.
Qed.

Lemma dict_del_get {A} (d : list (string * A)) (k k' : string) :
  dict_get (dict_del d k) k'
  = if String.eqb k k' then None else dict_get d k'.
Proof.
  unfold dict_del. induction d as [|[k0 v] d IH]; simpl.
  - now destruct (String.eqb k k').
  - rewrite filter_cons. cbn [fst]. destruct (decide (k0 <> k)) as [Hne | He].
    + simpl. rewrite IH. destruct (String.eqb_spec k0 k') as [-> | Hne'].
      * apply String.eqb_neq in Hne. rewrite String.eqb_sym in Hne.
        now rewrite Hne.
      * reflexivity.
    + assert (k0 = k) by (destruct (decide (k0 = k)); [assumption | contradiction]).
      subst k0. rewrite IH. destruct (String.eqb k k'); reflexivity.
Qed.

Lemma move_to_end_spec {A} (m : list (string * A)) (k : string) (v : A) :
  dict_get m k = Some v ->
  move_to_end m k = Ok (dict_del m k ++ [(k, v)])%list
  /\ (forall k', dict_get (dict_del m k ++ [(k, v)])%list k' = dict_get m k')
  /\ map fst (dict_del m k ++ [(k, v)])%list
     = (filter (fun x => x <> k) (map fst m) ++ [k])%list.
Proof.
  intros Hk. unfold move_to_end. rewrite Hk. split; [| split].
  - rewrite dict_set_fresh; [reflexivity |].
    rewrite dict_del_get. now rewrite String.eqb_refl.
  - intros k'. rewrite dict_get_app, dict_del_get. simpl.
    destruct (String.eqb_spec k k') as [<- | Hne]; [now rewrite Hk |].
    now destruct (dict_get m k').
  - rewrite map_app, dict_del_keys. reflexivity.
Qed.

Lemma filter_elem_ext {A} (P Q : A -> Prop) `{forall x, Decision (P x)}
    `{forall x, Decision (Q x)} (l : list A) :
  (forall x, x ∈ l -> (P x <-> Q x)) -> filter P l = filter Q l.
Proof.
  induction l as [|a l IH]; intros Hl; [reflexivity |].
  rewrite !filter_cons.
  assert (E : filter P l = filter Q l)
    by (apply IH; intros x Hx; apply Hl; now apply list_elem_of_further).
  pose proof (Hl a (list_elem_of_here _ _)) as Ha.
  destruct (decide (P a)), (decide (Q a)); rewrite ?E; tauto.
Qed.

Lemma filter_all {A} (P : A -> Prop) `{forall x, Decision (P x)}
    (l : list A) :
  (forall x, x ∈ l -> P x) -> filter P l = l.
Proof.
  induction l as [|a l IH]; intros Hl; [reflexivity |].
  rewrite filter_cons_True by (apply Hl, list_elem_of_here).
  f_equal. apply IH. intros x Hx. apply Hl. now apply list_elem_of_further.
Qed.

Lemma filter_none {A} (P : A -> Prop) `{forall x, Decision (P x)}
    (l : list A) :
  (forall x, x ∈ l -> ~ P x) -> filter P l = [].
Proof.
  induction l as [|a l IH]; intros Hl; [reflexivity |].
  rewrite filter_cons_False by (apply Hl, list_elem_of_here).
  apply IH. intros x Hx. apply Hl. now apply list_elem_of_further.
Qed.

Lemma move_each_spec {A} (skip : string -> list (string * A) -> bool)
    (ks : list string) :
  (forall k m1 m2,
     (forall x, x ∈ map fst m1 <-> x ∈ map fst m2) ->
     skip k m1 = skip k m2) ->
  NoDup ks ->
  forall m : list (string * A),
    NoDup (map fst m) ->
    (forall k, k ∈ ks -> skip k m = false -> k ∈ map fst m) ->
    exists m',
      move_each skip ks m = Ok m'
      /\ (forall k, dict_get m' k = dict_get m k)
      /\ map fst m'
         = (filter (fun x => x ∉ filter (fun k => skip k m = false) ks)
              (map fst m)
            ++ filter (fun k => skip k m = false) ks)%list.
Proof.
  intros Hskip. induction ks as [|k ks IH]; intros Hks m Hnd Hpres.
  - exists m. split; [reflexivity |]. split; [reflexivity |].
    rewrite filter_nil, app_nil_r. symmetry. apply filter_all.
    intros x _ Hx. now apply elem_of_nil in Hx.
  - apply NoDup_cons in Hks as [Hk Hks]. cbn [move_each].
    rewrite filter_cons. destruct (skip k m) eqn:Es.
    + destruct (decide (true = false)) as [E | _]; [discriminate E |].
      apply (IH Hks m Hnd). intros k' Hk'. apply Hpres.
      now apply list_elem_of_further.
    + destruct (decide (false = false)) as [_ | E]; [| contradiction].
      pose proof (Hpres k (list_elem_of_here _ _) Es) as Hin.
      destruct (proj2 (dict_get_in m k) Hin) as [v Hv].
      destruct (move_to_end_spec m k v Hv) as (Hmove & Hget & Hkeys).
      rewrite Hmove. cbn [bind].
      set (m1 := (dict_del m k ++ [(k, v)])%list) in *.
      assert (Hmem : forall x, x ∈ map fst m1 <-> x ∈ map fst m).
      { intros x. rewrite Hkeys, elem_of_app, list_elem_of_filter,
          list_elem_of_singleton.
        split; [intros [[_ H] | ->]; assumption |].
        intros H. destruct (decide (x = k)); auto. }
      assert (Hnd1 : NoDup (map fst m1)).
      { rewrite Hkeys. apply NoDup_app. split; [now apply NoDup_filter |].
        split; [| apply NoDup_singleton].
        intros x Hx Hx'. apply list_elem_of_singleton in Hx'.
        apply list_elem_of_filter in Hx as [Hx _]. contradiction. }
      assert (HM : filter (fun k0 => skip k0 m1 = false) ks
                   = filter (fun k0 => skip k0 m = false) ks).
      { apply filter_elem_ext. intros x _. now rewrite (Hskip x m1 m Hmem). }
      destruct (IH Hks m1 Hnd1) as (m' & Hm' & Hget' & Hkeys').
      { intros k' Hk' Hs. apply Hmem. apply Hpres;
          [now apply list_elem_of_further |].
        now rewrite <- (Hskip k' m1 m Hmem). }
      exists m'. split; [exact Hm' |].
      split; [intros k'; now rewrite Hget', Hget |].
      rewrite Hkeys', HM, Hkeys, filter_app, list_filter_filter.
      set (M := filter (fun k0 => skip k0 m = false) ks).
      assert (HkM : k ∉ M).
      { intros H. apply list_elem_of_filter in H as [_ H]. contradiction. }
      rewrite (filter_all (fun x => x ∉ M) [k])
        by (intros x Hx; apply list_elem_of_singleton in Hx; now subst).
      rewrite <- app_assoc. cbn [app]. f_equal.
      apply filter_elem_ext. intros x _. rewrite elem_of_cons. tauto.
Qed.

Lemma sorted_perm (ks : list string) : sorted ks ≡ₚ ks.
Proof. apply merge_sort_Permutation. Qed.

Lemma sorted_unique (k1 k2 : list string) : k1 ≡ₚ k2 -> sorted k1 = sorted k2.
Proof.
  intros Hp. apply (Sorted_unique String.le).
  - apply Sorted_merge_sort. apply _.
  - apply Sorted_merge_sort. apply _.
  - now rewrite !sorted_perm.
Qed.

Lemma COMMON_KEYS_NoDup : NoDup COMMON_KEYS.
Proof. apply (bool_decide_unpack _). vm_compute. exact I. Qed.

Lemma order_meta_keys {A} (meta : list (string * A)) :
  NoDup (map fst meta) ->
  exists meta',
    order_meta meta = Ok meta'
    /\ (forall k, dict_get meta' k = dict_get meta k)
    /\ map fst meta'
       = (filter (fun k => k ∈ map fst meta) COMMON_KEYS
          ++ filter (fun k => k ∉ COMMON_KEYS) (sorted (map fst meta)))%list.
Proof.
  intros Hnd. unfold order_meta.
  destruct (move_each_spec
              (fun key (m : list (string * A)) =>
                 negb (bool_decide (key ∈ map fst m)))
              COMMON_KEYS) with (m := meta)
    as (m1 & Hm1 & Hget1 & Hkeys1).
  { intros k a b Hab. f_equal. apply bool_decide_ext, Hab. }
  { apply COMMON_KEYS_NoDup. }
  { exact Hnd. }
  { intros k _ Hs. apply negb_false_iff, bool_decide_eq_true in Hs.
    exact Hs. }
  rewrite Hm1. cbn [bind].
  set (K := map fst meta) in *.
  set (M1 := filter (fun k => k ∈ K) COMMON_KEYS).
  assert (EM1 : filter (fun k => negb (bool_decide (k ∈ K)) = false)
                  COMMON_KEYS = M1).
  { apply filter_elem_ext. intros x _.
    rewrite negb_false_iff, bool_decide_eq_true. reflexivity. }
  rewrite EM1 in Hkeys1.
  assert (HM1 : forall x, x ∈ M1 <-> x ∈ K /\ x ∈ COMMON_KEYS)
    by (intros x; exact (list_elem_of_filter (fun k => k ∈ K) COMMON_KEYS x)).
  assert (Hmem1 : forall x, x ∈ map fst m1 <-> x ∈ K).
  { intros x. rewrite Hkeys1, elem_of_app, list_elem_of_filter, HM1.
    destruct (decide (x ∈ COMMON_KEYS)); tauto. }
  assert (Hnd1 : NoDup (map fst m1)).
  { rewrite Hkeys1. apply NoDup_app. split; [now apply NoDup_filter |].
    split; [| apply NoDup_filter, COMMON_KEYS_NoDup].
    intros x Hx. now apply list_elem_of_filter in Hx as [Hx _]. }
  assert (Hperm : map fst m1 ≡ₚ K)
    by (apply NoDup_Permutation; assumption).
  destruct (move_each_spec
              (fun key (_ : list (string * A)) =>
                 bool_decide (key ∈ COMMON_KEYS))
              (sorted (map fst m1))) with (m := m1)
    as (m2 & Hm2 & Hget2 & Hkeys2).
  { reflexivity. }
  { rewrite sorted_perm. exact Hnd1. }
  { exact Hnd1. }
  { intros k Hk _. now rewrite sorted_perm in Hk. }
  exists m2. split; [exact Hm2 |].
  split; [intros k; now rewrite Hget2, Hget1 |].
  rewrite Hkeys2, (sorted_unique _ _ Hperm).
  set (M2 := filter (fun k => k ∉ COMMON_KEYS) (sorted K)).
  assert (EM2 : filter (fun k => bool_decide (k ∈ COMMON_KEYS) = false)
                  (sorted K) = M2).
  { apply filter_elem_ext. intros x _. rewrite bool_decide_eq_false.
    reflexivity. }
  rewrite EM2. f_equal.
  assert (HM2 : forall x, x ∈ M2 <-> x ∈ K /\ x ∉ COMMON_KEYS).
  { intros x. unfold M2. rewrite list_elem_of_filter, sorted_perm. tauto. }
  rewrite Hkeys1, filter_app.
  rewrite (filter_none (fun x => x ∉ M2)), (filter_all (fun x => x ∉ M2));
    [reflexivity | |].
  - intros x Hx. rewrite HM2. apply HM1 in Hx. tauto.
  - intros x Hx. apply list_elem_of_filter in Hx as [Hx HK].
    rewrite HM1 in Hx. rewrite HM2. tauto.
Qed.

Lemma dict_get_Some_elem {A} (d : list (string * A)) (k : string) (v : A) :
  NoDup (map fst d) -> (dict_get d k = Some v <-> (k, v) ∈ d).
Proof.
  intros Hnd. split; [apply dict_get_elem | now apply dict_get_unique].
Qed.

Lemma dict_ext {A} (a b : list (string * A)) :
  NoDup (map fst a) -> map fst a = map fst b ->
  (forall k, dict_get a k = dict_get b k) -> a = b.
Proof.
  revert b. induction a as [|[k v] a IH]; intros [|[k' v'] b] Hnd Hk Hg;
    try discriminate Hk; [reflexivity |].
  cbn [map fst] in Hk, Hnd. injection Hk as <- Hk.
  apply NoDup_cons in Hnd as [Hka Hnd].
  pose proof (Hg k) as Hv. simpl in Hv. rewrite String.eqb_refl in Hv.
  injection Hv as <-. f_equal. apply IH; [exact Hnd | exact Hk |].
  intros k0. specialize (Hg k0). simpl in Hg.
  destruct (String.eqb_spec k k0) as [E | Hne]; [subst k0 | exact Hg].
  rewrite (proj2 (dict_get_None a k) Hka).
  symmetry. apply dict_get_None. now rewrite <- Hk.
Qed.

(** X27: the two loops of [Rule.to_yaml] over the [meta] mapping always run
    to their end. They leave every key with its value, and put the keys in
    this order: first the common keys the mapping holds, in the preferred
    order, then all other keys, sorted. *)
Theorem order_meta_spec (meta : list (string * Value)) :
  NoDup (map fst meta) ->
  exists meta',
    order_meta meta = Ok meta'
    /\ (forall k, dict_get meta' k = dict_get meta k)
    /\ map fst meta'
       = (filter (fun k => k ∈ map fst meta) COMMON_KEYS
          ++ filter (fun k => k ∉ COMMON_KEYS) (sorted (map fst meta)))%list.
Proof. apply order_meta_keys. Qed.

Lemma order_meta_spec_witness :
  exists meta',
    order_meta [("zeta", VNone); ("scope", VStr "file"); ("alpha", VNone);
                ("name", VStr "r")] = Ok meta'
    /\ (forall k,
          dict_get meta' k
          = dict_get [("zeta", VNone); ("scope", VStr "file");
                      ("alpha", VNone); ("name", VStr "r")] k)
    /\ map fst meta' = ["name"; "scope"; "alpha"; "zeta"].
Proof.
  apply (order_meta_spec [("zeta", VNone); ("scope", VStr "file");
                          ("alpha", VNone); ("name", VStr "r")]).
  apply (bool_decide_unpack _). vm_compute. exact I.
Defined.

Lemma order_meta_NoDup {A} (m m' : list (string * A)) :
  NoDup (map fst m) -> order_meta m = Ok m' -> NoDup (map fst m').
Proof.
  intros Hnd H. destruct (order_meta_keys m Hnd) as (m0 & Hm0 & _ & Hk).
  assert (m0 = m') by congruence. subst m0. rewrite Hk.
  apply NoDup_app. split; [apply NoDup_filter, COMMON_KEYS_NoDup |].
  split; [| apply NoDup_filter; now rewrite sorted_perm].
  intros x Hx Hx'. apply list_elem_of_filter in Hx as [_ Hx].
  apply list_elem_of_filter in Hx' as [Hx' _]. contradiction.
Qed.

Lemma order_meta_same {A} (a b : list (string * A)) :
  NoDup (map fst a) -> NoDup (map fst b) ->
  (forall k, dict_get a k = dict_get b k) ->
  order_meta a = order_meta b.
Proof.
  intros Ha Hb Hab.
  destruct (order_meta_keys a Ha) as (a' & Ea & Hga & Hka).
  destruct (order_meta_keys b Hb) as (b' & Eb & Hgb & Hkb).
  pose proof (order_meta_NoDup a a' Ha Ea) as Hnd'.
  rewrite Ea, Eb.
  assert (Hmem : forall k, k ∈ map fst a <-> k ∈ map fst b).
  { intros k. rewrite <- !dict_get_in, Hab. reflexivity. }
  assert (Hk : map fst a' = map fst b').
  { rewrite Hka, Hkb. f_equal.
    - apply filter_elem_ext. intros x _. apply Hmem.
    - f_equal. apply sorted_unique. now apply NoDup_Permutation. }
  f_equal. apply dict_ext; [exact Hnd' | exact Hk |].
  intros k. now rewrite Hga, Hgb.
Qed.

Lemma order_meta_idem {A} (m m' : list (string * A)) :
  NoDup (map fst m) -> order_meta m = Ok m' -> order_meta m' = Ok m'.
Proof.
  intros Hnd H. rewrite <- H. symmetry.
  destruct (order_meta_keys m Hnd) as (m0 & Hm0 & Hg & _).
  assert (m0 = m') by congruence. subst m0.
  apply order_meta_same;
    [exact Hnd | exact (order_meta_NoDup m m' Hnd H) |].
  intros k. now rewrite Hg.
Qed.

(** X28: the order that [Rule.to_yaml] gives the [meta] mapping depends on
    its entries only, not on the order they were in: two mappings with the
    same entries come out the same, and a mapping that has been put in order
    comes out as it is. *)
Theorem order_meta_canonical (m1 m2 : list (string * Value)) :
  NoDup (map fst m1) -> m1 ≡ₚ m2 ->
  order_meta m1 = order_meta m2
  /\ forall m', order_meta m1 = Ok m' -> order_meta m' = Ok m'.
Proof.
  intros Hnd Hp.
  assert (Hnd2 : NoDup (map fst m2)).
  { rewrite <- Hp. exact Hnd. }
  split; [| intros m'; now apply order_meta_idem].
  apply order_meta_same; [exact Hnd | exact Hnd2 |].
  intros k. destruct (dict_get m1 k) as [v|] eqn:E1.
  - symmetry. apply (dict_get_Some_elem _ _ _ Hnd2). rewrite <- Hp.
    now apply dict_get_elem.
  - symmetry. apply dict_get_None. rewrite <- Hp.
    now apply dict_get_None.
Qed.

Lemma order_meta_canonical_witness :
  order_meta [("zeta", VNone); ("name", VStr "r")]
  = order_meta [("name", VStr "r"); ("zeta", VNone)].
Proof.
  apply (order_meta_canonical [("zeta", VNone); ("name", VStr "r")]
           [("name", VStr "r"); ("zeta", VNone)]).
  - apply (bool_decide_unpack _). vm_compute. exact I.
  - apply Permutation_swap.
Defined.

Lemma dict_set_same {A} (d : list (string * A)) (k : string) (v : A) :
  dict_get d k = Some v -> dict_set d k v = d.
Proof.
  induction d as [|[k' x] d IH]; simpl; [discriminate |].
  destruct (String.eqb_spec k' k) as [-> | Hne].
  - intros H. now injection H as ->.
  - intros H. now rewrite IH.
Qed.

Lemma move_last_two {A} (r : list (string * A)) (a b : string) (va vb : A) :
  NoDup (map fst r) -> a <> b ->
  dict_get r a = Some va -> dict_get r b = Some vb ->
  exists r1 r',
    move_to_end r a = Ok r1 /\ move_to_end r1 b = Ok r'
    /\ (forall k, dict_get r' k = dict_get r k)
    /\ map fst r'
       = (filter (fun k => k <> a /\ k <> b) (map fst r) ++ [a; b])%list.
Proof.
  intros Hnd Hab Ha Hb.
  destruct (move_to_end_spec r a va Ha) as (E1 & Hg1 & Hk1).
  set (r1 := (dict_del r a ++ [(a, va)])%list) in *.
  assert (Hb1 : dict_get r1 b = Some vb) by now rewrite Hg1.
  destruct (move_to_end_spec r1 b vb Hb1) as (E2 & Hg2 & Hk2).
  exists r1. eexists. split; [exact E1 |]. split; [exact E2 |].
  split; [intros k; now rewrite Hg2, Hg1 |].
  rewrite Hk2, Hk1, filter_app, list_filter_filter.
  rewrite (filter_all (fun x => x <> b) [a])
    by (intros x Hx; apply list_elem_of_singleton in Hx; now subst).
  rewrite <- app_assoc. cbn [app]. f_equal.
  apply filter_elem_ext. intros x _. tauto.
Qed.

Lemma restyle_cases (top r m : list (string * Value)) (f : Value) :
  dict_get top "rule" = Some (VDict r) ->
  dict_get r "meta" = Some (VDict m) ->
  dict_get r "features" = Some f ->
  NoDup (map fst r) -> NoDup (map fst m) ->
  exists r' m',
    restyle (VDict top)
    = Ok (VDict (dict_set top "rule" (VDict (dict_set r' "meta" (VDict m')))))
    /\ order_meta m = Ok m'
    /\ (forall k, dict_get r' k = dict_get r k)
    /\ map fst r'
       = (filter (fun k => k <> "meta" /\ k <> "features") (map fst r)
          ++ ["meta"; "features"])%list.
Proof.
  intros Ht Hm Hf Hr Hmn. unfold restyle. cbn [getitem]. rewrite Ht.
  cbn [bind getitem]. rewrite Hm. cbn [bind].
  destruct (move_last_two r "meta" "features" (VDict m) f Hr
              ltac:(discriminate) Hm Hf) as (r1 & r' & E1 & E2 & Hg & Hk).
  destruct (order_meta_keys m Hmn) as (m' & Hm' & _ & _).
  exists r', m'. rewrite E1. cbn [bind]. rewrite E2. cbn [bind].
  rewrite Hm'. cbn [bind]. auto.
Qed.

(** X29: what [Rule.to_yaml] does to a document before writing it out, for a
    document whose [rule] mapping has a [meta] mapping and [features]: only
    the [rule] entry changes; in it every key other than [meta] keeps its
    value, the keys keep their order except that [meta] and [features] come
    last, and the [meta] entry is the given one put in order. Without
    [features] the call ends in a [KeyError]. *)
Theorem restyle_spec (top r m : list (string * Value)) :
  dict_get top "rule" = Some (VDict r) ->
  dict_get r "meta" = Some (VDict m) ->
  NoDup (map fst r) -> NoDup (map fst m) ->
  (dict_get r "features" = None -> restyle (VDict top) = Raise KeyError)
  /\ (is_Some (dict_get r "features") ->
      exists r' m',
        restyle (VDict top) = Ok (VDict (dict_set top "rule" (VDict r')))
        /\ order_meta m = Ok m'
        /\ dict_get r' "meta" = Some (VDict m')
        /\ (forall k, k <> "meta" -> dict_get r' k = dict_get r k)
        /\ map fst r'
           = (filter (fun k => k <> "meta" /\ k <> "features") (map fst r)
              ++ ["meta"; "features"])%list).
Proof.
  intros Ht Hm Hr Hmn. split.
  - intros Hf. unfold restyle. cbn [getitem]. rewrite Ht.
    cbn [bind getitem]. rewrite Hm. cbn [bind].
    destruct (move_to_end_spec r "meta" (VDict m) Hm) as (-> & Hg & _).
    cbn [bind]. unfold move_to_end at 1. now rewrite Hg, Hf.
  - intros [f Hf].
    destruct (restyle_cases top r m f Ht Hm Hf Hr Hmn)
      as (r' & m' & Hre & Ho & Hg & Hk).
    exists (dict_set r' "meta" (VDict m')), m'.
    split; [exact Hre |]. split; [exact Ho |].
    split; [now rewrite dict_get_set, String.eqb_refl |].
    split.
    + intros k Hne. rewrite dict_get_set.
      apply not_eq_sym, String.eqb_neq in Hne. now rewrite Hne.
    + rewrite dict_set_keys.
      assert (set_mem "meta" (map fst r') = true) as ->; [| exact Hk].
      apply set_mem_spec. rewrite Hk. apply elem_of_app. right.
      apply list_elem_of_here.
Qed.

Lemma restyle_spec_witness :
  restyle (VDict [("rule", VDict [("meta", VDict [("name", VStr "r")])])])
  = Raise KeyError.
Proof.
  apply (restyle_spec [("rule", VDict [("meta", VDict [("name", VStr "r")])])]
           [("meta", VDict [("name", VStr "r")])] [("name", VStr "r")]);
    try reflexivity; apply NoDup_singleton.
Defined.

(** The rewriting that [Rule.to_yaml] does is settled after one pass: on
    a document it has returned it returns the same document. *)
Theorem restyle_twice (top r m : list (string * Value)) (d' : Value) :
  dict_get top "rule" = Some (VDict r) ->
  dict_get r "meta" = Some (VDict m) ->
  NoDup (map fst r) -> NoDup (map fst m) ->
  restyle (VDict top) = Ok d' -> restyle d' = Ok d'.
Proof.
  intros Ht Hm Hr Hmn H.
  destruct (dict_get r "features") as [f|] eqn:Hf.
  2:{ unfold restyle in H. cbn [getitem] in H. rewrite Ht in H.
      cbn [bind getitem] in H. rewrite Hm in H. cbn [bind] in H.
      destruct (move_to_end_spec r "meta" (VDict m) Hm) as (E & Hg & _).
      rewrite E in H. cbn [bind] in H. unfold move_to_end at 1 in H.
      rewrite Hg, Hf in H. discriminate H. }
  destruct (restyle_cases top r m f Ht Hm Hf Hr Hmn)
    as (r' & m' & Hre & Ho & Hg & Hk).
  rewrite Hre in H. injection H as <-.
  set (r2 := dict_set r' "meta" (VDict m')).
  set (top2 := dict_set top "rule" (VDict r2)).
  assert (Hin : "meta" ∈ map fst r').
  { rewrite Hk. apply elem_of_app. right. apply list_elem_of_here. }
  assert (Hk2 : map fst r2 = map fst r').
  { unfold r2. rewrite dict_set_keys.
    now rewrite (proj2 (set_mem_spec _ _) Hin). }
  assert (Hnd' : NoDup (map fst r')).
  { rewrite Hk. apply NoDup_app. split; [now apply NoDup_filter |].
    split.
    - intros x Hx Hx'. apply list_elem_of_filter in Hx as [[H1 H2] _].
      apply elem_of_cons in Hx' as [-> | Hx']; [now apply H1 |].
      apply list_elem_of_singleton in Hx'. now apply H2.
    - apply (bool_decide_unpack _). vm_compute. exact I. }
  assert (Hm2 : dict_get r2 "meta" = Some (VDict m'))
    by (unfold r2; now rewrite dict_get_set, String.eqb_refl).
  assert (Hf2 : dict_get r2 "features" = Some f).
  { unfold r2. rewrite dict_get_set. cbn. now rewrite Hg. }
  assert (Ht2 : dict_get top2 "rule" = Some (VDict r2))
    by (unfold top2; now rewrite dict_get_set, String.eqb_refl).
  pose proof (order_meta_NoDup m m' Hmn Ho) as Hmn'.
  destruct (restyle_cases top2 r2 m' f Ht2 Hm2 Hf2
              ltac:(now rewrite Hk2) Hmn')
    as (r3 & m3 & Hre3 & Ho3 & Hg3 & Hk3).
  rewrite Hre3. do 2 f_equal.
  assert (Hm3 : m3 = m').
  { pose proof (order_meta_idem m m' Hmn Ho) as Hi. congruence. }
  subst m3.
  assert (Hr3 : dict_set r3 "meta" (VDict m') = r2).
  { apply dict_ext.
    - rewrite dict_set_keys.
      assert (set_mem "meta" (map fst r3) = true) as ->.
      { apply set_mem_spec. rewrite Hk3. apply elem_of_app. right.
        apply list_elem_of_here. }
      rewrite Hk3, Hk2. apply NoDup_app.
      split; [apply NoDup_filter; exact Hnd' |].
      split.
      + intros x Hx Hx'. apply list_elem_of_filter in Hx as [[H1 H2] _].
        apply elem_of_cons in Hx' as [-> | Hx']; [now apply H1 |].
        apply list_elem_of_singleton in Hx'. now apply H2.
      + apply (bool_decide_unpack _). vm_compute. exact I.
    - rewrite dict_set_keys.
      assert (set_mem "meta" (map fst r3) = true) as ->.
      { apply set_mem_spec. rewrite Hk3. apply elem_of_app. right.
        apply list_elem_of_here. }
      rewrite Hk3, Hk2, Hk, filter_app.
      rewrite (filter_all (fun k => k <> "meta" /\ k <> "features")
                 (filter (fun k => k <> "meta" /\ k <> "features")
                    (map fst r)))
        by (intros x Hx; now apply list_elem_of_filter in Hx as [Hx _]).
      rewrite (filter_none (fun k => k <> "meta" /\ k <> "features")
                 ["meta"; "features"]).
      + now rewrite app_nil_r.
      + intros x Hx [H1 H2]. apply elem_of_cons in Hx as [-> | Hx];
          [now apply H1 |].
        apply list_elem_of_singleton in Hx. now apply H2.
    - intros k. rewrite dict_get_set.
      destruct (String.eqb_spec "meta" k) as [<- | Hne];
        [now rewrite Hm2 | apply Hg3]. }
  rewrite Hr3. unfold top2. apply dict_set_same.
  now rewrite dict_get_set, String.eqb_refl.
Qed.

Lemma restyle_twice_witness :
  restyle
    (VDict [("rule",
             VDict [("x", VNone); ("meta", VDict [("name", VStr "r")]);
                    ("features", VList [])])])
  = Ok (VDict [("rule",
                VDict [("x", VNone); ("meta", VDict [("name", VStr "r")]);
                       ("features", VList [])])]).
Proof.
  apply (restyle_twice
           [("rule",
             VDict [("features", VList []); ("x", VNone);
                    ("meta", VDict [("name", VStr "r")])])]
           [("features", VList []); ("x", VNone);
            ("meta", VDict [("name", VStr "r")])]
           [("name", VStr "r")]);
    try reflexivity;
    apply (bool_decide_unpack _); vm_compute; exact I.
Defined.

(** X30: formatting a rule from the text that [Rule.to_yaml] returned gives
    that text again, provided that loading the text gives back the document
    that was written out. *)
Theorem to_yaml_twice (yaml_load : string -> result Value)
    (yaml_dump : Value -> string) (self : Rule)
    (top r m : list (string * Value)) (s : string) :
  yaml_load (definition self) = Ok (VDict top) ->
  dict_get top "rule" = Some (VDict r) ->
  dict_get r "meta" = Some (VDict m) ->
  NoDup (map fst r) -> NoDup (map fst m) ->
  to_yaml yaml_load yaml_dump self = Ok s ->
  (forall d', restyle (VDict top) = Ok d' -> yaml_load s = Ok d') ->
  to_yaml yaml_load yaml_dump
    (mkRule (name self) (scope self) (statement self) (meta self) s)
  = Ok s.
Proof.
  intros Hl Ht Hm Hr Hmn H Hround. unfold to_yaml in *.
  cbn [definition]. rewrite Hl in H. cbn [bind] in H.
  apply bind_Ok in H as (d' & Hd' & H). injection H as <-.
  rewrite (Hround d' Hd'). cbn [bind].
  now rewrite (restyle_twice top r m d' Ht Hm Hr Hmn Hd').
Qed.

Lemma to_yaml_twice_witness :
  to_yaml
    (fun _ =>
       Ok (VDict [("rule",
                   VDict [("meta", VDict [("name", VStr "r")]);
                          ("features", VList [])])]))
    (fun _ => "rule: r")
    (mkRule "r" "function" (And []) [("name", VStr "r")] "rule: r")
  = Ok "rule: r".
Proof.
  apply (to_yaml_twice
           (fun _ =>
              Ok (VDict [("rule",
                          VDict [("meta", VDict [("name", VStr "r")]);
                                 ("features", VList [])])]))
           (fun _ => "rule: r")
           (mkRule "r" "function" (And []) [("name", VStr "r")] "")
           [("rule",
             VDict [("meta", VDict [("name", VStr "r")]);
                    ("features", VList [])])]
           [("meta", VDict [("name", VStr "r")]); ("features", VList [])]
           [("name", VStr "r")] "rule: r");
    try reflexivity.
  - apply (bool_decide_unpack _). vm_compute. exact I.
  - apply NoDup_singleton.
  - intros d' H. vm_compute in H. injection H as <-. reflexivity.
Defined.
